(** * The incremental response-assembly engine of the chat backend

    A shallow embedding of the Convex functions of
    [convex/chatQueriesAndMutations.ts] (queries and mutations on the
    document store), of [convex/chat.ts] (the actions that drive one
    turn against the provider), of [convex/filePreview.ts] and of the
    helpers of [convex/constants.ts], followed by the properties that the
    design document states about them and by further properties of the
    handlers.

    Conventions of the embedding:
    - a document id is a [nat]; a table is a [gmap nat _]; ids are handed
      out by one counter, so the order of ids is the order of creation;
    - a JavaScript string is a [string], each character standing for one
      UTF-16 code unit (below 256), so [String.length] is [.length];
    - handlers run in the monad [M]: they read and write a [World] (the
      tables, the clock behind [Date.now()], the console, the scheduler
      queue) and either return or throw an [Error] with a message. *)

From Stdlib Require Import String Ascii ZArith Lia DecimalString.
From stdpp Require Import base option gmap strings list fin_maps sorting.

#[local] Open Scope string_scope.
#[local] Open Scope Z_scope.

(** ** JavaScript string primitives used by the handlers *)

Module JS.

(** Truthiness of a string: only the empty string is falsy. *)
Definition truthy (s : string) : bool := negb (String.eqb s EmptyString).

(** [x || d] where [x] is an optional string property. *)
Definition or_else (x : option string) (d : string) : string :=
  match x with
  | Some s => if truthy s then s else d
  | None => d
  end.

(** WhiteSpace and LineTerminator code units below 256: TAB, LF, VT, FF,
    CR, SP, NBSP. *)
Definition isWhiteSpace (c : ascii) : bool :=
  let n := nat_of_ascii c in
  (Nat.eqb n 9 || Nat.eqb n 10 || Nat.eqb n 11 || Nat.eqb n 12
   || Nat.eqb n 13 || Nat.eqb n 32 || Nat.eqb n 160)%bool.

Fixpoint trimStart (s : string) : string :=
  match s with
  | EmptyString => EmptyString
  | String c r => if isWhiteSpace c then trimStart r else s
  end.

Fixpoint trimEnd (s : string) : string :=
  match s with
  | EmptyString => EmptyString
  | String c r =>
      let r' := trimEnd r in
      if (isWhiteSpace c && String.eqb r' EmptyString)%bool then EmptyString
      else String c r'
  end.

(** [s.trim()] *)
Definition trim (s : string) : string := trimEnd (trimStart s).

(** [s.length], as a number. *)
Definition length (s : string) : Z := Z.of_nat (String.length s).

(** [s.substring(indexStart, indexEnd)]: both indices are clamped to
    [0 .. s.length] and swapped when the first exceeds the second. *)
Definition substring (s : string) (indexStart indexEnd : Z) : string :=
  let a := Z.min (Z.max indexStart 0) (length s) in
  let b := Z.min (Z.max indexEnd 0) (length s) in
  String.substring (Z.to_nat (Z.min a b)) (Z.to_nat (Z.max a b - Z.min a b)) s.

(** [c.toLowerCase()] on one code unit below 256. *)
Definition lowerChar (c : ascii) : ascii :=
  let n := nat_of_ascii c in
  if ((Nat.leb 65 n && Nat.leb n 90)
      || (Nat.leb 192 n && Nat.leb n 222 && negb (Nat.eqb n 215)))%bool
  then ascii_of_nat (n + 32) else c.

Fixpoint toLowerCase (s : string) : string :=
  match s with
  | EmptyString => EmptyString
  | String c r => String (lowerChar c) (toLowerCase r)
  end.

(** [s.split(sep)] for a one-character separator: never the empty array. *)
Fixpoint split (sep : ascii) (s : string) : list string :=
  match s with
  | EmptyString => [EmptyString]
  | String c r =>
      if Ascii.eqb c sep then EmptyString :: split sep r
      else match split sep r with
           | h :: t => String c h :: t
           | [] => [String c EmptyString]
           end
  end.

(** [xs.pop()], the value only. *)
Definition pop (xs : list string) : option string := last xs.

(** [xs.includes(x)] *)
Definition includes (xs : list string) (x : string) : bool :=
  existsb (String.eqb x) xs.

(** [xs.join(sep)] *)
Fixpoint join (sep : string) (xs : list string) : string :=
  match xs with
  | [] => EmptyString
  | [x] => x
  | x :: rest => x ++ sep ++ join sep rest
  end.

(** Template rendering of numbers: [`${n}`]. *)
Definition showNat (n : nat) : string := NilEmpty.string_of_uint (Nat.to_uint n).
Definition showZ (z : Z) : string := NilZero.string_of_int (Z.to_int z).

(** [s.endsWith(p)] *)
Definition endsWith (s p : string) : bool :=
  (Nat.leb (String.length p) (String.length s)
   && String.eqb
        (String.substring (String.length s - String.length p)
           (String.length p) s) p)%bool.

(** [s.includes(t)] on strings: [t] occurs somewhere in [s]. *)
Fixpoint String_includes (s t : string) : bool :=
  (String.prefix t s
   || match s with
      | EmptyString => false
      | String _ r => String_includes r t
      end)%bool.

(** [xs.sort(compareFn)]: the sort is stable; an element goes before the
    ones it does not compare greater than. *)
Fixpoint insertSorted {A} (compareFn : A → A → Z) (x : A) (xs : list A)
    : list A :=
  match xs with
  | [] => [x]
  | y :: rest =>
      if compareFn x y <=? 0 then x :: xs
      else y :: insertSorted compareFn x rest
  end.

Definition sort {A} (compareFn : A → A → Z) (xs : list A) : list A :=
  foldr (insertSorted compareFn) [] xs.

End JS.

(** ** The data model ([convex/schema.ts]) *)

Inductive Author := user | assistant.
Inductive Status := typing | completed | error.
Inductive ThinkingIntensity := low | medium | high.

Inductive Citation :=
| CiteFile (fileId fileName : string)
| CiteUrl (url title : string).

Record UploadedFile := mkUploadedFile {
  uf_fileName : string;
  uf_storageId : nat;
  uf_fileType : string;
  uf_fileSize : Z;
}.

Record Conversation := mkConversation {
  userId : nat;
  name : string;
  lastResponseId : option string;
  vectorStoreId : option string;
  updatedTime : option Z;
}.

(** [errorDetails] is the property the chat sidebar reads from a message
    ([message.errorDetails]); the schema does not declare it. *)
Record Message := mkMessage {
  conversationId : nat;
  author : Author;
  content : string;
  status : option Status;
  fileIds : option (list string);
  uploadedFileNames : option (list string);
  uploadedFiles : option (list UploadedFile);
  openaiResponseId : option string;
  vectorStoreFileIds : option (list string);
  webSearchEnabled : option bool;
  model : option string;
  thinkingIntensity : option ThinkingIntensity;
  citations : option (list Citation);
  reasoningSummary : option string;
  timezone : option string;
  errorDetails : option string;
}.

(** The table [fileMessageMappings]; [fileType] has the single value
    ["user_upload"]. *)
Inductive FileType := user_upload.

Record FileMessageMapping := mkFileMessageMapping {
  openaiFileId : string;
  fileName : string;
  fileType : FileType;
  uploadedBy : option nat;
  storageId : option nat;
  firstUsedInConversationId : option nat;
  firstUsedInMessageId : option nat;
  fileMimeType : option string;
  fileSize : option Z;
  uploadedAt : Z;
}.

Record User := mkUser {
  user_name : option string;
  user_email : option string;
}.

#[global] Instance Author_eq_dec : EqDecision Author.
Proof. solve_decision. Defined.
#[global] Instance Status_eq_dec : EqDecision Status.
Proof. solve_decision. Defined.
#[global] Instance Citation_eq_dec : EqDecision Citation.
Proof. solve_decision. Defined.
#[global] Instance FileType_eq_dec : EqDecision FileType.
Proof. solve_decision. Defined.

(** ** The world a handler runs in *)

Inductive Level := console_log | console_warn | console_error.

Record LogEntry := mkLog { level : Level; text : string }.

(** Jobs put on the scheduler with [ctx.scheduler.runAfter(delay, f, args)]. *)
Inductive Job :=
| generateAiResponseJob (conversation : nat)
| generateConversationTitleJob (conversation : nat).

Record World := mkWorld {
  conversations : gmap nat Conversation;
  messages : gmap nat Message;
  fileMessageMappings : gmap nat FileMessageMapping;
  users : gmap nat User;
  nextId : nat;
  now : Z;
  console : list LogEntry;
  scheduled : list (Z * Job);
}.

Definition set_conversations (c : gmap nat Conversation) (w : World) : World :=
  mkWorld c (messages w) (fileMessageMappings w) (users w) (nextId w)
    (now w) (console w) (scheduled w).

Definition set_messages (m : gmap nat Message) (w : World) : World :=
  mkWorld (conversations w) m (fileMessageMappings w) (users w) (nextId w)
    (now w) (console w) (scheduled w).

Definition set_fileMessageMappings (f : gmap nat FileMessageMapping)
    (w : World) : World :=
  mkWorld (conversations w) (messages w) f (users w) (nextId w)
    (now w) (console w) (scheduled w).

Definition set_nextId (n : nat) (w : World) : World :=
  mkWorld (conversations w) (messages w) (fileMessageMappings w) (users w) n
    (now w) (console w) (scheduled w).

Definition set_console (c : list LogEntry) (w : World) : World :=
  mkWorld (conversations w) (messages w) (fileMessageMappings w) (users w)
    (nextId w) (now w) c (scheduled w).

Definition set_scheduled (s : list (Z * Job)) (w : World) : World :=
  mkWorld (conversations w) (messages w) (fileMessageMappings w) (users w)
    (nextId w) (now w) (console w) s.

(** ** The handler monad: state and exceptions *)

Inductive Outcome (A : Type) :=
| Returned (a : A)
| Threw (message : string).
Arguments Returned {A} a.
Arguments Threw {A} message.

Definition M (A : Type) : Type := World → Outcome A * World.

#[global] Instance M_ret : MRet M := λ A a w, (Returned a, w).

#[global] Instance M_bind : MBind M := λ A B f m w,
  match m w with
  | (Returned a, w') => f a w'
  | (Threw e, w') => (Threw e, w')
  end.

Definition throw {A} (e : string) : M A := λ w, (Threw e, w).

(** [try { m } catch (e) { h e }] *)
Definition try_catch {A} (m : M A) (h : string → M A) : M A := λ w,
  match m w with
  | (Returned a, w') => (Returned a, w')
  | (Threw e, w') => h e w'
  end.

Definition gets {A} (f : World → A) : M A := λ w, (Returned (f w), w).
Definition modify (f : World → World) : M unit := λ w, (Returned tt, f w).

Definition Date_now : M Z := gets now.

Definition console_write (l : Level) (s : string) : M unit :=
  modify (λ w, set_console (console w ++ [mkLog l s]) w).

Definition runAfter (delay : Z) (j : Job) : M unit :=
  modify (λ w, set_scheduled (scheduled w ++ [(delay, j)]) w).

(** The platform runs a mutation as a transaction: a handler that throws
    commits nothing to the tables (what it printed stays printed). *)
Definition runMutation {A} (m : M A) : M A := λ w,
  match m w with
  | (Returned a, w') => (Returned a, w')
  | (Threw e, w') => (Threw e, set_console (console w') w)
  end.

(** ** Document store primitives ([ctx.db]) *)

(** The object handed to [ctx.db.patch]: a property that is present
    overwrites the stored one, an absent one leaves it alone. *)
Record MessagePatch := mkMessagePatch {
  p_content : option string;
  p_status : option Status;
  p_openaiResponseId : option string;
  p_reasoningSummary : option string;
  p_citations : option (list Citation);
}.

Definition noMessagePatch : MessagePatch :=
  mkMessagePatch None None None None None.

Definition overwrite {A} (new old : option A) : option A :=
  match new with Some x => Some x | None => old end.

Definition patchMessage (p : MessagePatch) (m : Message) : Message :=
  mkMessage (conversationId m) (author m)
    (default (content m) (p_content p))
    (overwrite (p_status p) (status m))
    (fileIds m) (uploadedFileNames m) (uploadedFiles m)
    (overwrite (p_openaiResponseId p) (openaiResponseId m))
    (vectorStoreFileIds m) (webSearchEnabled m) (model m)
    (thinkingIntensity m)
    (overwrite (p_citations p) (citations m))
    (overwrite (p_reasoningSummary p) (reasoningSummary m))
    (timezone m) (errorDetails m).

Record ConversationPatch := mkConversationPatch {
  p_name : option string;
  p_lastResponseId : option string;
  p_vectorStoreId : option string;
  p_updatedTime : option Z;
}.

Definition noConversationPatch : ConversationPatch :=
  mkConversationPatch None None None None.

Definition patchConversation (p : ConversationPatch) (c : Conversation)
    : Conversation :=
  mkConversation (userId c)
    (default (name c) (p_name p))
    (overwrite (p_lastResponseId p) (lastResponseId c))
    (overwrite (p_vectorStoreId p) (vectorStoreId c))
    (overwrite (p_updatedTime p) (updatedTime c)).

Module db.

Definition get_message (id : nat) : M (option Message) :=
  gets (λ w, messages w !! id).

Definition get_conversation (id : nat) : M (option Conversation) :=
  gets (λ w, conversations w !! id).

Definition get_user (id : nat) : M (option User) :=
  gets (λ w, users w !! id).

(** [ctx.db.patch] rejects the id of a document that does not exist. *)
Definition patch_message (id : nat) (p : MessagePatch) : M unit := λ w,
  match messages w !! id with
  | Some m =>
      (Returned tt, set_messages (<[id := patchMessage p m]> (messages w)) w)
  | None => (Threw "Update on nonexistent document", w)
  end.

Definition patch_conversation (id : nat) (p : ConversationPatch) : M unit :=
  λ w,
  match conversations w !! id with
  | Some c =>
      (Returned tt,
       set_conversations (<[id := patchConversation p c]> (conversations w)) w)
  | None => (Threw "Update on nonexistent document", w)
  end.

Definition insert_message (m : Message) : M nat := λ w,
  let id := nextId w in
  (Returned id, set_nextId (S id) (set_messages (<[id := m]> (messages w)) w)).

Definition insert_fileMessageMapping (f : FileMessageMapping) : M nat := λ w,
  let id := nextId w in
  (Returned id,
   set_nextId (S id)
     (set_fileMessageMappings (<[id := f]> (fileMessageMappings w)) w)).

(** The documents of [messages] with the given conversation, oldest
    first (index [by_conversationId], [.order("asc")]). *)
Definition byCreation (a b : nat * Message) : Prop := (a.1 ≤ b.1)%nat.

#[global] Instance byCreation_dec a b : Decision (byCreation a b).
Proof. unfold byCreation. apply _. Defined.

Definition messagesOf (conv : nat) (w : World) : list (nat * Message) :=
  merge_sort byCreation
    (map_to_list (filter (λ kv : nat * Message, conversationId kv.2 = conv)
                    (messages w))).

(** [.withIndex("by_openaiFileId", q => q.eq("openaiFileId", id)).unique()]:
    null when nothing matches, the document when one does, an exception
    when several do. *)
Definition unique_fileMessageMapping (id : string)
    : M (option (nat * FileMessageMapping)) := λ w,
  match map_to_list (filter (λ kv : nat * FileMessageMapping,
                               openaiFileId kv.2 = id)
                       (fileMessageMappings w)) with
  | [] => (Returned None, w)
  | [kv] => (Returned (Some kv), w)
  | _ => (Threw "unique() query returned more than one result", w)
  end.

Definition insert_conversation (c : Conversation) : M nat := λ w,
  let id := nextId w in
  (Returned id,
   set_nextId (S id) (set_conversations (<[id := c]> (conversations w)) w)).

(** [ctx.db.delete] rejects the id of a document that does not exist. *)
Definition delete_message (id : nat) : M unit := λ w,
  match messages w !! id with
  | Some _ => (Returned tt, set_messages (delete id (messages w)) w)
  | None => (Threw "Delete on nonexistent document", w)
  end.

Definition delete_conversation (id : nat) : M unit := λ w,
  match conversations w !! id with
  | Some _ =>
      (Returned tt, set_conversations (delete id (conversations w)) w)
  | None => (Threw "Delete on nonexistent document", w)
  end.

(** The documents of [conversations] of one user, oldest first (index
    [by_userId], [.collect()]). *)
Definition olderConversation (a b : nat * Conversation) : Prop :=
  (a.1 ≤ b.1)%nat.

#[global] Instance olderConversation_dec a b :
  Decision (olderConversation a b).
Proof. unfold olderConversation. apply _. Defined.

Definition conversationsOf (uid : nat) (w : World)
    : list (nat * Conversation) :=
  merge_sort olderConversation
    (map_to_list (filter (λ kv : nat * Conversation, userId kv.2 = uid)
                    (conversations w))).

End db.

(** ** [convex/chatQueriesAndMutations.ts] *)

(** [export const MAX_MESSAGE_SIZE = 50 * 1024; // 50KB] *)
Definition MAX_MESSAGE_SIZE : Z := 50 * 1024.

(** [getLoggedInUser(ctx)] for a context with [db]; [auth] is what
    [getAuthUserId(ctx)] answers. *)
Definition getLoggedInUser (auth : option nat) : M (nat * User) :=
  match auth with
  | None => throw "User not authenticated"
  | Some uid =>
      u ← db.get_user uid;
      match u with
      | None => throw "User not found"
      | Some u => mret (uid, u)
      end
  end.

Record storeAiMessageArgs := mkStoreAiMessageArgs {
  sa_conversationId : nat;
  sa_content : string;
  sa_status : option Status;
  sa_openaiResponseId : option string;
  sa_reasoningSummary : option string;
  sa_citations : option (list Citation);
  sa_timezone : option string;
}.

Definition storeAiMessage (args : storeAiMessageArgs) : M nat :=
  messageId ← db.insert_message
    (mkMessage (sa_conversationId args) assistant (sa_content args)
       (sa_status args) None None None (sa_openaiResponseId args) None None
       None None (sa_citations args) (sa_reasoningSummary args)
       (sa_timezone args) None);
  (if bool_decide (sa_status args ≠ Some typing) then
     t ← Date_now;
     db.patch_conversation (sa_conversationId args)
       (mkConversationPatch None None None (Some t))
   else mret tt);;
  mret messageId.

Definition getConversation (conv : nat) (forUser : option nat)
    : M (option Conversation) :=
  conversation ← db.get_conversation conv;
  match conversation with
  | None => mret None
  | Some c =>
      match forUser with
      | Some uid =>
          if bool_decide (userId c ≠ uid) then
            console_write console_error
              "Someone is trying to access a conversation they don't own";;
            throw "Not found"
          else mret (Some c)
      | None => mret (Some c)
      end
  end.

Definition updateConversationResponseId (conv : nat) (responseId : string)
    : M unit :=
  conversation ← db.get_conversation conv;
  match conversation with
  | None =>
      console_write console_warn
        ("Conversation " ++ JS.showNat conv
           ++ " not found when updating response ID")
  | Some _ =>
      db.patch_conversation conv
        (mkConversationPatch None (Some responseId) None None)
  end.

Record storeUserMessageArgs := mkStoreUserMessageArgs {
  su_conversationId : nat;
  su_content : string;
  su_fileIds : option (list string);
  su_uploadedFileNames : option (list string);
  su_uploadedFiles : option (list UploadedFile);
  su_vectorStoreFileIds : option (list string);
  su_timezone : option string;
  su_webSearchEnabled : option bool;
  su_model : option string;
  su_thinkingIntensity : option ThinkingIntensity;
}.

Definition userMessageOf (args : storeUserMessageArgs) : Message :=
  mkMessage (su_conversationId args) user (su_content args) None
    (su_fileIds args) (su_uploadedFileNames args) (su_uploadedFiles args)
    None (su_vectorStoreFileIds args) (su_webSearchEnabled args)
    (su_model args) (su_thinkingIntensity args) None None
    (su_timezone args) None.

(** [storeUserMessage] takes no [uploadedFiles] and no
    [vectorStoreFileIds]: its message carries neither. *)
Definition storeUserMessage (args : storeUserMessageArgs) : M unit :=
  db.insert_message
    (mkMessage (su_conversationId args) user (su_content args) None
       (su_fileIds args) (su_uploadedFileNames args) None
       None None (su_webSearchEnabled args)
       (su_model args) (su_thinkingIntensity args) None None
       (su_timezone args) None);;
  t ← Date_now;
  db.patch_conversation (su_conversationId args)
    (mkConversationPatch None None None (Some t)).

Definition storeUserMessageWithVectorStore (args : storeUserMessageArgs)
    : M nat :=
  messageId ← db.insert_message (userMessageOf args);
  t ← Date_now;
  db.patch_conversation (su_conversationId args)
    (mkConversationPatch None None None (Some t));;
  mret messageId.

(** [appendMessageContent], with the size limit as a parameter. *)
Definition appendMessageContentWithin (limit : Z) (messageId : nat)
    (delta : string) : M unit :=
  message ← db.get_message messageId;
  match message with
  | None =>
      console_write console_warn
        ("Message with ID " ++ JS.showNat messageId
           ++ " not found for appending.")
  | Some message =>
      let newContent := content message ++ delta in
      if JS.length newContent >? limit then
        console_write console_warn
          ("Message " ++ JS.showNat messageId
             ++ " would exceed size limit ("
             ++ JS.showZ (JS.length newContent) ++ " > " ++ JS.showZ limit
             ++ "), truncating...");;
        let remainingSpace := limit - JS.length (content message) in
        if remainingSpace <=? 0 then mret tt
        else
          db.patch_message messageId
            (mkMessagePatch
               (Some (content message ++ JS.substring delta 0 remainingSpace))
               None None None None)
      else
        db.patch_message messageId
          (mkMessagePatch (Some newContent) None None None None)
  end.

Definition appendMessageContent : nat → string → M unit :=
  appendMessageContentWithin MAX_MESSAGE_SIZE.

Record markMessageCompleteArgs := mkMarkMessageCompleteArgs {
  mc_messageId : nat;
  mc_openaiResponseId : option string;
  mc_reasoningSummary : option string;
  mc_citations : option (list Citation);
  mc_timezone : option string;
}.

Definition markMessageComplete (args : markMessageCompleteArgs) : M unit :=
  message ← db.get_message (mc_messageId args);
  match message with
  | None =>
      console_write console_warn
        ("Message with ID " ++ JS.showNat (mc_messageId args)
           ++ " not found for marking as complete.")
  | Some _ =>
      let updateData :=
        mkMessagePatch None (Some completed) (mc_openaiResponseId args)
          (mc_reasoningSummary args) (mc_citations args) in
      db.patch_message (mc_messageId args) updateData
  end.

(** The handler of [markMessageError] has the single argument
    [messageId]. *)
Definition markMessageError (messageId : nat) : M unit :=
  message ← db.get_message messageId;
  match message with
  | None =>
      console_write console_warn
        ("Message with ID " ++ JS.showNat messageId
           ++ " not found for marking as error.")
  | Some _ =>
      db.patch_message messageId
        (mkMessagePatch None (Some error) None None None)
  end.

Definition updateReasoningSummary (messageId : nat) (summary : string)
    : M unit :=
  message ← db.get_message messageId;
  match message with
  | None =>
      console_write console_warn
        ("Message with ID " ++ JS.showNat messageId
           ++ " not found for updating reasoning summary.")
  | Some _ =>
      db.patch_message messageId
        (mkMessagePatch None None None (Some summary) None)
  end.

Definition getFirstMessage (conv : nat) : M (option (nat * Message)) :=
  gets (λ w, head (db.messagesOf conv w)).

Definition getLastUserMessage (conv : nat) : M (option (nat * Message)) :=
  gets (λ w,
    head (reverse (filter (λ kv : nat * Message, author kv.2 = user)
                     (db.messagesOf conv w)))).

Definition updateConversationVectorStore (conv : nat) (vs : string)
    : M unit :=
  db.patch_conversation conv (mkConversationPatch None None (Some vs) None).

Record createUserFileMappingArgs := mkCreateUserFileMappingArgs {
  cm_openaiFileId : string;
  cm_fileName : string;
  cm_uploadedBy : nat;
  cm_storageId : nat;
  cm_fileMimeType : option string;
  cm_fileSize : option Z;
  cm_firstUsedInConversationId : option nat;
  cm_firstUsedInMessageId : option nat;
}.

Definition createUserFileMapping (args : createUserFileMappingArgs)
    : M unit :=
  existingMapping ← db.unique_fileMessageMapping (cm_openaiFileId args);
  match existingMapping with
  | None =>
      t ← Date_now;
      db.insert_fileMessageMapping
        (mkFileMessageMapping (cm_openaiFileId args) (cm_fileName args)
           user_upload (Some (cm_uploadedBy args)) (Some (cm_storageId args))
           (cm_firstUsedInConversationId args)
           (cm_firstUsedInMessageId args)
           (cm_fileMimeType args) (cm_fileSize args) t);;
      mret tt
  | Some _ => mret tt
  end.

Record fileMappingItem := mkFileMappingItem {
  fm_openaiFileId : string;
  fm_fileName : string;
  fm_storageId : nat;
  fm_fileMimeType : option string;
  fm_fileSize : option Z;
}.

Fixpoint forEach {A} (f : A → M unit) (xs : list A) : M unit :=
  match xs with
  | [] => mret tt
  | x :: rest => f x;; forEach f rest
  end.

Definition createUserFileMappings (by_ : nat) (conv msg : option nat)
    (fileMappings : list fileMappingItem) : M unit :=
  forEach (λ fileMapping,
    runMutation (createUserFileMapping
      (mkCreateUserFileMappingArgs (fm_openaiFileId fileMapping)
         (fm_fileName fileMapping) by_ (fm_storageId fileMapping)
         (fm_fileMimeType fileMapping) (fm_fileSize fileMapping) conv msg)))
    fileMappings.

(** [findUserMessageByFileIdImpl(ctx, { conversationId, openaiFileId })];
    the result is [{ messageId, fileName }] or [null]. *)
Definition findUserMessageByFileIdImpl (auth : option nat) (conv : nat)
    (fileId : string) : M (option (nat * string)) :=
  '(uid, _) ← getLoggedInUser auth;
  conversation ← db.get_conversation conv;
  if bool_decide (userId <$> conversation ≠ Some uid) then
    throw "Access denied: conversation does not belong to user"
  else
    fileMapping ← db.unique_fileMessageMapping fileId;
    match fileMapping with
    | None => mret None
    | Some (_, fileMapping) =>
        if bool_decide (is_Some (firstUsedInConversationId fileMapping)
                        ∧ firstUsedInConversationId fileMapping ≠ Some conv)
        then mret None
        else if bool_decide (fileType fileMapping = user_upload
                             ∧ uploadedBy fileMapping ≠ Some uid)
        then throw "Access denied: file was not uploaded by current user"
        else
          match firstUsedInMessageId fileMapping with
          | Some messageId => mret (Some (messageId, fileName fileMapping))
          | None => mret None
          end
    end.

(** ** [convex/constants.ts] *)

Definition MAX_FILES : Z := 10.
Definition MAX_FILE_SIZE : Z := 10 * 1024 * 1024.
Definition SUPPORTED_FILE_TYPES : list string := ["txt"; "pdf"; "docx"].

Record ModelInfo := mkModelInfo {
  model_name : string;
  thinking : bool;
  webSearch : bool;
  fileSearch : bool;
}.

Definition SUPPORTED_MODELS : list ModelInfo :=
  [ mkModelInfo "gpt-4.1" false true true;
    mkModelInfo "o4-mini" true false true;
    mkModelInfo "o3-mini" true false true;
    mkModelInfo "o3" true false true;
    mkModelInfo "o3-pro" true false true ].

Definition THINKING_MODELS : list string :=
  model_name <$> filter (λ m, thinking m = true) SUPPORTED_MODELS.

Definition isSupportedModel (m : string) : bool :=
  JS.includes (model_name <$> SUPPORTED_MODELS) m.

Definition isThinkingModel (m : string) : bool :=
  JS.includes THINKING_MODELS m.

Definition isSupportedFileExtension (extension : option string) : bool :=
  match extension with
  | None => false
  | Some e =>
      if JS.truthy e then JS.includes SUPPORTED_FILE_TYPES (JS.toLowerCase e)
      else false
  end.

Definition mimeTypeMap : list (string * string) :=
  [ ("txt", "text/plain");
    ("pdf", "application/pdf");
    ("doc", "application/msword");
    ("docx", "application/vnd.openxmlformats-officedocument.wordprocessingml.document");
    ("xls", "application/vnd.ms-excel");
    ("xlsx", "application/vnd.openxmlformats-officedocument.spreadsheetml.sheet");
    ("ppt", "application/vnd.ms-powerpoint");
    ("pptx", "application/vnd.openxmlformats-officedocument.presentationml.presentation");
    ("csv", "text/csv");
    ("json", "application/json");
    ("xml", "application/xml");
    ("html", "text/html");
    ("htm", "text/html") ].

(** [fileName.split(".").pop()?.toLowerCase()] *)
Definition extensionOf (fileName : string) : option string :=
  JS.toLowerCase <$> JS.pop (JS.split "."%char fileName).

(** The lookup is in the own keys of the object literal. The literal
    also answers for the names it inherits from [Object.prototype]
    ([constructor], [__proto__], [toString], ...), with a value that is
    not a string; for those names this definition answers the default.
    None of them is a supported extension. *)
Definition getMimeType (fileName : string) (fileExtension : option string)
    : string :=
  let extension :=
    match fileExtension with
    | Some e => if JS.truthy e then Some e else extensionOf fileName
    | None => extensionOf fileName
    end in
  match (list_to_map mimeTypeMap : gmap string string)
          !! default EmptyString extension with
  | Some t => if JS.truthy t then t else "application/octet-stream"
  | None => "application/octet-stream"
  end.

(** ** [convex/chat.ts]: the provider's stream *)

Inductive Annotation :=
| file_citation (file_id : string) (filename : option string)
| url_citation (url : string) (title : option string)
| other_annotation.

Record OutputTextContent := mkOutputTextContent {
  otc_type : string;
  otc_annotations : option (list Annotation);
}.

Record ResponseOutput := mkResponseOutput {
  ro_type : string;
  ro_content : option (list OutputTextContent);
}.

(** The events of a streamed response, by [event.type]. *)
Inductive StreamEvent :=
| response_created (id : string)
| response_output_text_delta (delta : string)
| response_reasoning_summary_text_delta (delta : string)
| response_reasoning_summary_text_done (text : string)
| response_output_text_done (annotations : option (list Annotation))
| response_completed (output : option (list ResponseOutput))
| response_other.

Inductive Tool :=
| web_search_preview
| file_search (vector_store_ids : list string) (max_num_results : Z).

(** The request of [openai.responses.create]. The instructions are the
    system prompt with its two placeholders filled: they are kept as the
    two values that fill them. *)
Record Request := mkRequest {
  rq_model : string;
  rq_input : string;
  rq_previous_response_id : option string;
  rq_instructions : string * string;
  rq_tools : option (list Tool);
}.

(** What the provider does with a request: the call rejects, or it yields
    events and then either ends or fails in transit. *)
Inductive Reply :=
| Rejects (error : string)
| Streams (events : list StreamEvent) (failure : option string).

(** What lies outside the program during one turn. [toLocaleString tz] is
    [new Date().toLocaleString("en-US", { timeZone: tz, ... })], which
    throws a RangeError ([None]) on an unknown time zone. *)
Record Provider := mkProvider {
  responses_create : Request → Reply;
  toLocaleString : string → option string;
}.

(** ** The citation list of one turn *)

Definition someFile (fileId : string) (citations : list Citation) : bool :=
  existsb (λ c, match c with
                | CiteFile f _ => String.eqb f fileId
                | CiteUrl _ _ => false
                end) citations.

Definition someUrl (url : string) (citations : list Citation) : bool :=
  existsb (λ c, match c with
                | CiteUrl u _ => String.eqb u url
                | CiteFile _ _ => false
                end) citations.

(** The body of [for (const annotation of annotations)], the same at both
    sites of [generateAiResponse]. *)
Definition addAnnotation (citations : list Citation) (annotation : Annotation)
    : list Citation :=
  match annotation with
  | file_citation fileId filename =>
      let fileName := JS.or_else filename "unknown" in
      if negb (someFile fileId citations)
      then citations ++ [CiteFile fileId fileName]
      else citations
  | url_citation url title =>
      let title := JS.or_else title "Web Result" in
      if negb (someUrl url citations)
      then citations ++ [CiteUrl url title]
      else citations
  | other_annotation => citations
  end.

Definition addAnnotations (citations : list Citation)
    (annotations : list Annotation) : list Citation :=
  foldl addAnnotation citations annotations.

(** The annotations that the handler of [response.completed] walks over,
    in the order it meets them. *)
Definition completedAnnotations (output : option (list ResponseOutput))
    : list Annotation :=
  match output with
  | None => []
  | Some items =>
      items ≫= λ item,
        if String.eqb (ro_type item) "message" then
          match ro_content item with
          | None => []
          | Some contents =>
              contents ≫= λ content,
                if String.eqb (otc_type content) "output_text" then
                  default [] (otc_annotations content)
                else []
          end
        else []
  end.

(** What the handler of [response.output_text.done] prints per annotation. *)
Definition logAnnotation (annotation : Annotation) : M unit :=
  match annotation with
  | file_citation fileId filename =>
      console_write console_log
        ("File Citation: " ++ JS.or_else filename "unknown"
           ++ " (" ++ fileId ++ ")")
  | url_citation url title =>
      console_write console_log
        ("URL Citation: " ++ JS.or_else title "Web Result"
           ++ " (" ++ url ++ ")")
  | other_annotation => mret tt
  end.

(** ** [generateAiResponse] *)

(** The local variables of the streaming loop. *)
Record Turn := mkTurn {
  fullContent : string;
  openaiResponseIdOf : string;
  reasoningSummaryOf : string;
  citationsOf : list Citation;
}.

Definition newTurn : Turn := mkTurn EmptyString EmptyString EmptyString [].

Definition nonEmpty {A} (xs : list A) : option (list A) :=
  match xs with [] => None | _ => Some xs end.

(** [s.trim() || undefined] *)
Definition trimmedOrUndefined (s : string) : option string :=
  if JS.truthy (JS.trim s) then Some (JS.trim s) else None.

(** [catch (streamError) { console.error(...) }]: the event is given up,
    the loop goes on with the locals as they are. *)
Definition perEvent (t : Turn) (body : M (Turn * bool)) : M (Turn * bool) :=
  try_catch body
    (λ _, console_write console_error "Error processing stream event:";;
          mret (t, false)).

(** One iteration of [for await (const event of response)]; the boolean
    tells whether the iteration ended in [break]. *)
Definition onEvent (conv aiMessageId : nat) (t : Turn) (event : StreamEvent)
    : M (Turn * bool) :=
  match event with
  | response_created id =>
      mret (mkTurn (fullContent t) id (reasoningSummaryOf t) (citationsOf t),
            false)
  | response_output_text_delta delta =>
      let t := mkTurn (fullContent t ++ delta) (openaiResponseIdOf t)
                 (reasoningSummaryOf t) (citationsOf t) in
      perEvent t
        (runMutation (appendMessageContent aiMessageId delta);;
         mret (t, false))
  | response_reasoning_summary_text_delta delta =>
      let t := mkTurn (fullContent t) (openaiResponseIdOf t)
                 (reasoningSummaryOf t ++ delta) (citationsOf t) in
      perEvent t
        (runMutation (updateReasoningSummary aiMessageId (reasoningSummaryOf t));;
         mret (t, false))
  | response_reasoning_summary_text_done text =>
      let t := mkTurn (fullContent t) (openaiResponseIdOf t)
                 (reasoningSummaryOf t ++ text) (citationsOf t) in
      perEvent t
        (runMutation (updateReasoningSummary aiMessageId (reasoningSummaryOf t));;
         mret (t, false))
  | response_output_text_done annotations =>
      let annotations := default [] annotations in
      forEach logAnnotation annotations;;
      mret (mkTurn (fullContent t) (openaiResponseIdOf t)
              (reasoningSummaryOf t)
              (addAnnotations (citationsOf t) annotations),
            false)
  | response_completed output =>
      let t := mkTurn (fullContent t) (openaiResponseIdOf t)
                 (reasoningSummaryOf t)
                 (addAnnotations (citationsOf t) (completedAnnotations output))
      in
      perEvent t
        (runMutation (markMessageComplete
           (mkMarkMessageCompleteArgs aiMessageId
              (Some (openaiResponseIdOf t))
              (trimmedOrUndefined (reasoningSummaryOf t))
              (nonEmpty (citationsOf t)) None));;
         runMutation (updateConversationResponseId conv (openaiResponseIdOf t));;
         console_write console_log
           ("Streaming response completed for conversation "
              ++ JS.showNat conv);;
         mret (t, true))
  | response_other => mret (t, false)
  end.

Fixpoint forAwait (conv aiMessageId : nat) (t : Turn)
    (events : list StreamEvent) : M (Turn * bool) :=
  match events with
  | [] => mret (t, false)
  | event :: rest =>
      '(t, stop) ← onEvent conv aiMessageId t event;
      if stop : bool then mret (t, true)
      else forAwait conv aiMessageId t rest
  end.

(** The inner [try] block from the provider call to the last check. *)
Definition streamResponse (p : Provider) (request : Request)
    (conv aiMessageId : nat) : M unit :=
  match responses_create p request with
  | Rejects e => throw e
  | Streams events failure =>
      '(t, stop) ← forAwait conv aiMessageId newTurn events;
      (if stop : bool then mret tt
       else match failure with
            | Some e => throw e
            | None => mret tt
            end);;
      if negb (JS.truthy (JS.trim (fullContent t))) then
        console_write console_warn "No content generated in OpenAI response";;
        runMutation (markMessageError aiMessageId)
      else mret tt
  end.

(** The inner [catch (error)] block. *)
Definition onGenerationError (aiMessageId : nat) : M unit :=
  console_write console_error "Error during OpenAI response generation:";;
  runMutation (appendMessageContent aiMessageId
    "Sorry, I encountered an error while generating a response.");;
  runMutation (markMessageError aiMessageId).

(** The inner [try] and [catch] of [generateAiResponse] together. *)
Definition driveTurn (p : Provider) (request : Request)
    (conv aiMessageId : nat) : M unit :=
  try_catch (streamResponse p request conv aiMessageId)
    (λ _, onGenerationError aiMessageId).

Definition newline : string := String (ascii_of_nat 10) EmptyString.

Definition inputContentOf (lastMessage : Message) : list string :=
  (if JS.truthy (JS.trim (content lastMessage))
   then [content lastMessage] else [])
  ++ match fileIds lastMessage with
     | Some ids =>
         if (0 <? Z.of_nat (length ids))
         then ["[" ++ JS.showNat (length ids) ++ " file(s) attached]"]
         else []
     | None => []
     end.

Definition toolsOf (conversation : Conversation) (lastMessage : Message)
    : list Tool :=
  (if bool_decide (webSearchEnabled lastMessage = Some true)
   then [web_search_preview] else [])
  ++ match vectorStoreId conversation with
     | Some vs => if JS.truthy vs then [file_search [vs] 10] else []
     | None => []
     end.

Definition generateAiResponse (p : Provider) (conv : nat) : M unit :=
  try_catch
    (conversation ← getConversation conv None;
     match conversation with
     | None => console_write console_error "Conversation not found:"
     | Some conversation =>
         lastMessage ← getLastUserMessage conv;
         match lastMessage with
         | None =>
             console_write console_error
               "No user message found in conversation:"
         | Some (_, lastMessage) =>
             let inputContent := inputContentOf lastMessage in
             if bool_decide (inputContent = []) then
               console_write console_error "No content found in user message"
             else
               let inputText := JS.join newline inputContent in
               let tools := toolsOf conversation lastMessage in
               let selectedModel := JS.or_else (model lastMessage) "gpt-4.1" in
               selectedModel ←
                 (if negb (isSupportedModel selectedModel) then
                    console_write console_error
                      ("Unsupported model in message: " ++ selectedModel
                         ++ ", falling back to gpt-4.1");;
                    mret "gpt-4.1"
                  else mret selectedModel);
               aiMessageId ← runMutation (storeAiMessage
                 (mkStoreAiMessageArgs conv EmptyString (Some typing)
                    None None None None));
               let userTimezone := JS.or_else (timezone lastMessage) "UTC" in
               match toLocaleString p userTimezone with
               | None => throw "Invalid time zone specified"
               | Some time_format =>
                   let request :=
                     mkRequest selectedModel inputText
                       (match lastResponseId conversation with
                        | Some r => if JS.truthy r then Some r else None
                        | None => None
                        end)
                       (selectedModel, time_format)
                       (nonEmpty tools) in
                   driveTurn p request conv aiMessageId
               end
         end
     end)
    (λ _,
       console_write console_error "Error in generateAiResponse:";;
       runMutation (storeAiMessage
         (mkStoreAiMessageArgs conv
            "Sorry, I encountered an error while preparing the response."
            (Some error) None None None None));;
       mret tt).

(** ** [uploadFileAndSendMessage] *)

Record Blob := mkBlob { blob_size : Z }.

(** What lies outside the program during one upload: the caller's
    identity, the blob store, and the provider's file and vector-store
    calls, each of which may reject. [files_create] stands for
    [OpenAI.toFile] followed by [openai.files.create]. *)
Record Cloud := mkCloud {
  authUserId : option nat;
  storage_get : nat → option Blob;
  vectorStores_create : string → Outcome string;
  files_create : nat → string → Outcome string;
  vectorStores_files_create : string → string → Outcome unit;
}.

Record ConvexFile := mkConvexFile {
  cf_storageId : nat;
  cf_fileName : string;
}.

Record uploadArgs := mkUploadArgs {
  ua_conversationId : nat;
  ua_content : string;
  ua_uploadedConvexFiles : list ConvexFile;
  ua_webSearchEnabled : option bool;
  ua_model : option string;
  ua_thinkingIntensity : option ThinkingIntensity;
  ua_timezone : option string;
}.

Record uploadResult := mkUploadResult {
  success : bool;
  errors : list string;
}.

(** The local variables of the handler. [vectorStoreIdOf] is the local
    [vectorStoreId]; [conversationVectorStoreId] is the property of the
    local [conversation] object. *)
Record Upload := mkUpload {
  errorsOf : list string;
  vectorStoreIdOf : option string;
  conversationVectorStoreId : option string;
  uploadedOpenAIFileIds : list string;
  originalFileNames : list string;
  vectorStoreFileIdsOf : list string;
  uploadedFilesMapping : list UploadedFile;
}.

Definition pushError (e : string) (u : Upload) : Upload :=
  mkUpload (errorsOf u ++ [e]) (vectorStoreIdOf u)
    (conversationVectorStoreId u) (uploadedOpenAIFileIds u)
    (originalFileNames u) (vectorStoreFileIdsOf u) (uploadedFilesMapping u).

Definition truthyOpt (s : option string) : bool :=
  match s with Some s => JS.truthy s | None => false end.

Definition vectorStoreCreationError : string :=
  "Failed to create vector store for file search".

Definition ensureVectorStore (c : Cloud) (conv : nat)
    (conversation : Conversation) (files : list ConvexFile) : M Upload :=
  let u := mkUpload [] (vectorStoreId conversation)
             (vectorStoreId conversation) [] [] [] [] in
  if (negb (truthyOpt (vectorStoreId conversation))
      && (0 <? Z.of_nat (length files)))%bool then
    match vectorStores_create c ("conversation_" ++ JS.showNat conv) with
    | Threw _ =>
        console_write console_error "Failed to create vector store:";;
        mret (pushError vectorStoreCreationError u)
    | Returned vs =>
        let u := mkUpload [] (Some vs) (vectorStoreId conversation)
                   [] [] [] [] in
        try_catch
          (runMutation (updateConversationVectorStore conv vs);;
           console_write console_log
             ("Created vector store " ++ vs ++ " for conversation "
                ++ JS.showNat conv);;
           mret (mkUpload [] (Some vs) (Some vs) [] [] [] []))
          (λ _,
             console_write console_error "Failed to create vector store:";;
             mret (pushError vectorStoreCreationError u))
    end
  else mret u.

Definition unsupportedTypeError (f : ConvexFile) : string :=
  "File " ++ cf_fileName f ++ " has unsupported type: "
    ++ default "undefined" (extensionOf (cf_fileName f)) ++ ". Skipping.".

Definition notFoundError (f : ConvexFile) : string :=
  "File with Convex storage ID " ++ JS.showNat (cf_storageId f)
    ++ " not found. Skipping.".

Definition tooLargeError (f : ConvexFile) (fileSize : Z) : string :=
  "File " ++ cf_fileName f ++ " is too large: " ++ JS.showZ fileSize
    ++ " bytes (max: " ++ JS.showZ MAX_FILE_SIZE ++ " bytes). Skipping.".

Definition uploadFailedError (f : ConvexFile) (e : string) : string :=
  "Failed to upload file " ++ cf_fileName f ++ " to OpenAI: " ++ e.

Definition notIndexedError (f : ConvexFile) : string :=
  "Failed to add file " ++ cf_fileName f ++ " to search index".

Definition notSearchableError (f : ConvexFile) : string :=
  "File " ++ cf_fileName f
    ++ " uploaded but not searchable due to vector store creation failure".

(** The part of the loop body after [openai.files.create] has answered
    with [openAIFileId]. *)
Definition afterUpload (c : Cloud) (files : list ConvexFile) (u : Upload)
    (uploadedFile : ConvexFile) (fileSize : Z) (openAIFileId : string)
    : M Upload :=
  let u := mkUpload (errorsOf u) (vectorStoreIdOf u)
             (conversationVectorStoreId u)
             (uploadedOpenAIFileIds u ++ [openAIFileId])
             (originalFileNames u ++ [cf_fileName uploadedFile])
             (vectorStoreFileIdsOf u) (uploadedFilesMapping u) in
  console_write console_log
    ("Uploaded file " ++ cf_fileName uploadedFile
       ++ " to OpenAI with ID: " ++ openAIFileId);;
  u ← (if truthyOpt (vectorStoreIdOf u) then
         let vs := default EmptyString (vectorStoreIdOf u) in
         match vectorStores_files_create c vs openAIFileId with
         | Returned _ =>
             console_write console_log
               ("Added file " ++ openAIFileId ++ " to vector store " ++ vs);;
             mret (mkUpload (errorsOf u) (vectorStoreIdOf u)
                     (conversationVectorStoreId u) (uploadedOpenAIFileIds u)
                     (originalFileNames u)
                     (vectorStoreFileIdsOf u ++ [openAIFileId])
                     (uploadedFilesMapping u))
         | Threw _ =>
             console_write console_error
               ("Failed to add file " ++ openAIFileId ++ " to vector store:");;
             mret (pushError (notIndexedError uploadedFile) u)
         end
       else if ((0 <? Z.of_nat (length files))
                && negb (truthyOpt (conversationVectorStoreId u)))%bool then
         mret (pushError (notSearchableError uploadedFile) u)
       else mret u);
  mret (mkUpload (errorsOf u) (vectorStoreIdOf u)
          (conversationVectorStoreId u) (uploadedOpenAIFileIds u)
          (originalFileNames u) (vectorStoreFileIdsOf u)
          (uploadedFilesMapping u
             ++ [mkUploadedFile (cf_fileName uploadedFile)
                   (cf_storageId uploadedFile)
                   (getMimeType (cf_fileName uploadedFile)
                      (extensionOf (cf_fileName uploadedFile)))
                   fileSize])).

(** The body of [for (const uploadedFile of args.uploadedConvexFiles)]. *)
Definition processFile (c : Cloud) (files : list ConvexFile) (u : Upload)
    (uploadedFile : ConvexFile) : M Upload :=
  if negb (isSupportedFileExtension (extensionOf (cf_fileName uploadedFile)))
  then
    console_write console_warn (unsupportedTypeError uploadedFile);;
    mret (pushError (unsupportedTypeError uploadedFile) u)
  else
    match storage_get c (cf_storageId uploadedFile) with
    | None =>
        console_write console_warn (notFoundError uploadedFile);;
        mret (pushError (notFoundError uploadedFile) u)
    | Some fileContent =>
        let fileSize := blob_size fileContent in
        if fileSize >? MAX_FILE_SIZE then
          console_write console_warn (tooLargeError uploadedFile fileSize);;
          mret (pushError (tooLargeError uploadedFile fileSize) u)
        else
          match files_create c (cf_storageId uploadedFile)
                  (cf_fileName uploadedFile) with
          | Returned openAIFileId =>
              afterUpload c files u uploadedFile fileSize openAIFileId
          | Threw e =>
              console_write console_error (uploadFailedError uploadedFile e);;
              mret (pushError (uploadFailedError uploadedFile e) u)
          end
    end.

Fixpoint processFiles (c : Cloud) (files : list ConvexFile) (u : Upload)
    (rest : list ConvexFile) : M Upload :=
  match rest with
  | [] => mret u
  | uploadedFile :: rest =>
      u ← processFile c files u uploadedFile;
      processFiles c files u rest
  end.

(** [uploadedOpenAIFileIds.map((fileId, index) => ...)]: the three arrays
    are pushed to together, so reading them by one index pairs them up. *)
Fixpoint fileMappingsOf (ids names : list string) (files : list UploadedFile)
    : list fileMappingItem :=
  match ids, names, files with
  | fileId :: ids, fileName :: names, f :: files =>
      mkFileMappingItem fileId fileName (uf_storageId f)
        (Some (uf_fileType f)) (Some (uf_fileSize f))
      :: fileMappingsOf ids names files
  | _, _, _ => []
  end.

Definition uploadFileAndSendMessage (c : Cloud) (args : uploadArgs)
    : M uploadResult :=
  let files := ua_uploadedConvexFiles args in
  let conv := ua_conversationId args in
  '(uid, _) ← getLoggedInUser (authUserId c);
  (match ua_model args with
   | Some m =>
       if JS.truthy m then
         if negb (isSupportedModel m) then throw ("Unsupported model: " ++ m)
         else if (bool_decide (is_Some (ua_thinkingIntensity args))
                  && negb (isThinkingModel m))%bool then
           throw "Thinking intensity can only be set for thinking models"
         else mret tt
       else mret tt
   | None => mret tt
   end);;
  conversation ← getConversation conv (Some uid);
  match conversation with
  | None => throw "Conversation not found or access denied"
  | Some conversation =>
      if bool_decide (userId conversation ≠ uid) then
        throw "Access denied: conversation does not belong to user"
      else if Z.of_nat (length files) >? MAX_FILES then
        throw ("Too many files uploaded. Maximum allowed: "
                 ++ JS.showZ MAX_FILES ++ ", received: "
                 ++ JS.showNat (length files))
      else
        u ← ensureVectorStore c conv conversation files;
        u ← processFiles c files u files;
        (if (Nat.eqb (length (uploadedOpenAIFileIds u)) 0
             && (0 <? Z.of_nat (length files)))%bool then
           if Nat.eqb (length (errorsOf u)) (length files) then
             throw "Failed to process any of the uploaded files for OpenAI. All files encountered errors."
           else
             console_write console_warn
               "Some files failed to upload, continuing without files"
         else mret tt);;
        existingFirstMessage ← getFirstMessage conv;
        let isFirstMessage :=
          match existingFirstMessage with None => true | Some _ => false end in
        messageId ← runMutation (storeUserMessageWithVectorStore
          (mkStoreUserMessageArgs conv (ua_content args)
             (Some (uploadedOpenAIFileIds u)) (Some (originalFileNames u))
             (Some (uploadedFilesMapping u)) (Some (vectorStoreFileIdsOf u))
             (ua_timezone args) (ua_webSearchEnabled args) (ua_model args)
             (ua_thinkingIntensity args)));
        (if (0 <? Z.of_nat (length (uploadedOpenAIFileIds u))) then
           runMutation (createUserFileMappings uid (Some conv)
             (Some messageId)
             (fileMappingsOf (uploadedOpenAIFileIds u) (originalFileNames u)
                (uploadedFilesMapping u)))
         else mret tt);;
        runAfter 0 (generateAiResponseJob conv);;
        (if (isFirstMessage
             && negb (String.eqb (JS.trim (ua_content args)) EmptyString))%bool
         then runAfter 5000 (generateConversationTitleJob conv)
         else mret tt);;
        mret (mkUploadResult true (errorsOf u))
  end.

(** ** [convex/constants.ts]: the other helpers *)

Definition WEB_SEARCH_MODELS : list string :=
  model_name <$> filter (λ m, webSearch m = true) SUPPORTED_MODELS.

Definition isWebSearchModel (m : string) : bool :=
  JS.includes WEB_SEARCH_MODELS m.

Definition SUPPORTED_MIME_TYPES : list string :=
  [ "text/plain";
    "application/pdf";
    "application/vnd.openxmlformats-officedocument.wordprocessingml.document" ].

Definition isSupportedFileType (mimeType : string) : bool :=
  JS.includes SUPPORTED_MIME_TYPES mimeType.

(** ** [convex/chatQueriesAndMutations.ts]: the public queries and
    mutations *)

(** [a.updatedTime ?? a._creationTime]. The system field [_creationTime]
    is not a property of the stored record; the handler reads it through
    [creationTime], from the document id. *)
Definition activityTime (creationTime : nat → Z) (a : nat * Conversation) : Z :=
  default (creationTime a.1) (updatedTime a.2).

Definition listConversations (creationTime : nat → Z) (auth : option nat)
    : M (list (nat * Conversation)) :=
  '(uid, _) ← getLoggedInUser auth;
  conversations ← gets (db.conversationsOf uid);
  mret (JS.sort (λ a b, let timeA := activityTime creationTime a in
                        let timeB := activityTime creationTime b in
                        timeB - timeA)
          conversations).

Definition listMessages (auth : option nat) (conv : nat)
    : M (list (nat * Message)) :=
  '(uid, _) ← getLoggedInUser auth;
  conversation ← db.get_conversation conv;
  if bool_decide (userId <$> conversation ≠ Some uid) then
    console_write console_error
      "Someone is trying to access a conversation they don't own";;
    throw "Not found"
  else gets (db.messagesOf conv).

(** [.order("desc").take(20)] *)
Definition getRecentMessages (conv uid : nat) : M (list (nat * Message)) :=
  conversation ← db.get_conversation conv;
  if bool_decide (userId <$> conversation ≠ Some uid) then
    console_write console_error
      "Someone is trying to access a conversation they don't own";;
    throw "Not found"
  else gets (λ w, take 20 (reverse (db.messagesOf conv w))).

Definition createConversation (auth : option nat) : M nat :=
  '(uid, _) ← getLoggedInUser auth;
  db.insert_conversation (mkConversation uid "New Chat" None None None).

(** The arguments of [sendMessage]. The two API keys are handed on to the
    scheduled jobs as they are; a [Job] records the conversation only. *)
Record sendMessageArgs := mkSendMessageArgs {
  sm_conversationId : nat;
  sm_content : string;
  sm_webSearchEnabled : option bool;
  sm_model : option string;
  sm_thinkingIntensity : option ThinkingIntensity;
  sm_timezone : option string;
  sm_openaiApiKey : option string;
  sm_openrouterApiKey : option string;
}.

Definition sendMessage (auth : option nat) (args : sendMessageArgs)
    : M unit :=
  let conv := sm_conversationId args in
  '(uid, _) ← getLoggedInUser auth;
  conversation ← getConversation conv (Some uid);
  if bool_decide (userId <$> conversation ≠ Some uid) then
    throw "Conversation not found or access denied"
  else
    (match sm_model args with
     | Some m =>
         if JS.truthy m then
           if negb (isSupportedModel m) then
             throw ("Unsupported model: " ++ m)
           else if (bool_decide (is_Some (sm_thinkingIntensity args))
                    && negb (isThinkingModel m))%bool then
             throw "Thinking intensity can only be set for thinking models"
           else mret tt
         else mret tt
     | None => mret tt
     end);;
    firstMessage ← getFirstMessage conv;
    let isFirstMessage :=
      match firstMessage with None => true | Some _ => false end in
    runMutation (storeUserMessage
      (mkStoreUserMessageArgs conv (sm_content args) None None None None
         (sm_timezone args) (sm_webSearchEnabled args) (sm_model args)
         (sm_thinkingIntensity args)));;
    runAfter 0 (generateAiResponseJob conv);;
    (if isFirstMessage : bool
     then runAfter 5000 (generateConversationTitleJob conv)
     else mret tt).

Definition deleteConversation (auth : option nat) (conv : nat) : M unit :=
  '(uid, _) ← getLoggedInUser auth;
  conversation ← db.get_conversation conv;
  if bool_decide (userId <$> conversation ≠ Some uid) then
    throw "Conversation not found or access denied"
  else
    messages ← gets (db.messagesOf conv);
    forEach (λ msg : nat * Message, db.delete_message msg.1) messages;;
    db.delete_conversation conv.

Definition getUserById (uid : nat) : M (option User) := db.get_user uid.

Definition getMessageById (messageId : nat) : M (option Message) :=
  db.get_message messageId.

Definition updateConversationName (conv : nat) (newName : string) : M unit :=
  conversation ← db.get_conversation conv;
  match conversation with
  | None => throw ("Conversation not found with ID: " ++ JS.showNat conv)
  | Some _ =>
      db.patch_conversation conv
        (mkConversationPatch (Some newName) None None None)
  end.

(** The result of [getConversationModelSettings]; [None] is [null]. *)
Record modelSettings := mkModelSettings {
  ms_model : option string;
  ms_thinkingIntensity : option ThinkingIntensity;
  ms_webSearchEnabled : option bool;
}.

Definition getConversationModelSettings (auth : option nat) (conv : nat)
    : M modelSettings :=
  '(uid, _) ← getLoggedInUser auth;
  conversation ← db.get_conversation conv;
  if bool_decide (userId <$> conversation ≠ Some uid) then
    throw "Not found"
  else
    lastUserMessage ← gets (λ w,
      head (reverse (filter (λ kv : nat * Message, author kv.2 = user)
                       (db.messagesOf conv w))));
    let lastUserMessage := snd <$> lastUserMessage in
    mret (mkModelSettings
            (m ← lastUserMessage ≫= model;
             if JS.truthy m then Some m else None)
            (lastUserMessage ≫= thinkingIntensity)
            (b ← lastUserMessage ≫= webSearchEnabled;
             if b : bool then Some true else None)).

(** The object that [findFileByOpenAIId] returns. *)
Record fileInfo := mkFileInfo {
  fi_fileName : string;
  fi_fileType : FileType;
  fi_storageId : option nat;
  fi_uploadedBy : option nat;
  fi_fileMimeType : option string;
  fi_fileSize : option Z;
  fi_firstUsedInConversationId : option nat;
  fi_firstUsedInMessageId : option nat;
}.

Definition findFileByOpenAIId (auth : option nat) (fileId : string)
    : M (option fileInfo) :=
  '(uid, _) ← getLoggedInUser auth;
  fileMapping ← db.unique_fileMessageMapping fileId;
  match fileMapping with
  | None => mret None
  | Some (_, fileMapping) =>
      if bool_decide (fileType fileMapping = user_upload
                      ∧ uploadedBy fileMapping ≠ Some uid)
      then throw "Access denied: file was not uploaded by current user"
      else
        mret (Some (mkFileInfo (fileName fileMapping) (fileType fileMapping)
                      (storageId fileMapping) (uploadedBy fileMapping)
                      (fileMimeType fileMapping) (fileSize fileMapping)
                      (firstUsedInConversationId fileMapping)
                      (firstUsedInMessageId fileMapping)))
  end.

(** [handler: findUserMessageByFileIdImpl] *)
Definition findUserMessageByFileId :
    option nat → nat → string → M (option (nat * string)) :=
  findUserMessageByFileIdImpl.

(** ** [convex/chat.ts]: [generateConversationTitleAction] *)

Definition quote : string := String (ascii_of_nat 34) EmptyString.

(** [promptContent] *)
Definition promptContentOf (firstMessage : Message) : string :=
  "First message: " ++ quote
    ++ JS.or_else (Some (content firstMessage)) EmptyString ++ quote
    ++ match uploadedFileNames firstMessage with
       | Some names =>
           if 0 <? Z.of_nat (length names) then
             newline ++ "Files attached: [" ++ JS.join ", " names ++ "]"
           else EmptyString
       | None => EmptyString
       end.

Definition titlePrompt (promptContent : string) : string :=
  JS.join newline
    [ "Create a concise and descriptive title (under 8 words) for a chat conversation based on the user's *first message* and any attached files. The title should capture the main topic or intent, suitable for display in a chat list. Avoid generic phrases like "
        ++ quote ++ "New chat" ++ quote ++ ".";
      EmptyString;
      "Examples:";
      "User message: " ++ quote ++ "Why is the bible in English?" ++ quote;
      "Title: Bible's Translation to English";
      EmptyString;
      "User message: " ++ quote ++ "Help me fix this merge conflict" ++ quote;
      "Title: Fix Merge Conflict";
      EmptyString;
      "User message: " ++ quote
        ++ "What are the requirements for setting up a business in USA?"
        ++ quote;
      "Title: USA Business Setup Requirements";
      EmptyString;
      "User message: " ++ quote ++ "Hi" ++ quote;
      "Title: Greetings Exchanged";
      EmptyString;
      "User message: " ++ quote ++ "Review this document." ++ quote
        ++ " Files attached: [project_proposal.docx]";
      "Title: Review Project Proposal";
      EmptyString;
      promptContent;
      EmptyString;
      "Title:" ].

(** [create] stands for the call of [openai.responses.create] with the
    model ["gpt-4.1-nano"], the prompt as the one user input and the
    temperature 0.5; it answers with [response.output_text] or rejects. *)
Definition generateConversationTitleAction
    (create : string → Outcome (option string)) (conv : nat) : M unit :=
  try_catch
    (firstMessage ← getFirstMessage conv;
     let noTitle :=
       console_write console_warn
         ("No first message with content or files found for conversation "
            ++ JS.showNat conv ++ ", cannot generate title.") in
     match firstMessage with
     | None => noTitle
     | Some (_, firstMessage) =>
         if (negb (JS.truthy (JS.trim (content firstMessage)))
             && negb (bool_decide
                        (0 < Z.of_nat
                               (length (default []
                                          (uploadedFileNames firstMessage))))))
              %bool
         then noTitle
         else
           match create (titlePrompt (promptContentOf firstMessage)) with
           | Threw e => throw e
           | Returned output_text =>
               let summary := JS.trim <$> output_text in
               match summary with
               | Some summary =>
                   if (JS.truthy summary && (0 <? JS.length summary))%bool
                   then
                     runMutation (updateConversationName conv summary);;
                     console_write console_log
                       ("Generated title for conversation "
                          ++ JS.showNat conv ++ ": " ++ quote ++ summary
                          ++ quote)
                   else
                     console_write console_warn
                       ("Failed to generate summary for conversation "
                          ++ JS.showNat conv
                          ++ ": OpenAI returned no content.")
               | None =>
                   console_write console_warn
                     ("Failed to generate summary for conversation "
                        ++ JS.showNat conv
                        ++ ": OpenAI returned no content.")
               end
           end
     end)
    (λ _,
       console_write console_error
         ("Error generating conversation title for conversation "
            ++ JS.showNat conv ++ ":")).

(** ** [convex/filePreview.ts] *)

(** The blob store as the preview reads it: [getUrl] answers a URL or
    null; [readText] stands for [ctx.storage.get] followed by
    [blob.text()], and answers null when there is no blob. *)
Record Storage := mkStorage {
  getUrl : nat → option string;
  readText : nat → Outcome (option string);
}.

Record FilePreviewResult := mkFilePreviewResult {
  fp_fileName : string;
  fp_fileType : string;
  fp_fileSize : Z;
  fp_downloadUrl : option string;
  fp_content : option string;
}.

Definition getFileForPreview (s : Storage) (auth : option nat)
    (messageId : nat) (fileName : string) : M FilePreviewResult :=
  '(uid, _) ← getLoggedInUser auth;
  message ← getMessageById messageId;
  match message with
  | None => throw "Message not found"
  | Some message =>
      conversation ← getConversation (conversationId message) (Some uid);
      if bool_decide (userId <$> conversation ≠ Some uid) then
        throw "Access denied: conversation does not belong to user"
      else
        match uploadedFiles message
                ≫= List.find (λ file, String.eqb (uf_fileName file) fileName)
        with
        | None => throw "File not found in message"
        | Some uploadedFile =>
            let downloadUrl := getUrl s (uf_storageId uploadedFile) in
            content ←
              (if (String.eqb (uf_fileType uploadedFile) "text/plain"
                   || JS.endsWith (JS.toLowerCase (uf_fileName uploadedFile))
                        ".txt")%bool
               then
                 match readText s (uf_storageId uploadedFile) with
                 | Returned text => mret text
                 | Threw _ =>
                     console_write console_error
                       "Failed to read file content:";;
                     mret None
                 end
               else mret None);
            mret (mkFilePreviewResult (uf_fileName uploadedFile)
                    (uf_fileType uploadedFile) (uf_fileSize uploadedFile)
                    downloadUrl content)
        end
  end.

(** ** [getUserFriendlyErrorMessage] *)

(** A caught value as the helper reads it: [error.error] with its
    [message] and [code], the numeric [error.code], and [error.message].
    A property that is absent, or that is not of the kind the helper
    compares it with, is [None]. *)
Record ErrorBody := mkErrorBody {
  eb_message : option string;
  eb_code : option string;
}.

Record ErrorValue := mkErrorValue {
  ev_error : option ErrorBody;
  ev_code : option Z;
  ev_message : option string;
}.

(** [err] is the caught [error], [None] when it is not an object. Reading
    [error.message.includes] when [error.message] is undefined throws a
    TypeError. *)
Definition getUserFriendlyErrorMessage (err : option ErrorValue)
    : Outcome string :=
  let generic :=
    Returned "An unexpected error occurred. Please try again." in
  match err with
  | None => generic
  | Some err =>
      let genericMessage :=
        match ev_message err with
        | Some m => if JS.truthy m then Returned m else generic
        | None => generic
        end in
      match ev_error err with
      | Some body =>
          match eb_message body with
          | Some message =>
              if JS.truthy message then
                if bool_decide (eb_code body = Some "invalid_api_key") then
                  Returned "Invalid API key. Please check your API key in Settings."
                else if bool_decide (eb_code body = Some "insufficient_quota")
                then
                  Returned "API quota exceeded. Please check your OpenAI account balance."
                else if bool_decide (eb_code body = Some "rate_limit_exceeded")
                then
                  Returned "Rate limit exceeded. Please try again in a moment."
                else if bool_decide (eb_code body = Some "model_not_found")
                then
                  Returned "Selected model is not available. Please try a different model."
                else if bool_decide (ev_code err = Some 401) then
                  match ev_message err with
                  | None =>
                      Threw "Cannot read properties of undefined (reading 'includes')"
                  | Some m =>
                      if JS.String_includes m "No auth credentials" then
                        Returned "Invalid OpenRouter API key. Please check your OpenRouter API key in Settings."
                      else Returned message
                  end
                else Returned message
              else genericMessage
          | None => genericMessage
          end
      | None => genericMessage
      end
  end.

(** ** Vocabulary of the statements *)

(** A message with its content replaced. *)
Definition withContent (c : string) (m : Message) : Message :=
  patchMessage (mkMessagePatch (Some c) None None None None) m.

(** A message with its status replaced. *)
Definition withStatus (s : Status) (m : Message) : Message :=
  patchMessage (mkMessagePatch None (Some s) None None None) m.

(** The deltas of a stream, one after the other. *)
Definition concatAll (deltas : list string) : string :=
  foldr String.append EmptyString deltas.

(** A sequence of [appendMessageContent] calls on one message. *)
Definition appendAll (limit : Z) (messageId : nat) (deltas : list string)
    : M unit :=
  forEach (appendMessageContentWithin limit messageId) deltas.

(** The index holds no entry for a provider file id. *)
Definition noEntry (fid : string) (w : World) : Prop :=
  ∀ k e, fileMessageMappings w !! k = Some e → openaiFileId e ≠ fid.

(** The index holds exactly one entry for a provider file id. *)
Definition theEntry (fid : string) (w : World) (e : FileMessageMapping)
    : Prop :=
  ∃ k, fileMessageMappings w !! k = Some e
       ∧ openaiFileId e = fid
       ∧ ∀ k' e', fileMessageMappings w !! k' = Some e' →
                  openaiFileId e' = fid → k' = k.

(** The entry that [createUserFileMapping] inserts at time [t]. *)
Definition entryOf (args : createUserFileMappingArgs) (t : Z)
    : FileMessageMapping :=
  mkFileMessageMapping (cm_openaiFileId args) (cm_fileName args)
    user_upload (Some (cm_uploadedBy args)) (Some (cm_storageId args))
    (cm_firstUsedInConversationId args) (cm_firstUsedInMessageId args)
    (cm_fileMimeType args) (cm_fileSize args) t.

Definition emptyWorld : World := mkWorld ∅ ∅ ∅ ∅ 0 0 [] [].

(** A world with two users; user 1 owns conversations 10 and 12, user 2
    owns conversation 11. The index holds a file that user 2 uploaded in
    conversation 11, a file of user 2 with no recorded conversation, and
    a file that user 1 uploaded in conversation 12. *)
Definition foreignEntry : FileMessageMapping :=
  mkFileMessageMapping "file-x" "x.pdf" user_upload (Some 2%nat)
    (Some 5%nat) (Some 11%nat) (Some 20%nat) None None 0.

Definition unscopedEntry : FileMessageMapping :=
  mkFileMessageMapping "file-y" "y.pdf" user_upload (Some 2%nat)
    (Some 6%nat) None (Some 21%nat) None None 0.

Definition ownEntry : FileMessageMapping :=
  mkFileMessageMapping "file-own" "own.pdf" user_upload (Some 1%nat)
    (Some 7%nat) (Some 12%nat) (Some 22%nat) None None 0.

Definition scopedWorld : World :=
  mkWorld
    {[ 10%nat := mkConversation 1 "mine" None None None;
       11%nat := mkConversation 2 "theirs" None None None;
       12%nat := mkConversation 1 "mine too" None None None ]}
    ∅
    {[ 30%nat := foreignEntry; 31%nat := unscopedEntry;
       32%nat := ownEntry ]}
    {[ 1%nat := mkUser None None; 2%nat := mkUser None None ]}
    40 0 [] [].

(** The dedup key of a citation: its type and its file id or url. *)
Inductive Key :=
| FileKey (fileId : string)
| UrlKey (url : string).

#[global] Instance Key_eq_dec : EqDecision Key.
Proof. solve_decision. Defined.

Definition keyOf (c : Citation) : Key :=
  match c with
  | CiteFile fileId _ => FileKey fileId
  | CiteUrl url _ => UrlKey url
  end.

(** The citation an annotation event stands for, with the defaults for a
    missing file name or title; other annotations stand for none. *)
Definition citationOf (a : Annotation) : option Citation :=
  match a with
  | file_citation fileId filename =>
      Some (CiteFile fileId (JS.or_else filename "unknown"))
  | url_citation url title =>
      Some (CiteUrl url (JS.or_else title "Web Result"))
  | other_annotation => None
  end.

(** The spec's accumulator: walk the citations in order and keep one
    exactly when its key has not been seen before. *)
Fixpoint firstSeen (seen : list Key) (cs : list Citation) : list Citation :=
  match cs with
  | [] => []
  | c :: rest =>
      if decide (keyOf c ∈ seen) then firstSeen seen rest
      else c :: firstSeen (keyOf c :: seen) rest
  end.

(** The annotation events of a stream in the order the loop meets them:
    those of every [response.output_text.done] up to the first
    [response.completed], then those of that event. *)
Fixpoint annotationsSeen (events : list StreamEvent) : list Annotation :=
  match events with
  | [] => []
  | response_output_text_done annotations :: rest =>
      (default [] annotations ++ annotationsSeen rest)%list
  | response_completed output :: _ => completedAnnotations output
  | _ :: rest => annotationsSeen rest
  end.

(** The content deltas of a stream up to the first [response.completed]. *)
Fixpoint accumulated (events : list StreamEvent) : string :=
  match events with
  | [] => EmptyString
  | response_output_text_delta delta :: rest => delta ++ accumulated rest
  | response_completed _ :: _ => EmptyString
  | _ :: rest => accumulated rest
  end.

(** What one event does to the local variables of the loop, and whether
    the loop stops after it. *)
Definition stepLocals (t : Turn) (event : StreamEvent) : Turn * bool :=
  match event with
  | response_created id =>
      (mkTurn (fullContent t) id (reasoningSummaryOf t) (citationsOf t),
       false)
  | response_output_text_delta delta =>
      (mkTurn (fullContent t ++ delta) (openaiResponseIdOf t)
         (reasoningSummaryOf t) (citationsOf t), false)
  | response_reasoning_summary_text_delta delta =>
      (mkTurn (fullContent t) (openaiResponseIdOf t)
         (reasoningSummaryOf t ++ delta) (citationsOf t), false)
  | response_reasoning_summary_text_done text =>
      (mkTurn (fullContent t) (openaiResponseIdOf t)
         (reasoningSummaryOf t ++ text) (citationsOf t), false)
  | response_output_text_done annotations =>
      (mkTurn (fullContent t) (openaiResponseIdOf t) (reasoningSummaryOf t)
         (addAnnotations (citationsOf t) (default [] annotations)), false)
  | response_completed output =>
      (mkTurn (fullContent t) (openaiResponseIdOf t) (reasoningSummaryOf t)
         (addAnnotations (citationsOf t) (completedAnnotations output)),
       true)
  | response_other => (t, false)
  end.

Fixpoint locals (t : Turn) (events : list StreamEvent) : Turn * bool :=
  match events with
  | [] => (t, false)
  | event :: rest =>
      let '(t', stop) := stepLocals t event in
      if stop : bool then (t', true) else locals t' rest
  end.

(** The message [mid], when it is there in [w], is still there in [w'],
    by the same author and in the same conversation. *)
Definition kept (mid : nat) (w w' : World) : Prop :=
  ∀ m, messages w !! mid = Some m →
       ∃ m', messages w' !! mid = Some m'
             ∧ author m' = author m
             ∧ conversationId m' = conversationId m.

(** A handler that always returns and keeps the message [mid]. *)
Definition returnsKeeping (mid : nat) {A} (h : M A) : Prop :=
  ∀ w, ∃ a w', h w = (Returned a, w') ∧ kept mid w w'.

(** The same, for a handler whose value is known. *)
Definition yieldsKeeping (mid : nat) {A} (h : M A) (a : A) : Prop :=
  ∀ w, ∃ w', h w = (Returned a, w') ∧ kept mid w w'.

(** The placeholder that [generateAiResponse] creates for its answer. *)
Definition placeholder (conv : nat) : Message :=
  mkMessage conv assistant EmptyString (Some typing) None None None None
    None None None None None None None None.


(** A conversation whose last turn left the continuation token
    ["resp_1"], with one user message waiting for its answer. *)
Definition askingMessage : Message :=
  mkMessage 10 user "hi" None None None None None None None None None None
    None None None.

Definition askingWorld : World :=
  mkWorld
    {[ 10%nat := mkConversation 1 "chat" (Some "resp_1") None (Some 100) ]}
    {[ 0%nat := askingMessage ]}
    ∅ {[ 1%nat := mkUser None None ]} 1 200 [] [].

(** A provider whose stream is created, yields no content delta, and
    completes cleanly. *)
Definition silentProvider : Provider :=
  mkProvider
    (λ _, Streams [response_created "resp_2"; response_completed None] None)
    (λ _, Some "1/1/2026, 12:00:00 AM UTC").

(** What becomes of one file of an upload: the id the provider gives it,
    or the error string of the check or call that failed (unsupported
    extension, missing blob, oversize, provider upload error). *)
Definition uploadOf (c : Cloud) (f : ConvexFile) : Outcome string :=
  if negb (isSupportedFileExtension (extensionOf (cf_fileName f))) then
    Threw (unsupportedTypeError f)
  else
    match storage_get c (cf_storageId f) with
    | None => Threw (notFoundError f)
    | Some blob =>
        if blob_size blob >? MAX_FILE_SIZE then
          Threw (tooLargeError f (blob_size blob))
        else
          match files_create c (cf_storageId f) (cf_fileName f) with
          | Returned id => Returned id
          | Threw e => Threw (uploadFailedError f e)
          end
    end.

Definition fileFails (c : Cloud) (f : ConvexFile) : Prop :=
  ∃ e, uploadOf c f = Threw e.

Definition fileSucceeds (c : Cloud) (f : ConvexFile) : Prop :=
  ∃ id, uploadOf c f = Returned id.

(** The vector store the loop works with and the error recorded while
    getting it, for a conversation that exists. *)
Definition vectorStoreFor (c : Cloud) (conv : nat)
    (conversation : Conversation) (files : list ConvexFile)
    : option string * list string :=
  if (negb (truthyOpt (vectorStoreId conversation))
      && (0 <? Z.of_nat (length files)))%bool then
    match vectorStores_create c ("conversation_" ++ JS.showNat conv) with
    | Threw _ => (vectorStoreId conversation, [vectorStoreCreationError])
    | Returned vs => (Some vs, [])
    end
  else (vectorStoreId conversation, []).

(** What an uploaded file adds to [errors] when it cannot be indexed. *)
Definition indexNotes (c : Cloud) (vs : option string)
    (files : list ConvexFile) (f : ConvexFile) (id : string) : list string :=
  if truthyOpt vs then
    match vectorStores_files_create c (default EmptyString vs) id with
    | Returned _ => []
    | Threw _ => [notIndexedError f]
    end
  else if 0 <? Z.of_nat (length files) then [notSearchableError f]
  else [].

(** What one file adds to [errors]. *)
Definition errorsFor (c : Cloud) (vs : option string)
    (files : list ConvexFile) (f : ConvexFile) : list string :=
  match uploadOf c f with
  | Threw e => [e]
  | Returned id => indexNotes c vs files f id
  end.

(** The provider ids of the files that upload, in file order. *)
Definition uploadedIds (c : Cloud) (files : list ConvexFile) : list string :=
  omap (λ f, match uploadOf c f with
             | Returned id => Some id
             | Threw _ => None
             end) files.

(** The locals after the part of the loop body that follows an upload. *)
Definition localsAfterUpload (c : Cloud) (files : list ConvexFile)
    (u : Upload) (f : ConvexFile) (fileSize : Z) (id : string) : Upload :=
  let u := mkUpload (errorsOf u) (vectorStoreIdOf u)
             (conversationVectorStoreId u)
             (uploadedOpenAIFileIds u ++ [id])
             (originalFileNames u ++ [cf_fileName f])
             (vectorStoreFileIdsOf u) (uploadedFilesMapping u) in
  let u :=
    if truthyOpt (vectorStoreIdOf u) then
      match vectorStores_files_create c
              (default EmptyString (vectorStoreIdOf u)) id with
      | Returned _ =>
          mkUpload (errorsOf u) (vectorStoreIdOf u)
            (conversationVectorStoreId u) (uploadedOpenAIFileIds u)
            (originalFileNames u) (vectorStoreFileIdsOf u ++ [id])
            (uploadedFilesMapping u)
      | Threw _ => pushError (notIndexedError f) u
      end
    else if ((0 <? Z.of_nat (length files))
             && negb (truthyOpt (conversationVectorStoreId u)))%bool then
      pushError (notSearchableError f) u
    else u in
  mkUpload (errorsOf u) (vectorStoreIdOf u) (conversationVectorStoreId u)
    (uploadedOpenAIFileIds u) (originalFileNames u) (vectorStoreFileIdsOf u)
    (uploadedFilesMapping u
       ++ [mkUploadedFile (cf_fileName f) (cf_storageId f)
             (getMimeType (cf_fileName f) (extensionOf (cf_fileName f)))
             fileSize]).

(** The locals after one iteration of the loop over the files. *)
Definition localsAfterFile (c : Cloud) (files : list ConvexFile)
    (u : Upload) (f : ConvexFile) : Upload :=
  if negb (isSupportedFileExtension (extensionOf (cf_fileName f))) then
    pushError (unsupportedTypeError f) u
  else
    match storage_get c (cf_storageId f) with
    | None => pushError (notFoundError f) u
    | Some blob =>
        if blob_size blob >? MAX_FILE_SIZE then
          pushError (tooLargeError f (blob_size blob)) u
        else
          match files_create c (cf_storageId f) (cf_fileName f) with
          | Returned id => localsAfterUpload c files u f (blob_size blob) id
          | Threw e => pushError (uploadFailedError f e) u
          end
    end.

(** The index can answer: no provider file id has two entries. *)
Definition indexOk (w : World) : Prop :=
  ∀ fid, ∃ r, db.unique_fileMessageMapping fid w = (Returned r, w).

(** A handler that returns [a] and touches nothing but the console. *)
Definition onlyLogs {A} (h : M A) (a : A) : Prop :=
  ∀ w, ∃ l, h w = (Returned a, set_console (console w ++ l) w).

(** The model checks at the head of [uploadFileAndSendMessage] pass. *)
Definition validModel (args : uploadArgs) : bool :=
  match ua_model args with
  | Some m =>
      if JS.truthy m then
        (isSupportedModel m
         && negb (bool_decide (is_Some (ua_thinkingIntensity args))
                  && negb (isThinkingModel m)))%bool
      else true
  | None => true
  end.

(** The preconditions of an upload: the caller is a known user who owns
    the conversation, the model checks pass, there is at least one file
    and at most [MAX_FILES], and the index is answerable. *)
Definition uploadReady (c : Cloud) (args : uploadArgs) (uid : nat)
    (conversation : Conversation) (w : World) : Prop :=
  authUserId c = Some uid
  ∧ is_Some (users w !! uid)
  ∧ validModel args = true
  ∧ conversations w !! ua_conversationId args = Some conversation
  ∧ userId conversation = uid
  ∧ ua_uploadedConvexFiles args ≠ []
  ∧ Z.of_nat (length (ua_uploadedConvexFiles args)) ≤ MAX_FILES
  ∧ indexOk w.

(** User 1 owns conversation 10, which has no vector store yet; nothing
    is indexed. *)
Definition uploadWorld : World :=
  mkWorld {[ 10%nat := mkConversation 1 "chat" None None None ]} ∅ ∅
    {[ 1%nat := mkUser None None ]} 20 300 [] [].

(** A provider that stores every file but cannot create a vector store. *)
Definition noVectorStoreCloud : Cloud :=
  mkCloud (Some 1%nat) (λ _, Some (mkBlob 100))
    (λ _, Threw "service unavailable")
    (λ _ _, Returned "file-1")
    (λ _ _, Returned tt).

(** A provider that stores every file and indexes it. *)
Definition healthyCloud : Cloud :=
  mkCloud (Some 1%nat) (λ _, Some (mkBlob 100))
    (λ _, Returned "vs_1")
    (λ _ name, Returned ("file-" ++ name))
    (λ _ _, Returned tt).

Definition oneGoodFile : uploadArgs :=
  mkUploadArgs 10 "see attached" [mkConvexFile 5 "a.pdf"] None None None
    None.

Definition oneGoodFileBadModel : uploadArgs :=
  mkUploadArgs 10 "see attached" [mkConvexFile 5 "a.pdf"] None
    (Some "gpt-5") None None.

Definition oneGoodOneBadFile : uploadArgs :=
  mkUploadArgs 10 "see attached"
    [mkConvexFile 5 "a.pdf"; mkConvexFile 6 "b.exe"] None None None None.

(** A world holding one empty assistant message, with id 7. *)
Definition emptyAssistantMessage : Message :=
  mkMessage 0 assistant EmptyString (Some typing) None None None None None
    None None None None None None None.

Definition oneMessageWorld : World :=
  mkWorld ∅ {[ 7%nat := emptyAssistantMessage ]} ∅ ∅ 8 0 [] [].

(** Unfolding of the monad operations. *)
Ltac unfold_monad :=
  unfold mbind, M_bind, mret, M_ret, gets, modify, throw, try_catch,
    console_write, Date_now, runAfter in *.

(** Every conversation has the continuation token it had. *)
Definition sameTokens (w w' : World) : Prop :=
  ∀ k, lastResponseId <$> conversations w' !! k
       = lastResponseId <$> conversations w !! k.

(** A handler that leaves every continuation token as it was, whether it
    returns or throws. *)
Definition keepsTokens {A} (h : M A) : Prop := ∀ w, sameTokens w (h w).2.

(** The stream carries no [response.completed] event. *)
Definition noCompleted (events : list StreamEvent) : Prop :=
  ∀ output, response_completed output ∉ events.

(** A provider whose answer carries content and the spec's four
    annotation events: two mid-stream, two with the completed event. *)
Definition citingProvider : Provider :=
  mkProvider
    (λ _, Streams
       [ response_created "resp_2";
         response_output_text_delta "See the file.";
         response_output_text_done
           (Some [ file_citation "f1" (Some "a.pdf");
                   file_citation "f1" (Some "a.pdf") ]);
         response_completed
           (Some [ mkResponseOutput "message"
                     (Some [ mkOutputTextContent "output_text"
                               (Some [ url_citation "u1" (Some "t1");
                                       file_citation "f1"
                                         (Some "renamed.pdf") ]) ]) ]) ]
       None)
    (λ _, Some "1/1/2026, 12:00:00 AM UTC").

(** The model checks of [sendMessage] pass. *)
Definition sendValid (args : sendMessageArgs) : bool :=
  match sm_model args with
  | Some m =>
      if JS.truthy m then
        (isSupportedModel m
         && negb (bool_decide (is_Some (sm_thinkingIntensity args))
                  && negb (isThinkingModel m)))%bool
      else true
  | None => true
  end.

(** The message that [sendMessage] stores. *)
Definition sentMessage (args : sendMessageArgs) : Message :=
  mkMessage (sm_conversationId args) user (sm_content args) None None None
    None None None (sm_webSearchEnabled args) (sm_model args)
    (sm_thinkingIntensity args) None None (sm_timezone args) None.

(** A conversation with its activity time set. *)
Definition touched (t : Z) (c : Conversation) : Conversation :=
  patchConversation (mkConversationPatch None None None (Some t)) c.

(** The conversation has a message. *)
Definition hasMessages (conv : nat) (w : World) : Prop :=
  ∃ k m, messages w !! k = Some m ∧ conversationId m = conv.

(** Every message was stored before the id counter reached its value. *)
Definition messagesBelowNext (w : World) : Prop :=
  ∀ k, is_Some (messages w !! k) → (k < nextId w)%nat.

(** What [getConversationModelSettings] reads back from a message. *)
Definition settingsOf (m : Message) : modelSettings :=
  mkModelSettings
    (match model m with
     | Some s => if JS.truthy s then Some s else None
     | None => None
     end)
    (thinkingIntensity m)
    (match webSearchEnabled m with
     | Some true => Some true
     | _ => None
     end).

(** The object that [findFileByOpenAIId] returns for an entry. *)
Definition infoOf (e : FileMessageMapping) : fileInfo :=
  mkFileInfo (fileName e) (fileType e) (storageId e) (uploadedBy e)
    (fileMimeType e) (fileSize e) (firstUsedInConversationId e)
    (firstUsedInMessageId e).

(** A conversation with its name replaced. *)
Definition renamed (n : string) (c : Conversation) : Conversation :=
  patchConversation (mkConversationPatch (Some n) None None None) c.

(** The first message gives the title job something to work on:
    content that is not blank, or the name of an attached file. *)
Definition titleable (m : Message) : bool :=
  (JS.truthy (JS.trim (content m))
   || bool_decide (0 < Z.of_nat (length (default [] (uploadedFileNames m)))))
  %bool.

(** The preview reads the file as text: its recorded type is
    ["text/plain"], or its name ends in [.txt], in any case of letters. *)
Definition isTextFile (f : UploadedFile) : bool :=
  (String.eqb (uf_fileType f) "text/plain"
   || JS.endsWith (JS.toLowerCase (uf_fileName f)) ".txt")%bool.

(** The first file of a message with a given name. *)
Definition fileNamed (fileName : string) (m : Message)
    : option UploadedFile :=
  uploadedFiles m
    ≫= List.find (λ file, String.eqb (uf_fileName file) fileName).

(** The message that [generateAiResponse] stores when preparing the turn
    fails. *)
Definition preparationError (conv : nat) : Message :=
  mkMessage conv assistant
    "Sorry, I encountered an error while preparing the response."
    (Some error) None None None None None None None None None None None None.

(** The response id that the loop holds when it ends: that of the last
    [response.created] event before the first [response.completed]. *)
Fixpoint responseIdFrom (id : string) (events : list StreamEvent) : string :=
  match events with
  | [] => id
  | response_created i :: rest => responseIdFrom i rest
  | response_completed _ :: _ => id
  | _ :: rest => responseIdFrom id rest
  end.

(** The reasoning summary that the loop holds when it ends: the texts of
    the summary deltas and of the summary [done] events, in the order of
    arrival, up to the first [response.completed]. *)
Fixpoint reasoned (events : list StreamEvent) : string :=
  match events with
  | [] => EmptyString
  | response_reasoning_summary_text_delta delta :: rest =>
      delta ++ reasoned rest
  | response_reasoning_summary_text_done text :: rest =>
      text ++ reasoned rest
  | response_completed _ :: _ => EmptyString
  | _ :: rest => reasoned rest
  end.

(** The stream carries a [response.completed] event. *)
Definition completes (events : list StreamEvent) : Prop :=
  ∃ output, response_completed output ∈ events.

(** The state of the assistant message [mid] while its answer streams
    in: it is a placeholder still, with the content received so far, cut
    at the size limit; the conversations are as they were. *)
Definition streaming (mid : nat) (t : Turn)
    (convs : gmap nat Conversation) (w : World) : Prop :=
  conversations w = convs
  ∧ ∃ m, messages w !! mid = Some m
         ∧ author m = assistant
         ∧ status m = Some typing
         ∧ content m = JS.substring (fullContent t) 0 MAX_MESSAGE_SIZE
         ∧ openaiResponseId m = None
         ∧ citations m = None.

(** The state after the handler of [response.completed]. *)
Definition finished (mid conv : nat) (t : Turn) (w : World) : Prop :=
  lastResponseId <$> conversations w !! conv
  = Some (Some (openaiResponseIdOf t))
  ∧ ∃ m, messages w !! mid = Some m
         ∧ author m = assistant
         ∧ status m = Some completed
         ∧ content m = JS.substring (fullContent t) 0 MAX_MESSAGE_SIZE
         ∧ openaiResponseId m = Some (openaiResponseIdOf t)
         ∧ citations m = nonEmpty (citationsOf t)
         ∧ (JS.trim (reasoningSummaryOf t) ≠ EmptyString →
            reasoningSummary m = Some (JS.trim (reasoningSummaryOf t))).

(** The apology that a turn appends when the provider fails. *)
Definition apology : string :=
  "Sorry, I encountered an error while generating a response.".

(** The content that a reply delivers before the turn ends. *)
Definition received (reply : Reply) : string :=
  match reply with
  | Rejects _ => EmptyString
  | Streams events _ => accumulated events
  end.

(** The reply fails: the call rejects, or the stream breaks off before
    any [response.completed]. *)
Definition fails (reply : Reply) : Prop :=
  match reply with
  | Rejects _ => True
  | Streams events failure => is_Some failure ∧ ¬ completes events
  end.

(** The error codes of the provider that the helper has a message for. *)
Definition knownCodes : list string :=
  [ "invalid_api_key"; "insufficient_quota"; "rate_limit_exceeded";
    "model_not_found" ].

(** The caught value on which the helper itself throws: it carries
    [error.error.message], its [error.error.code] is none of the known
    ones, its [error.code] is 401, and it has no [error.message]. *)
Definition unreadable (err : option ErrorValue) : Prop :=
  ∃ e body message,
    err = Some e
    ∧ ev_error e = Some body
    ∧ eb_message body = Some message
    ∧ message ≠ EmptyString
    ∧ (∀ code, eb_code body = Some code → code ∉ knownCodes)
    ∧ ev_code e = Some 401
    ∧ ev_message e = None.

(** The locals of [uploadFileAndSendMessage] after its loop over the
    files, for a conversation that exists. *)
Definition uploadLocals (c : Cloud) (args : uploadArgs)
    (conversation : Conversation) : Upload :=
  let files := ua_uploadedConvexFiles args in
  let store := vectorStoreFor c (ua_conversationId args) conversation files in
  foldl (localsAfterFile c files)
    (mkUpload store.2 store.1 store.1 [] [] [] []) files.

(** The user message that [uploadFileAndSendMessage] stores. *)
Definition uploadedMessage (args : uploadArgs) (u : Upload) : Message :=
  userMessageOf
    (mkStoreUserMessageArgs (ua_conversationId args) (ua_content args)
       (Some (uploadedOpenAIFileIds u)) (Some (originalFileNames u))
       (Some (uploadedFilesMapping u)) (Some (vectorStoreFileIdsOf u))
       (ua_timezone args) (ua_webSearchEnabled args) (ua_model args)
       (ua_thinkingIntensity args)).

(** The jobs that [uploadFileAndSendMessage] schedules. *)
Definition uploadJobs (args : uploadArgs) (w : World) : list (Z * Job) :=
  (0, generateAiResponseJob (ua_conversationId args))
  :: (if (match head (db.messagesOf (ua_conversationId args) w) with
          | None => true
          | Some _ => false
          end
          && negb (String.eqb (JS.trim (ua_content args)) EmptyString))%bool
      then [(5000, generateConversationTitleJob (ua_conversationId args))]
      else []).

(** Every file of the upload failed and [errors] holds one string per
    file: the case in which the handler throws. *)
Definition uploadGivesUp (args : uploadArgs) (u : Upload) : bool :=
  (Nat.eqb (length (uploadedOpenAIFileIds u)) 0
   && (0 <? Z.of_nat (length (ua_uploadedConvexFiles args)))
   && Nat.eqb (length (errorsOf u)) (length (ua_uploadedConvexFiles args)))
  %bool.

(** A file as the message records it is one the upload accepts: its
    type is a supported MIME type and its size is within the limit. *)
Definition acceptable (f : UploadedFile) : Prop :=
  isSupportedFileType (uf_fileType f) = true ∧ uf_fileSize f ≤ MAX_FILE_SIZE.

(** What the loop records for a file that uploads: the provider's id
    and the entry of [uploadedFilesMapping]. *)
Definition recordOf (c : Cloud) (f : ConvexFile)
    : option (string * UploadedFile) :=
  match uploadOf c f, storage_get c (cf_storageId f) with
  | Returned id, Some blob =>
      Some (id,
            mkUploadedFile (cf_fileName f) (cf_storageId f)
              (getMimeType (cf_fileName f) (extensionOf (cf_fileName f)))
              (blob_size blob))
  | _, _ => None
  end.

(** The error thrown for an upload of too many files. *)
Definition tooManyFilesError (n : nat) : string :=
  "Too many files uploaded. Maximum allowed: " ++ JS.showZ MAX_FILES
    ++ ", received: " ++ JS.showNat n.

(** The error thrown when no file of an upload could be processed. *)
Definition noFileProcessedError : string :=
  "Failed to process any of the uploaded files for OpenAI. All files encountered errors.".

(** Every entry of the file index was stored before the id counter
    reached its value. *)
Definition mappingsBelowNext (w : World) : Prop :=
  ∀ k, is_Some (fileMessageMappings w !! k) → (k < nextId w)%nat.

(** The arguments with which [createUserFileMappings] calls
    [createUserFileMapping] for one of its items. *)
Definition mappingArgs (by_ : nat) (conv msg : option nat)
    (item : fileMappingItem) : createUserFileMappingArgs :=
  mkCreateUserFileMappingArgs (fm_openaiFileId item) (fm_fileName item) by_
    (fm_storageId item) (fm_fileMimeType item) (fm_fileSize item) conv msg.

(** The item of [fileMappings] for a file that uploaded. *)
Definition mappingItem (r : string * UploadedFile) : fileMappingItem :=
  mkFileMappingItem r.1 (uf_fileName r.2) (uf_storageId r.2)
    (Some (uf_fileType r.2)) (Some (uf_fileSize r.2)).

(** ** Worlds and providers of the examples *)

(** A provider whose stream breaks off after the first words. *)
Definition brokenProvider : Provider :=
  mkProvider
    (λ _, Streams [ response_created "resp_2";
                    response_output_text_delta "Partial" ]
            (Some "socket hang up"))
    (λ _, Some "1/1/2026, 12:00:00 AM UTC").

(** A runtime that knows no time zone. *)
Definition lostClockProvider : Provider :=
  mkProvider (λ _, Rejects "not reached") (λ _, None).

(** User 1 owns conversation 10, whose one message carries a text file;
    user 2 owns nothing. *)
Definition notes : UploadedFile := mkUploadedFile "notes.txt" 5 "text/plain" 12.

Definition previewMessage : Message :=
  mkMessage 10 user "see notes" None (Some ["file-1"]) (Some ["notes.txt"])
    (Some [notes]) None None None None None None None None None.

Definition previewWorld : World :=
  mkWorld {[ 10%nat := mkConversation 1 "chat" None None None ]}
    {[ 0%nat := previewMessage ]} ∅
    {[ 1%nat := mkUser None None; 2%nat := mkUser None None ]} 1 0 [] [].

Definition readableStorage : Storage :=
  mkStorage (λ _, Some "https://files.example/5")
    (λ _, Returned (Some "hello")).

Definition brokenStorage : Storage :=
  mkStorage (λ _, Some "https://files.example/5")
    (λ _, Threw "blob unavailable").

(** A message sent with a thinking model, web search off. *)
Definition again : sendMessageArgs :=
  mkSendMessageArgs 10 "again" (Some false) (Some "o3") (Some high) None
    None None.

Definition elevenFiles : uploadArgs :=
  mkUploadArgs 10 "many" (replicate 11 (mkConvexFile 5 "a.pdf")) None None
    None None.

Definition oneBadFile : uploadArgs :=
  mkUploadArgs 10 "see attached" [mkConvexFile 6 "b.exe"] None None None
    None.

(** The record of [a.pdf] after its upload to [healthyCloud]. *)
Definition pdfRecord : UploadedFile :=
  mkUploadedFile "a.pdf" 5 "application/pdf" 100.

(** ** A turn amid other transactions

    [generateAiResponse] is an action: each [ctx.runQuery] and
    [ctx.runMutation] it awaits is a transaction of its own, and so are
    the waits for the provider; what other functions commit in between
    is seen by the next call. The points at which the action waits: *)
Inductive Await :=
| at_getConversation
| at_getLastUserMessage
| at_storeAiMessage
| at_create
| at_next (i : nat)
| at_appendMessageContent (i : nat)
| at_updateReasoningSummary (i : nat)
| at_markMessageComplete (i : nat)
| at_updateConversationResponseId (i : nat)
| at_markMessageError
| at_appendApology
| at_markApologyError
| at_storeError.

#[global] Instance Await_eq_dec : EqDecision Await.
Proof. solve_decision. Defined.

(** A call of another client, seen from the action: its transaction is
    committed or rolled back, and its outcome goes to that client. *)
Definition meanwhile {A} (h : M A) : M unit := λ w,
  (Returned tt, (runMutation h w).2).

Section Amid.

(** [env pt] is what the other functions commit while the action waits
    at [pt]; the index of a point in the loop is that of the event. *)
Variable env : Await → M unit.

Definition onEventAmid (i : nat) (conv aiMessageId : nat) (t : Turn)
    (event : StreamEvent) : M (Turn * bool) :=
  match event with
  | response_created id =>
      mret (mkTurn (fullContent t) id (reasoningSummaryOf t) (citationsOf t),
            false)
  | response_output_text_delta delta =>
      let t := mkTurn (fullContent t ++ delta) (openaiResponseIdOf t)
                 (reasoningSummaryOf t) (citationsOf t) in
      perEvent t
        (env (at_appendMessageContent i);;
         runMutation (appendMessageContent aiMessageId delta);;
         mret (t, false))
  | response_reasoning_summary_text_delta delta =>
      let t := mkTurn (fullContent t) (openaiResponseIdOf t)
                 (reasoningSummaryOf t ++ delta) (citationsOf t) in
      perEvent t
        (env (at_updateReasoningSummary i);;
         runMutation (updateReasoningSummary aiMessageId (reasoningSummaryOf t));;
         mret (t, false))
  | response_reasoning_summary_text_done text =>
      let t := mkTurn (fullContent t) (openaiResponseIdOf t)
                 (reasoningSummaryOf t ++ text) (citationsOf t) in
      perEvent t
        (env (at_updateReasoningSummary i);;
         runMutation (updateReasoningSummary aiMessageId (reasoningSummaryOf t));;
         mret (t, false))
  | response_output_text_done annotations =>
      let annotations := default [] annotations in
      forEach logAnnotation annotations;;
      mret (mkTurn (fullContent t) (openaiResponseIdOf t)
              (reasoningSummaryOf t)
              (addAnnotations (citationsOf t) annotations),
            false)
  | response_completed output =>
      let t := mkTurn (fullContent t) (openaiResponseIdOf t)
                 (reasoningSummaryOf t)
                 (addAnnotations (citationsOf t) (completedAnnotations output))
      in
      perEvent t
        (env (at_markMessageComplete i);;
         runMutation (markMessageComplete
           (mkMarkMessageCompleteArgs aiMessageId
              (Some (openaiResponseIdOf t))
              (trimmedOrUndefined (reasoningSummaryOf t))
              (nonEmpty (citationsOf t)) None));;
         env (at_updateConversationResponseId i);;
         runMutation (updateConversationResponseId conv (openaiResponseIdOf t));;
         console_write console_log
           ("Streaming response completed for conversation "
              ++ JS.showNat conv);;
         mret (t, true))
  | response_other => mret (t, false)
  end.

Fixpoint forAwaitAmid (i : nat) (conv aiMessageId : nat) (t : Turn)
    (events : list StreamEvent) : M (Turn * bool) :=
  match events with
  | [] => mret (t, false)
  | event :: rest =>
      env (at_next i);;
      '(t, stop) ← onEventAmid i conv aiMessageId t event;
      if stop : bool then mret (t, true)
      else forAwaitAmid (S i) conv aiMessageId t rest
  end.

Definition streamResponseAmid (p : Provider) (request : Request)
    (conv aiMessageId : nat) : M unit :=
  env at_create;;
  match responses_create p request with
  | Rejects e => throw e
  | Streams events failure =>
      '(t, stop) ← forAwaitAmid 0 conv aiMessageId newTurn events;
      (if stop : bool then mret tt
       else
         env (at_next (length events));;
         match failure with
         | Some e => throw e
         | None => mret tt
         end);;
      if negb (JS.truthy (JS.trim (fullContent t))) then
        console_write console_warn "No content generated in OpenAI response";;
        env at_markMessageError;;
        runMutation (markMessageError aiMessageId)
      else mret tt
  end.

Definition onGenerationErrorAmid (aiMessageId : nat) : M unit :=
  console_write console_error "Error during OpenAI response generation:";;
  env at_appendApology;;
  runMutation (appendMessageContent aiMessageId
    "Sorry, I encountered an error while generating a response.");;
  env at_markApologyError;;
  runMutation (markMessageError aiMessageId).

Definition driveTurnAmid (p : Provider) (request : Request)
    (conv aiMessageId : nat) : M unit :=
  try_catch (streamResponseAmid p request conv aiMessageId)
    (λ _, onGenerationErrorAmid aiMessageId).

Definition generateAiResponseAmid (p : Provider) (conv : nat) : M unit :=
  try_catch
    (env at_getConversation;;
     conversation ← getConversation conv None;
     match conversation with
     | None => console_write console_error "Conversation not found:"
     | Some conversation =>
         env at_getLastUserMessage;;
         lastMessage ← getLastUserMessage conv;
         match lastMessage with
         | None =>
             console_write console_error
               "No user message found in conversation:"
         | Some (_, lastMessage) =>
             let inputContent := inputContentOf lastMessage in
             if bool_decide (inputContent = []) then
               console_write console_error "No content found in user message"
             else
               let inputText := JS.join newline inputContent in
               let tools := toolsOf conversation lastMessage in
               let selectedModel := JS.or_else (model lastMessage) "gpt-4.1" in
               selectedModel ←
                 (if negb (isSupportedModel selectedModel) then
                    console_write console_error
                      ("Unsupported model in message: " ++ selectedModel
                         ++ ", falling back to gpt-4.1");;
                    mret "gpt-4.1"
                  else mret selectedModel);
               env at_storeAiMessage;;
               aiMessageId ← runMutation (storeAiMessage
                 (mkStoreAiMessageArgs conv EmptyString (Some typing)
                    None None None None));
               let userTimezone := JS.or_else (timezone lastMessage) "UTC" in
               match toLocaleString p userTimezone with
               | None => throw "Invalid time zone specified"
               | Some time_format =>
                   let request :=
                     mkRequest selectedModel inputText
                       (match lastResponseId conversation with
                        | Some r => if JS.truthy r then Some r else None
                        | None => None
                        end)
                       (selectedModel, time_format)
                       (nonEmpty tools) in
                   driveTurnAmid p request conv aiMessageId
               end
         end
     end)
    (λ _,
       console_write console_error "Error in generateAiResponse:";;
       env at_storeError;;
       runMutation (storeAiMessage
         (mkStoreAiMessageArgs conv
            "Sorry, I encountered an error while preparing the response."
            (Some error) None None None None));;
       mret tt).

End Amid.

(** Nothing else runs. *)
Definition alone : Await → M unit := λ _, mret tt.

(** A client calls [deleteConversation] while the action waits at
    [moment]; nothing else happens. *)
Definition deletedAt (moment : Await) (auth : option nat) (conv : nat)
    : Await → M unit := λ pt,
  if decide (pt = moment)
  then meanwhile (deleteConversation auth conv)
  else mret tt.

(** Nobody deletes the conversation. *)
Definition keepsConversation (conv : nat) (h : M unit) : Prop :=
  ∀ w, is_Some (conversations w !! conv) →
       is_Some (conversations (h w).2 !! conv).

(** A handler that returns in every state. *)
Definition returns {A} (h : M A) : Prop :=
  ∀ w, ∃ a w', h w = (Returned a, w').

(** The points at which the action waits between its first query and
    the last call of its outer [catch], the stream apart. *)
Definition aroundTheStream : list Await :=
  [at_getLastUserMessage; at_storeAiMessage; at_storeError].

(** * Properties *)

(** ** Strings *)

Section Strings.

Implicit Types (a b s : string) (n k : nat) (c : ascii).

Lemma app_cons c a b : String c a ++ b = String c (a ++ b).
Proof. reflexivity. Qed.

Lemma app_nil b : EmptyString ++ b = b.
Proof. reflexivity. Qed.

Lemma length_app a b :
  String.length (a ++ b) = (String.length a + String.length b)%nat.
Proof.
  induction a as [|c a IH]; [done |].
  rewrite app_cons. simpl. by rewrite IH.
Qed.

Lemma app_empty_r s : s ++ EmptyString = s.
Proof. induction s as [|c s IH]; [done | by rewrite app_cons, IH]. Qed.

Lemma app_assoc_string a b s : (a ++ b) ++ s = a ++ (b ++ s).
Proof. induction a as [|c a IH]; [done | by rewrite !app_cons, IH]. Qed.

Lemma prefix_all n s :
  (String.length s ≤ n)%nat → String.substring 0 n s = s.
Proof.
  revert n. induction s as [|c s IH]; intros [|n] Hn; simpl in *; try done.
  - lia.
  - rewrite IH; [done | lia].
Qed.

Lemma prefix_app n a b :
  String.substring 0 (String.length a + n) (a ++ b)
  = a ++ String.substring 0 n b.
Proof.
  induction a as [|c a IH]; [done |].
  rewrite !app_cons. simpl. by rewrite IH.
Qed.

Lemma prefix_length n s :
  String.length (String.substring 0 n s) = Nat.min n (String.length s).
Proof.
  revert n. induction s as [|c s IH]; intros [|n]; simpl; try done.
  by rewrite IH.
Qed.

Lemma prefix_prefix_app n a b :
  String.substring 0 n (String.substring 0 n a ++ b)
  = String.substring 0 n (a ++ b).
Proof.
  revert n. induction a as [|c a IH]; intros [|n]; try done.
  - rewrite app_nil. simpl. by destruct b.
  - simpl String.substring at 2. rewrite !app_cons. simpl. by rewrite IH.
Qed.

(** [s.substring(0, e)] for a non-negative [e] is the prefix of [s] of
    length [e], or [s] when it is shorter. *)
Lemma substring_from_0 s e :
  0 ≤ e → JS.substring s 0 e = String.substring 0 (Z.to_nat e) s.
Proof.
  intros He. unfold JS.substring, JS.length.
  set (l := String.length s).
  replace (Z.min (Z.max 0 0) (Z.of_nat l)) with 0 by lia.
  replace (Z.max e 0) with e by lia.
  replace (Z.min 0 (Z.min e (Z.of_nat l))) with 0 by lia.
  replace (Z.max 0 (Z.min e (Z.of_nat l)) - 0) with (Z.min e (Z.of_nat l))
    by lia.
  simpl Z.to_nat at 1.
  destruct (Z.le_gt_cases e (Z.of_nat l)) as [H|H].
  - by rewrite Z.min_l.
  - rewrite Z.min_r by lia. rewrite Nat2Z.id.
    rewrite !prefix_all; [done | lia | subst l; lia].
Qed.

End Strings.

(** ** Running handlers *)

Lemma set_messages_id w : set_messages (messages w) w = w.
Proof. by destruct w. Qed.

Lemma set_conversations_id w : set_conversations (conversations w) w = w.
Proof. by destruct w. Qed.

Lemma withContent_id m : withContent (content m) m = m.
Proof. by destruct m. Qed.

Lemma bind_returned {A B} (h : M A) (k : A → M B) a w w' :
  h w = (Returned a, w') → (h ≫= k) w = k a w'.
Proof. intros H. unfold mbind, M_bind. by rewrite H. Qed.

Lemma bind_threw {A B} (h : M A) (k : A → M B) e w w' :
  h w = (Threw e, w') → (h ≫= k) w = (Threw e, w').
Proof. intros H. unfold mbind, M_bind. by rewrite H. Qed.

Lemma runMutation_returned {A} (m : M A) a w w' :
  m w = (Returned a, w') → runMutation m w = (Returned a, w').
Proof. intros H. unfold runMutation. by rewrite H. Qed.

Lemma forEach_cons_returned {A} (f : A → M unit) x xs w w1 :
  f x w = (Returned tt, w1) → forEach f (x :: xs) w = forEach f xs w1.
Proof. intros H. simpl. unfold mbind, M_bind. by rewrite H. Qed.

(** ** The message append engine *)

Section Append.

Variable limit : Z.

(** The content that one append leaves behind, for a message within the
    limit. *)
Lemma content_after_append (c d : string) :
  JS.length c ≤ limit →
  (if JS.length (c ++ d) >? limit
   then if limit - JS.length c <=? 0 then c
        else c ++ JS.substring d 0 (limit - JS.length c)
   else c ++ d)
  = JS.substring (c ++ d) 0 limit.
Proof.
  unfold JS.length. intros Hc.
  assert (0 ≤ limit) as Hl by lia.
  rewrite (substring_from_0 (c ++ d)) by done.
  rewrite length_app.
  destruct (Z.gtb_spec (Z.of_nat (String.length c + String.length d)) limit)
    as [Hgt|Hle].
  - destruct (Z.leb_spec (limit - Z.of_nat (String.length c)) 0) as [H0|H0].
    + assert (Z.to_nat limit = (String.length c + 0)%nat) as -> by lia.
      rewrite prefix_app.
      replace (String.substring 0 0 d) with EmptyString by (by destruct d).
      by rewrite app_empty_r.
    + rewrite substring_from_0 by lia.
      assert (Z.to_nat limit
              = (String.length c
                 + Z.to_nat (limit - Z.of_nat (String.length c)))%nat)
        as -> by lia.
      by rewrite prefix_app.
  - rewrite prefix_all; [done |]. rewrite length_app. lia.
Qed.

Lemma substring_within (s : string) :
  JS.length (JS.substring s 0 limit) ≤ limit ∨ limit < 0.
Proof.
  destruct (Z.lt_ge_cases limit 0) as [?|Hl]; [by right | left].
  rewrite substring_from_0 by done. unfold JS.length.
  rewrite prefix_length. lia.
Qed.

(** One call of [appendMessageContent] on a message that exists and is
    within the limit. *)
Lemma appendMessageContent_step mid m d w :
  messages w !! mid = Some m →
  JS.length (content m) ≤ limit →
  ∃ l,
    appendMessageContentWithin limit mid d w
    = (Returned tt,
       set_console (console w ++ l)
         (set_messages
            (<[mid := withContent (JS.substring (content m ++ d) 0 limit) m]>
               (messages w)) w)).
Proof.
  intros Hm Hc.
  pose proof (content_after_append (content m) d Hc) as Hafter.
  unfold appendMessageContentWithin, db.get_message, db.patch_message.
  unfold_monad. rewrite Hm.
  destruct (JS.length (content m ++ d) >? limit).
  - destruct (limit - JS.length (content m) <=? 0).
    + eexists [_]. rewrite <- Hafter, withContent_id, insert_id by done.
      by rewrite set_messages_id.
    + eexists [_]. simpl. rewrite Hm. by rewrite <- Hafter.
  - exists []. simpl. rewrite Hm, <- Hafter.
    f_equal. destruct w; simpl. by rewrite app_nil_r.
Qed.

End Append.

Lemma withContent_withContent c c' m :
  withContent c (withContent c' m) = withContent c m.
Proof. by destruct m. Qed.

Lemma content_withContent c m : content (withContent c m) = c.
Proof. by destruct m. Qed.

(** C2: any sequence of appends to an existing message that is within the
    limit returns without throwing and leaves, as the content of that
    message, the existing content followed by the deltas, cut at the
    limit: deltas are kept whole while they fit, the first one that
    does not fit is kept up to the prefix that fits, and nothing is added
    afterwards. Nothing else changes except the console; and when the
    message is already at the limit the [messages] table is left exactly as
    it was. The cut is the whole text when it fits, and has the length of
    the limit otherwise. [appendMessageContent] is the instance at
    [MAX_MESSAGE_SIZE]. *)
Theorem appendMessageContent_saturates limit mid m deltas w :
  messages w !! mid = Some m →
  JS.length (content m) ≤ limit →
  ∃ w',
    appendAll limit mid deltas w = (Returned tt, w')
    ∧ w' = set_console (console w')
             (set_messages
                (<[mid := withContent
                            (JS.substring (content m ++ concatAll deltas)
                               0 limit) m]> (messages w)) w)
    ∧ (JS.length (content m) = limit → messages w' = messages w)
    ∧ (JS.length (content m ++ concatAll deltas) ≤ limit →
       JS.substring (content m ++ concatAll deltas) 0 limit
       = content m ++ concatAll deltas)
    ∧ JS.length (JS.substring (content m ++ concatAll deltas) 0 limit)
      = Z.min limit (JS.length (content m ++ concatAll deltas)).
Proof.
  intros Hm Hc.
  assert (0 ≤ limit) as Hl by (unfold JS.length in Hc; lia).
  cut (∃ w',
         appendAll limit mid deltas w = (Returned tt, w')
         ∧ w' = set_console (console w')
                  (set_messages
                     (<[mid := withContent
                                 (JS.substring
                                    (content m ++ concatAll deltas)
                                    0 limit) m]> (messages w)) w)
         ∧ (JS.length (content m) = limit → messages w' = messages w)).
  { intros (w' & H1 & H2 & H3). exists w'.
    split; [done |]. split; [done |]. split; [done |].
    rewrite substring_from_0 by done. unfold JS.length. split.
    - intros Hfit. apply prefix_all. lia.
    - rewrite prefix_length. lia. }
  cut (∃ l, appendAll limit mid deltas w
            = (Returned tt,
               set_console (console w ++ l)
                 (set_messages
                    (<[mid := withContent
                                (JS.substring (content m ++ concatAll deltas)
                                   0 limit) m]> (messages w)) w))).
  { intros [l Hrun]. eexists. split; [exact Hrun |]. split; [done |].
    intros Hfull. simpl.
    rewrite substring_from_0 by done.
    replace (Z.to_nat limit) with (String.length (content m) + 0)%nat
      by (unfold JS.length in Hfull; lia).
    rewrite prefix_app.
    replace (String.substring 0 0 (concatAll deltas)) with EmptyString
      by (by destruct (concatAll deltas)).
    by rewrite app_empty_r, withContent_id, insert_id. }
  revert w m Hm Hc. induction deltas as [|d deltas IH]; intros w m Hm Hc.
  - exists []. unfold appendAll. simpl. unfold_monad. f_equal.
    rewrite app_empty_r, substring_from_0 by done.
    rewrite prefix_all by (unfold JS.length in Hc; lia).
    rewrite withContent_id, insert_id by done.
    destruct w; simpl. by rewrite app_nil_r.
  - destruct (appendMessageContent_step limit mid m d w Hm Hc) as [l1 Hstep].
    set (m1 := withContent (JS.substring (content m ++ d) 0 limit) m).
    set (w1 := set_console (console w ++ l1)
                 (set_messages (<[mid := m1]> (messages w)) w)).
    assert (messages w1 !! mid = Some m1) as Hm1
      by (simpl; apply lookup_insert_eq).
    assert (JS.length (content m1) ≤ limit) as Hc1.
    { subst m1. rewrite content_withContent.
      destruct (substring_within limit (content m ++ d)); [done | lia]. }
    destruct (IH w1 m1 Hm1 Hc1) as [l2 Hrest].
    exists (l1 ++ l2)%list.
    unfold appendAll in *.
    rewrite (forEach_cons_returned _ d deltas w w1 Hstep), Hrest.
    f_equal. subst w1. cbn [set_console set_messages console messages
      conversations fileMessageMappings users nextId now scheduled].
    subst m1.
    rewrite content_withContent, withContent_withContent, insert_insert_eq.
    rewrite !substring_from_0 by done.
    rewrite prefix_prefix_app, app_assoc_string.
    by rewrite (List.app_assoc (console w) l1 l2).
Qed.

(** The spec's example: limit 10, deltas ["hello "], ["world"], ["!!!"]
    on an empty message. *)
Lemma appendMessageContent_saturates_example :
  ∃ w',
    appendAll 10 7 ["hello "; "world"; "!!!"] oneMessageWorld
    = (Returned tt, w')
    ∧ content <$> messages w' !! 7%nat = Some "hello worl"
    ∧ messages (appendAll 10 7 ["hello "; "world"] oneMessageWorld).2
      = messages w'.
Proof.
  destruct (appendMessageContent_saturates 10 7 emptyAssistantMessage
              ["hello "; "world"; "!!!"] oneMessageWorld)
    as (w' & Hrun & Hw' & _); [reflexivity | by vm_compute |].
  exists w'. split; [exact Hrun |]. split.
  - rewrite Hw'. reflexivity.
  - rewrite Hw'. by vm_compute.
Defined.

(** A message that is already beyond the limit takes no append. *)
Lemma appendMessageContent_beyond_limit limit mid m delta w :
  messages w !! mid = Some m →
  limit < JS.length (content m) →
  ∃ l,
    appendMessageContentWithin limit mid delta w
    = (Returned tt, set_console (console w ++ l) w).
Proof.
  intros Hm Hc. unfold appendMessageContentWithin, db.get_message.
  unfold_monad. rewrite Hm.
  replace (JS.length (content m ++ delta) >? limit) with true.
  - replace (limit - JS.length (content m) <=? 0) with true
      by (symmetry; apply Z.leb_le; lia).
    by eexists [_].
  - symmetry. apply Z.gtb_lt. unfold JS.length in *.
    rewrite length_app. lia.
Qed.

(** The run of a sequence of appends, with what it prints. *)
Lemma appendAll_run limit mid m deltas w :
  messages w !! mid = Some m →
  JS.length (content m) ≤ limit →
  ∃ l,
    appendAll limit mid deltas w
    = (Returned tt,
       set_console (console w ++ l)
         (set_messages
            (<[mid := withContent
                        (JS.substring (content m ++ concatAll deltas) 0 limit)
                        m]> (messages w)) w)).
Proof.
  intros Hm Hc.
  assert (0 ≤ limit) as Hl by (unfold JS.length in Hc; lia).
  revert w m Hm Hc. induction deltas as [|d deltas IH]; intros w m Hm Hc.
  - exists []. unfold appendAll. simpl. unfold_monad. f_equal.
    rewrite app_empty_r, substring_from_0 by done.
    rewrite prefix_all by (unfold JS.length in Hc; lia).
    rewrite withContent_id, insert_id by done.
    destruct w; simpl. by rewrite app_nil_r.
  - destruct (appendMessageContent_step limit mid m d w Hm Hc) as [l1 Hstep].
    set (m1 := withContent (JS.substring (content m ++ d) 0 limit) m).
    set (w1 := set_console (console w ++ l1)
                 (set_messages (<[mid := m1]> (messages w)) w)).
    assert (messages w1 !! mid = Some m1) as Hm1
      by (simpl; apply lookup_insert_eq).
    assert (JS.length (content m1) ≤ limit) as Hc1.
    { subst m1. rewrite content_withContent.
      destruct (substring_within limit (content m ++ d)); [done | lia]. }
    destruct (IH w1 m1 Hm1 Hc1) as [l2 Hrest].
    exists (l1 ++ l2)%list.
    unfold appendAll in *.
    rewrite (forEach_cons_returned _ d deltas w w1 Hstep), Hrest.
    f_equal. subst w1. cbn [set_console set_messages console messages
      conversations fileMessageMappings users nextId now scheduled].
    subst m1.
    rewrite content_withContent, withContent_withContent, insert_insert_eq.
    rewrite !substring_from_0 by done.
    rewrite prefix_prefix_app, app_assoc_string.
    by rewrite (List.app_assoc (console w) l1 l2).
Qed.

(** The production limit. *)
Corollary appendMessageContent_50KB mid m deltas w :
  messages w !! mid = Some m →
  JS.length (content m) ≤ MAX_MESSAGE_SIZE →
  ∃ w',
    forEach (appendMessageContent mid) deltas w = (Returned tt, w')
    ∧ content <$> messages w' !! mid
      = Some (JS.substring (content m ++ concatAll deltas) 0 51200).
Proof.
  intros Hm Hc.
  destruct (appendAll_run MAX_MESSAGE_SIZE mid m deltas w Hm Hc)
    as [l Hrun].
  eexists. split; [exact Hrun |].
  simpl. by rewrite lookup_insert_eq.
Qed.

(** ** Calls on a message that is gone *)

(** C9: on the id of a message whose row does not exist,
    [appendMessageContent], [markMessageComplete] and [markMessageError]
    return without throwing, print one warning, and leave every table,
    the scheduler and the clock as they were. *)
Theorem lost_message_calls_are_dropped mid w :
  messages w !! mid = None →
  (∀ delta,
     appendMessageContent mid delta w
     = (Returned tt,
        set_console
          (console w
             ++ [mkLog console_warn
                   ("Message with ID " ++ JS.showNat mid
                      ++ " not found for appending.")]) w))
  ∧ (∀ rid summary cites tz,
       markMessageComplete
         (mkMarkMessageCompleteArgs mid rid summary cites tz) w
       = (Returned tt,
          set_console
            (console w
               ++ [mkLog console_warn
                     ("Message with ID " ++ JS.showNat mid
                        ++ " not found for marking as complete.")]) w))
  ∧ markMessageError mid w
    = (Returned tt,
       set_console
         (console w
            ++ [mkLog console_warn
                  ("Message with ID " ++ JS.showNat mid
                     ++ " not found for marking as error.")]) w).
Proof.
  intros Hm. repeat split; intros;
    unfold appendMessageContent, appendMessageContentWithin,
      markMessageComplete, markMessageError, db.get_message;
    unfold_monad; simpl; by rewrite Hm.
Qed.

Lemma lost_message_calls_are_dropped_example :
  messages oneMessageWorld !! 3%nat = None
  ∧ appendMessageContent 3 "late delta" oneMessageWorld
    = (Returned tt,
       set_console
         [mkLog console_warn "Message with ID 3 not found for appending."]
         oneMessageWorld)
  ∧ markMessageError 3 oneMessageWorld
    = (Returned tt,
       set_console
         [mkLog console_warn
            "Message with ID 3 not found for marking as error."]
         oneMessageWorld).
Proof.
  assert (messages oneMessageWorld !! 3%nat = None) as H by reflexivity.
  split; [exact H |].
  destruct (lost_message_calls_are_dropped 3 oneMessageWorld H)
    as (Ha & _ & He).
  split; [exact (Ha "late delta") | exact He].
Defined.

(** ** The activity timestamp *)

Lemma storeUserMessage_bumps_updatedTime args c w :
  conversations w !! su_conversationId args = Some c →
  ∃ w',
    storeUserMessage args w = (Returned tt, w')
    ∧ conversations w'
      = <[su_conversationId args :=
            mkConversation (userId c) (name c) (lastResponseId c)
              (vectorStoreId c) (Some (now w))]> (conversations w).
Proof.
  intros Hc. unfold storeUserMessage, db.insert_message,
    db.patch_conversation. unfold_monad. simpl. rewrite Hc. eauto.
Qed.

Lemma storeUserMessageWithVectorStore_bumps_updatedTime args c w :
  conversations w !! su_conversationId args = Some c →
  ∃ w',
    storeUserMessageWithVectorStore args w = (Returned (nextId w), w')
    ∧ messages w' = <[nextId w := userMessageOf args]> (messages w)
    ∧ conversations w'
      = <[su_conversationId args :=
            mkConversation (userId c) (name c) (lastResponseId c)
              (vectorStoreId c) (Some (now w))]> (conversations w).
Proof.
  intros Hc. unfold storeUserMessageWithVectorStore, db.insert_message,
    db.patch_conversation. unfold_monad. simpl. rewrite Hc. eauto.
Qed.

Lemma appendMessageContent_leaves_conversations limit mid delta w :
  conversations (appendMessageContentWithin limit mid delta w).2
  = conversations w.
Proof.
  unfold appendMessageContentWithin, db.get_message, db.patch_message.
  unfold_monad.
  destruct (messages w !! mid) as [m|] eqn:Hm; simpl; [| done].
  destruct (_ >? _); simpl; [| by rewrite Hm].
  destruct (_ <=? _); simpl; [done | by rewrite Hm].
Qed.

(** C5, where the code departs from it: [markMessageComplete] writes to
    the message only; the [conversations] table, and with it every
    [updatedTime], is left as it was, whatever the arguments and the
    state. *)
Theorem markMessageComplete_leaves_conversations args w :
  conversations (markMessageComplete args w).2 = conversations w.
Proof.
  unfold markMessageComplete, db.get_message, db.patch_message.
  unfold_monad.
  destruct (messages w !! mc_messageId args) as [m|] eqn:Hm; simpl;
    [by rewrite Hm | done].
Qed.

(** ** Failing a message *)

(** C6, where the code departs from it: [markMessageError] sets the
    status of an existing message to [error] and writes nothing else;
    the message's [errorDetails] is what it was before the call. *)
Theorem markMessageError_writes_status_only mid m w :
  messages w !! mid = Some m →
  markMessageError mid w
  = (Returned tt,
     set_messages (<[mid := withStatus error m]> (messages w)) w)
  ∧ status (withStatus error m) = Some error
  ∧ errorDetails (withStatus error m) = errorDetails m.
Proof.
  intros Hm. split; [| by destruct m].
  unfold markMessageError, db.get_message, db.patch_message.
  unfold_monad. rewrite Hm. simpl. by rewrite Hm.
Qed.

Lemma markMessageError_writes_status_only_example :
  ∃ w',
    markMessageError 7 oneMessageWorld = (Returned tt, w')
    ∧ status <$> messages w' !! 7%nat = Some (Some error)
    ∧ errorDetails <$> messages w' !! 7%nat = Some None.
Proof.
  destruct (markMessageError_writes_status_only 7 emptyAssistantMessage
              oneMessageWorld eq_refl) as (Hrun & _ & _).
  eexists. split; [exact Hrun |]. split; reflexivity.
Defined.

Lemma getLoggedInUser_found uid u w :
  users w !! uid = Some u →
  getLoggedInUser (Some uid) w = (Returned (uid, u), w).
Proof.
  intros Hu. unfold getLoggedInUser, db.get_user. unfold_monad.
  by rewrite Hu.
Qed.

(** ** The file citation index *)

Section Index.

Implicit Types (w : World) (e : FileMessageMapping) (fid : string).

Lemma unique_of_filter fid w :
  db.unique_fileMessageMapping fid w
  = match map_to_list (filter (λ kv : nat * FileMessageMapping,
                                 openaiFileId kv.2 = fid)
                         (fileMessageMappings w)) with
    | [] => (Returned None, w)
    | [kv] => (Returned (Some kv), w)
    | _ => (Threw "unique() query returned more than one result", w)
    end.
Proof. reflexivity. Qed.

Lemma unique_noEntry fid w :
  noEntry fid w → db.unique_fileMessageMapping fid w = (Returned None, w).
Proof.
  intros Hno. rewrite unique_of_filter.
  replace (filter _ (fileMessageMappings w))
    with (∅ : gmap nat FileMessageMapping); [by rewrite map_to_list_empty |].
  symmetry. apply map_empty. intros k.
  apply map_lookup_filter_None. right. intros e He. simpl.
  by apply (Hno k e).
Qed.

Lemma unique_theEntry fid w k e :
  fileMessageMappings w !! k = Some e →
  openaiFileId e = fid →
  (∀ k' e', fileMessageMappings w !! k' = Some e' →
            openaiFileId e' = fid → k' = k) →
  db.unique_fileMessageMapping fid w = (Returned (Some (k, e)), w).
Proof.
  intros Hk Hfid Huniq. rewrite unique_of_filter.
  replace (filter _ (fileMessageMappings w))
    with ({[ k := e ]} : gmap nat FileMessageMapping);
    [by rewrite map_to_list_singleton |].
  apply map_eq. intros i. destruct (decide (i = k)) as [->|Hne].
  - rewrite lookup_singleton_eq. symmetry.
    by apply map_lookup_filter_Some.
  - rewrite lookup_singleton_ne by done. symmetry.
    apply map_lookup_filter_None. right. intros e' He' Hf. simpl in Hf.
    by apply Hne, (Huniq i e').
Qed.

Lemma noEntry_of_unique fid w :
  db.unique_fileMessageMapping fid w = (Returned None, w) → noEntry fid w.
Proof.
  rewrite unique_of_filter.
  destruct (map_to_list _) as [|kv [|kv' rest]] eqn:Hl; try done.
  intros _ k e Hk Hfid. apply map_to_list_empty_iff in Hl.
  assert (filter (λ kv : nat * FileMessageMapping, openaiFileId kv.2 = fid)
            (fileMessageMappings w) !! k = Some e) as Hin
    by by apply map_lookup_filter_Some.
  by rewrite Hl, lookup_empty in Hin.
Qed.

Lemma theEntry_of_unique fid w k e :
  db.unique_fileMessageMapping fid w = (Returned (Some (k, e)), w) →
  theEntry fid w e.
Proof.
  rewrite unique_of_filter.
  destruct (map_to_list _) as [|kv [|kv' rest]] eqn:Hl; try done.
  intros [= ->].
  assert (filter (λ kv : nat * FileMessageMapping, openaiFileId kv.2 = fid)
            (fileMessageMappings w) = {[ k := e ]}) as Hf.
  { rewrite <- (list_to_map_to_list (filter _ _)), Hl. simpl.
    by rewrite insert_empty. }
  exists k.
  assert (filter (λ kv : nat * FileMessageMapping, openaiFileId kv.2 = fid)
            (fileMessageMappings w) !! k = Some e) as Hk
    by (by rewrite Hf, lookup_singleton_eq).
  apply map_lookup_filter_Some in Hk as [Hk Hfid].
  repeat split; [done | done |].
  intros k' e' Hk' Hfid'.
  assert (filter (λ kv : nat * FileMessageMapping, openaiFileId kv.2 = fid)
            (fileMessageMappings w) !! k' = Some e') as Hin
    by by apply map_lookup_filter_Some.
  rewrite Hf in Hin. by apply lookup_singleton_Some in Hin as [-> _].
Qed.

(** After an insert of an entry for [fid] into an index that held none,
    the lookup finds exactly that entry. *)
Lemma unique_after_insert fid w k e :
  map_to_list (filter (λ kv : nat * FileMessageMapping,
                         openaiFileId kv.2 = fid) (fileMessageMappings w))
  = [] →
  openaiFileId e = fid →
  map_to_list (filter (λ kv : nat * FileMessageMapping,
                         openaiFileId kv.2 = fid)
                 (<[k := e]> (fileMessageMappings w)))
  = [(k, e)].
Proof.
  intros Hnone Hfid. apply map_to_list_empty_iff in Hnone.
  rewrite map_filter_insert_True by done.
  by rewrite Hnone, insert_empty, map_to_list_singleton.
Qed.

Lemma createUserFileMapping_cases args w :
  createUserFileMapping args w
  = match map_to_list (filter (λ kv : nat * FileMessageMapping,
                                 openaiFileId kv.2 = cm_openaiFileId args)
                         (fileMessageMappings w)) with
    | [] =>
        (Returned tt,
         set_nextId (S (nextId w))
           (set_fileMessageMappings
              (<[nextId w := entryOf args (now w)]> (fileMessageMappings w))
              w))
    | [kv] => (Returned tt, w)
    | _ => (Threw "unique() query returned more than one result", w)
    end.
Proof.
  unfold createUserFileMapping. unfold mbind, M_bind at 1.
  rewrite unique_of_filter.
  by destruct (map_to_list _) as [|kv [|kv' rest]].
Qed.

(** C8: [createUserFileMapping] is first-writer-wins. In any state, a
    call for a provider file id that the index holds an entry for writes
    nothing: the state after the call is the state before it, whatever
    uploader, storage reference, file name, size or originating
    conversation and message the call carries, and however long after
    the entry was recorded; where the entry is the only one for the id
    the call returns. A call for an id that the index does not hold
    stores its own arguments under the next id, and from then on, in any
    state with that index, whatever else has changed, a call for the
    same id returns, changes nothing, and the lookup finds what the
    first call stored. *)
Theorem createUserFileMapping_first_writer_wins args w :
  (∀ k e,
     fileMessageMappings w !! k = Some e →
     openaiFileId e = cm_openaiFileId args →
     (createUserFileMapping args w).2 = w)
  ∧ (∀ e,
       theEntry (cm_openaiFileId args) w e →
       createUserFileMapping args w = (Returned tt, w))
  ∧ (noEntry (cm_openaiFileId args) w →
     ∃ w1,
       createUserFileMapping args w = (Returned tt, w1)
       ∧ fileMessageMappings w1
         = <[nextId w := entryOf args (now w)]> (fileMessageMappings w)
       ∧ ∀ second w2,
           cm_openaiFileId second = cm_openaiFileId args →
           fileMessageMappings w2 = fileMessageMappings w1 →
           createUserFileMapping second w2 = (Returned tt, w2)
           ∧ db.unique_fileMessageMapping (cm_openaiFileId args) w2
             = (Returned (Some (nextId w, entryOf args (now w))), w2)).
Proof.
  split; [| split].
  - intros k e Hk Hfid. rewrite createUserFileMapping_cases.
    destruct (map_to_list _) as [|kv [|kv' rest]] eqn:Hl; [| done | done].
    apply map_to_list_empty_iff in Hl.
    assert (filter (λ kv : nat * FileMessageMapping,
                      openaiFileId kv.2 = cm_openaiFileId args)
              (fileMessageMappings w) !! k = Some e) as Hin
      by by apply map_lookup_filter_Some.
    by rewrite Hl, lookup_empty in Hin.
  - intros e (k & Hk & Hfid & Huniq).
    pose proof (unique_theEntry _ w k e Hk Hfid Huniq) as Hfind.
    rewrite unique_of_filter in Hfind.
    rewrite createUserFileMapping_cases.
    by destruct (map_to_list _) as [|kv [|kv' rest]].
  - intros Hno. apply unique_noEntry in Hno.
    rewrite unique_of_filter in Hno.
    destruct (map_to_list _) as [|kv [|kv' rest]] eqn:Hl; try done.
    eexists. split; [by rewrite createUserFileMapping_cases, Hl |].
    split; [done |].
    intros second w2 Hsame Htable.
    pose proof (unique_after_insert (cm_openaiFileId args) w (nextId w)
                  (entryOf args (now w)) Hl eq_refl) as Hl1.
    simpl in Htable. rewrite <- Htable in Hl1.
    rewrite createUserFileMapping_cases, unique_of_filter, Hsame, Hl1.
    done.
Qed.

Lemma createUserFileMapping_first_writer_wins_example :
  let first :=
    mkCreateUserFileMappingArgs "file-1" "a.pdf" 1 5 None None
      (Some 10%nat) (Some 20%nat) in
  let second :=
    mkCreateUserFileMappingArgs "file-1" "b.pdf" 2 6 None None
      (Some 11%nat) (Some 21%nat) in
  let later :=
    mkWorld ∅ ∅ {[ 0%nat := entryOf first 0 ]} ∅ 7 500 [] [] in
  createUserFileMapping second later = (Returned tt, later)
  ∧ db.unique_fileMessageMapping "file-1" later
    = (Returned (Some (0%nat, entryOf first 0)), later)
  ∧ createUserFileMapping
      (mkCreateUserFileMappingArgs "file-x" "mine.pdf" 1 9 None None
         (Some 10%nat) (Some 30%nat)) scopedWorld
    = (Returned tt, scopedWorld).
Proof.
  intros first second later.
  destruct (createUserFileMapping_first_writer_wins first emptyWorld)
    as (_ & _ & Hfresh).
  destruct Hfresh as (w1 & _ & Htable & Htwice);
    [by apply noEntry_of_unique |].
  destruct (Htwice second later eq_refl) as [Hnoop Hfind];
    [by rewrite Htable |].
  split; [exact Hnoop |]. split; [exact Hfind |].
  destruct (createUserFileMapping_first_writer_wins
              (mkCreateUserFileMappingArgs "file-x" "mine.pdf" 1 9 None None
                 (Some 10%nat) (Some 30%nat)) scopedWorld)
    as (_ & Hheld & _).
  apply (Hheld foreignEntry).
  apply (theEntry_of_unique "file-x" scopedWorld 30 foreignEntry).
  by vm_compute.
Defined.

(** C7, as the code has it: for a logged-in user who owns the
    conversation asked about, [findUserMessageByFileIdImpl] returns null
    when the index has no entry for the file id; returns null when the
    entry's originating conversation is another one, whoever uploaded the
    file; and throws the access-denied error when the entry's originating
    conversation is this one or is not recorded and its uploader is not
    the user. The state is never changed. *)
Theorem findUserMessageByFileId_scoping uid u conv c fid w :
  users w !! uid = Some u →
  conversations w !! conv = Some c →
  userId c = uid →
  (noEntry fid w →
   findUserMessageByFileIdImpl (Some uid) conv fid w = (Returned None, w))
  ∧ (∀ e other,
       theEntry fid w e →
       firstUsedInConversationId e = Some other → other ≠ conv →
       findUserMessageByFileIdImpl (Some uid) conv fid w
       = (Returned None, w))
  ∧ (∀ e,
       theEntry fid w e →
       firstUsedInConversationId e = None
       ∨ firstUsedInConversationId e = Some conv →
       uploadedBy e ≠ Some uid →
       findUserMessageByFileIdImpl (Some uid) conv fid w
       = (Threw "Access denied: file was not uploaded by current user", w)).
Proof.
  intros Hu Hc Hown.
  unfold findUserMessageByFileIdImpl. unfold mbind, M_bind.
  rewrite (getLoggedInUser_found uid u w Hu).
  unfold db.get_conversation, gets. rewrite Hc. simpl.
  rewrite bool_decide_eq_false_2 by (intros H; apply H; by subst).
  repeat split.
  - intros Hno. by rewrite (unique_noEntry _ _ Hno).
  - intros e other (k & Hk & Hfid & Huniq) Hconv Hne.
    rewrite (unique_theEntry fid w k e Hk Hfid Huniq).
    rewrite bool_decide_eq_true_2; [done |].
    rewrite Hconv. split; [by eexists | congruence].
  - intros e (k & Hk & Hfid & Huniq) Hconv Hup.
    rewrite (unique_theEntry fid w k e Hk Hfid Huniq).
    rewrite bool_decide_eq_false_2.
    + rewrite bool_decide_eq_true_2; [done |].
      split; [by destruct (fileType e) | done].
    + intros [[x Hx] Hne]. destruct Hconv as [Hconv|Hconv]; congruence.
Qed.

Lemma findUserMessageByFileId_scoping_example :
  findUserMessageByFileIdImpl (Some 1%nat) 10 "file-none" scopedWorld
  = (Returned None, scopedWorld)
  ∧ findUserMessageByFileIdImpl (Some 1%nat) 10 "file-own" scopedWorld
    = (Returned None, scopedWorld)
  ∧ findUserMessageByFileIdImpl (Some 1%nat) 10 "file-y" scopedWorld
    = (Threw "Access denied: file was not uploaded by current user",
       scopedWorld).
Proof.
  destruct (findUserMessageByFileId_scoping 1 (mkUser None None) 10
              (mkConversation 1 "mine" None None None) "file-none"
              scopedWorld eq_refl eq_refl eq_refl) as (Hnone & _ & _).
  destruct (findUserMessageByFileId_scoping 1 (mkUser None None) 10
              (mkConversation 1 "mine" None None None) "file-own"
              scopedWorld eq_refl eq_refl eq_refl) as (_ & Hscope & _).
  destruct (findUserMessageByFileId_scoping 1 (mkUser None None) 10
              (mkConversation 1 "mine" None None None) "file-y"
              scopedWorld eq_refl eq_refl eq_refl) as (_ & _ & Hdenied).
  split; [| split].
  - apply Hnone. by apply noEntry_of_unique.
  - apply (Hscope ownEntry 12%nat); [| reflexivity | lia].
    by apply (theEntry_of_unique _ _ 32%nat).
  - apply (Hdenied unscopedEntry); [| by left | discriminate].
    by apply (theEntry_of_unique _ _ 31%nat).
Defined.

(** C7 as stated fails where its second and third cases meet: user 1
    asks, for a conversation of theirs, about a file that user 2
    uploaded in another conversation; the entry's uploader is not the
    requester, and the answer is null, not the access-denied error.
    Besides, the null answers need the requester to own the conversation
    asked about: for a conversation of user 2 the call throws, entry or
    no entry. *)
Lemma findUserMessageByFileId_foreign_file_elsewhere :
  (theEntry "file-x" scopedWorld foreignEntry
   ∧ uploadedBy foreignEntry ≠ Some 1%nat
   ∧ userId <$> conversations scopedWorld !! 10%nat = Some 1%nat
   ∧ findUserMessageByFileIdImpl (Some 1%nat) 10 "file-x" scopedWorld
     = (Returned None, scopedWorld))
  ∧ (noEntry "file-none" scopedWorld
     ∧ findUserMessageByFileIdImpl (Some 1%nat) 11 "file-none" scopedWorld
       = (Threw "Access denied: conversation does not belong to user",
          scopedWorld)).
Proof.
  split.
  - split; [by apply (theEntry_of_unique _ _ 30%nat) |].
    split; [discriminate |]. split; reflexivity.
  - split; [by apply noEntry_of_unique | reflexivity].
Qed.

End Index.

(** ** The citation accumulator *)

Section Citations.

Implicit Types (c : Citation) (acc cs : list Citation) (a : Annotation)
  (anns : list Annotation) (seen : list Key).

Lemma someFile_spec fileId acc :
  someFile fileId acc = true ↔ FileKey fileId ∈ keyOf <$> acc.
Proof.
  unfold someFile. rewrite existsb_exists. split.
  - intros (c & Hin & Hc). apply list_elem_of_In in Hin.
    destruct c as [f n|u t]; [| done].
    apply String.eqb_eq in Hc as ->.
    apply list_elem_of_fmap. by exists (CiteFile fileId n).
  - intros (c & Hk & Hin)%list_elem_of_fmap.
    exists c. split; [by apply list_elem_of_In |].
    destruct c as [f n|u t]; simpl in Hk; [| done].
    injection Hk as ->. apply String.eqb_refl.
Qed.

Lemma someUrl_spec url acc :
  someUrl url acc = true ↔ UrlKey url ∈ keyOf <$> acc.
Proof.
  unfold someUrl. rewrite existsb_exists. split.
  - intros (c & Hin & Hc). apply list_elem_of_In in Hin.
    destruct c as [f n|u t]; [done |].
    apply String.eqb_eq in Hc as ->.
    apply list_elem_of_fmap. by exists (CiteUrl url t).
  - intros (c & Hk & Hin)%list_elem_of_fmap.
    exists c. split; [by apply list_elem_of_In |].
    destruct c as [f n|u t]; simpl in Hk; [done |].
    injection Hk as ->. apply String.eqb_refl.
Qed.

(** One annotation: dropped when it stands for no citation or when its
    key is in the list, appended otherwise. *)
Lemma addAnnotation_spec acc a :
  addAnnotation acc a
  = match citationOf a with
    | None => acc
    | Some c => if decide (keyOf c ∈ keyOf <$> acc) then acc
                else (acc ++ [c])%list
    end.
Proof.
  destruct a as [f n|u t|]; simpl; [| | done].
  - destruct (someFile f acc) eqn:Hs; simpl.
    + apply someFile_spec in Hs. by rewrite decide_True.
    + rewrite decide_False; [done |]. intros H%someFile_spec. congruence.
  - destruct (someUrl u acc) eqn:Hs; simpl.
    + apply someUrl_spec in Hs. by rewrite decide_True.
    + rewrite decide_False; [done |]. intros H%someUrl_spec. congruence.
Qed.

Lemma firstSeen_perm seen seen' cs :
  (∀ k, k ∈ seen ↔ k ∈ seen') → firstSeen seen cs = firstSeen seen' cs.
Proof.
  revert seen seen'. induction cs as [|c cs IH]; intros seen seen' H;
    simpl; [done |].
  destruct (decide (keyOf c ∈ seen)) as [Hin|Hin].
  - rewrite decide_True by by apply H. by apply IH.
  - rewrite decide_False by (by rewrite <- H). f_equal. apply IH.
    intros k. rewrite !elem_of_cons. by rewrite H.
Qed.

Lemma addAnnotations_firstSeen acc anns :
  addAnnotations acc anns
  = (acc ++ firstSeen (keyOf <$> acc) (omap citationOf anns))%list.
Proof.
  unfold addAnnotations. revert acc.
  induction anns as [|a anns IH]; intros acc; simpl.
  - by rewrite app_nil_r.
  - rewrite IH, addAnnotation_spec.
    destruct (citationOf a) as [c|]; [| done]. simpl.
    destruct (decide (keyOf c ∈ keyOf <$> acc)) as [Hin|Hin]; [done |].
    rewrite <- List.app_assoc. simpl. f_equal. f_equal.
    apply firstSeen_perm. intros k.
    rewrite fmap_app, elem_of_app, elem_of_cons. simpl.
    rewrite list_elem_of_singleton. tauto.
Qed.

Lemma firstSeen_keys_fresh seen cs c :
  c ∈ firstSeen seen cs → keyOf c ∉ seen.
Proof.
  revert seen. induction cs as [|x cs IH]; intros seen; simpl.
  - by intros ?%elem_of_nil.
  - destruct (decide (keyOf x ∈ seen)) as [Hin|Hin]; [by apply IH |].
    intros [->|H]%elem_of_cons; [done |].
    apply IH in H. intros ?. apply H. by right.
Qed.

Lemma firstSeen_NoDup seen cs : NoDup (keyOf <$> firstSeen seen cs).
Proof.
  revert seen. induction cs as [|x cs IH]; intros seen; simpl.
  - constructor.
  - destruct (decide (keyOf x ∈ seen)); [by apply IH |].
    simpl. constructor; [| by apply IH].
    intros (c & Hk & Hc)%list_elem_of_fmap.
    apply firstSeen_keys_fresh in Hc. apply Hc. rewrite <- Hk. by left.
Qed.

(** Every kept citation is the first one of its key among the events. *)
Lemma firstSeen_is_first seen cs c :
  c ∈ firstSeen seen cs →
  ∃ before after,
    cs = (before ++ c :: after)%list ∧ keyOf c ∉ keyOf <$> before.
Proof.
  revert seen. induction cs as [|x cs IH]; intros seen; simpl.
  - by intros ?%elem_of_nil.
  - destruct (decide (keyOf x ∈ seen)) as [Hin|Hin].
    + intros Hc. pose proof (firstSeen_keys_fresh _ _ _ Hc) as Hfresh.
      destruct (IH _ Hc) as (before & after & -> & Hb).
      exists (x :: before), after. split; [done |].
      rewrite fmap_cons. intros [Heq|?]%elem_of_cons; [| done].
      apply Hfresh. by rewrite Heq.
    + intros [->|Hc]%elem_of_cons.
      * exists [], cs. split; [done |]. simpl. apply not_elem_of_nil.
      * pose proof (firstSeen_keys_fresh _ _ _ Hc) as Hfresh.
        destruct (IH _ Hc) as (before & after & -> & Hb).
        exists (x :: before), after. split; [done |].
        rewrite fmap_cons. intros [Heq|?]%elem_of_cons; [| done].
        apply Hfresh. rewrite Heq. by left.
Qed.

(** Every event's key is that of a kept citation, unless seen before. *)
Lemma firstSeen_covers seen cs c :
  c ∈ cs → keyOf c ∈ seen ∨ keyOf c ∈ keyOf <$> firstSeen seen cs.
Proof.
  revert seen. induction cs as [|x cs IH]; intros seen; simpl.
  - by intros ?%elem_of_nil.
  - intros [->|Hc]%elem_of_cons.
    + destruct (decide (keyOf x ∈ seen)); [by left | right].
      rewrite fmap_cons. by left.
    + destruct (decide (keyOf x ∈ seen)) as [Hin|Hin]; [by apply IH |].
      destruct (IH (keyOf x :: seen) Hc) as [[->|H]%elem_of_cons|H].
      * right. rewrite fmap_cons. by left.
      * by left.
      * right. rewrite fmap_cons. by right.
Qed.

Lemma firstSeen_sublist seen cs : firstSeen seen cs `sublist_of` cs.
Proof.
  revert seen. induction cs as [|x cs IH]; intros seen; simpl; [done |].
  destruct (decide (keyOf x ∈ seen)).
  - by apply sublist_cons.
  - by apply sublist_skip.
Qed.

End Citations.

(** ** The streaming loop *)

Section Loop.

Variables (conv aiMessageId : nat).

Lemma kept_refl w : kept aiMessageId w w.
Proof. intros m Hm. by exists m. Qed.

Lemma kept_trans w1 w2 w3 :
  kept aiMessageId w1 w2 → kept aiMessageId w2 w3 → kept aiMessageId w1 w3.
Proof.
  intros H12 H23 m Hm. destruct (H12 m Hm) as (m2 & Hm2 & Ha & Hc).
  destruct (H23 m2 Hm2) as (m3 & Hm3 & Ha3 & Hc3).
  exists m3. split; [done |]. split; congruence.
Qed.

Lemma kept_console l w : kept aiMessageId w (set_console l w).
Proof. intros m Hm. by exists m. Qed.

Lemma safe_bind {A B} (h : M A) (k : A → M B) :
  returnsKeeping aiMessageId h →
  (∀ a, returnsKeeping aiMessageId (k a)) →
  returnsKeeping aiMessageId (h ≫= k).
Proof.
  intros Hh Hk w. destruct (Hh w) as (a & w1 & Hrun & Hkeep).
  destruct (Hk a w1) as (b & w2 & Hrun2 & Hkeep2).
  exists b, w2. unfold mbind, M_bind. rewrite Hrun.
  split; [done | by eapply kept_trans].
Qed.

Lemma safe_ret {A} (a : A) : returnsKeeping aiMessageId (mret a).
Proof. intros w. exists a, w. split; [done | apply kept_refl]. Qed.

Lemma safe_console l s : returnsKeeping aiMessageId (console_write l s).
Proof. intros w. eexists tt, _. split; [done | apply kept_console]. Qed.

Lemma safe_runMutation {A} (h : M A) :
  returnsKeeping aiMessageId h → returnsKeeping aiMessageId (runMutation h).
Proof.
  intros Hh w. destruct (Hh w) as (a & w1 & Hrun & Hkeep).
  exists a, w1. unfold runMutation. by rewrite Hrun.
Qed.

Lemma safe_patch_message mid p w m :
  messages w !! mid = Some m →
  ∃ w', db.patch_message mid p w = (Returned tt, w')
        ∧ kept aiMessageId w w'.
Proof.
  intros Hm. unfold db.patch_message. rewrite Hm. eexists. split; [done |].
  intros m0 Hm0. simpl. destruct (decide (mid = aiMessageId)) as [->|Hne].
  - rewrite lookup_insert_eq. eexists. split; [done |].
    rewrite Hm in Hm0. injection Hm0 as ->. by destruct m0.
  - rewrite lookup_insert_ne by done. by exists m0.
Qed.

Lemma safe_appendMessageContent limit mid delta :
  returnsKeeping aiMessageId (appendMessageContentWithin limit mid delta).
Proof.
  intros w. unfold appendMessageContentWithin, db.get_message.
  unfold mbind, M_bind at 1. unfold gets.
  destruct (messages w !! mid) as [m|] eqn:Hm.
  - destruct (_ >? _).
    + unfold mbind, M_bind, console_write, modify.
      destruct (_ <=? _);
        [eexists tt, _; split; [done | apply kept_console] |].
      edestruct (safe_patch_message mid) as (w' & Hrun & Hkeep);
        [| exists tt, w'; split;
           [exact Hrun | eapply kept_trans; [apply kept_console | exact Hkeep]]].
      exact Hm.
    + edestruct (safe_patch_message mid) as (w' & Hrun & Hkeep);
        [exact Hm | exists tt, w'; split; [exact Hrun | exact Hkeep]].
  - apply safe_console.
Qed.

Lemma safe_updateReasoningSummary mid summary :
  returnsKeeping aiMessageId (updateReasoningSummary mid summary).
Proof.
  intros w. unfold updateReasoningSummary, db.get_message.
  unfold mbind, M_bind at 1. unfold gets.
  destruct (messages w !! mid) as [m|] eqn:Hm; [| apply safe_console].
  edestruct (safe_patch_message mid) as (w' & Hrun & Hkeep);
    [exact Hm | exists tt, w'; split; [exact Hrun | exact Hkeep]].
Qed.

Lemma safe_markMessageComplete args :
  returnsKeeping aiMessageId (markMessageComplete args).
Proof.
  intros w. unfold markMessageComplete, db.get_message.
  unfold mbind, M_bind at 1. unfold gets.
  destruct (messages w !! mc_messageId args) as [m|] eqn:Hm;
    [| apply safe_console].
  edestruct (safe_patch_message (mc_messageId args))
    as (w' & Hrun & Hkeep);
    [exact Hm | exists tt, w'; split; [exact Hrun | exact Hkeep]].
Qed.

Lemma safe_markMessageError mid :
  returnsKeeping aiMessageId (markMessageError mid).
Proof.
  intros w. unfold markMessageError, db.get_message.
  unfold mbind, M_bind at 1. unfold gets.
  destruct (messages w !! mid) as [m|] eqn:Hm; [| apply safe_console].
  edestruct (safe_patch_message mid) as (w' & Hrun & Hkeep);
    [exact Hm | exists tt, w'; split; [exact Hrun | exact Hkeep]].
Qed.

Lemma safe_updateConversationResponseId c responseId :
  returnsKeeping aiMessageId (updateConversationResponseId c responseId).
Proof.
  intros w. unfold updateConversationResponseId, db.get_conversation,
    db.patch_conversation.
  unfold mbind, M_bind at 1. unfold gets.
  destruct (conversations w !! c) as [x|] eqn:Hc; [| apply safe_console].
  rewrite Hc. eexists tt, _. split; [done |]. intros m Hm. by exists m.
Qed.

Lemma safe_forEach {A} (f : A → M unit) xs :
  (∀ x, returnsKeeping aiMessageId (f x)) →
  returnsKeeping aiMessageId (forEach f xs).
Proof.
  intros Hf. induction xs as [|x xs IH]; simpl; [apply safe_ret |].
  apply safe_bind; [apply Hf | by intros _].
Qed.

Lemma safe_logAnnotation a : returnsKeeping aiMessageId (logAnnotation a).
Proof.
  destruct a; simpl; [apply safe_console | apply safe_console |
                      apply safe_ret].
Qed.

Lemma yields_seq {A} (h : M unit) (k : M A) a :
  returnsKeeping aiMessageId h →
  yieldsKeeping aiMessageId k a →
  yieldsKeeping aiMessageId (h;; k) a.
Proof.
  intros Hh Hk w. destruct (Hh w) as ([] & w1 & Hrun & Hkeep).
  destruct (Hk w1) as (w2 & Hrun2 & Hkeep2).
  exists w2. unfold mbind, M_bind. rewrite Hrun.
  split; [done | by eapply kept_trans].
Qed.

Lemma yields_ret {A} (a : A) : yieldsKeeping aiMessageId (mret a) a.
Proof. intros w. exists w. split; [done | apply kept_refl]. Qed.

Lemma yields_perEvent t body r :
  yieldsKeeping aiMessageId body r →
  yieldsKeeping aiMessageId (perEvent t body) r.
Proof.
  intros Hb w. destruct (Hb w) as (w' & Hrun & Hkeep).
  exists w'. unfold perEvent, try_catch. by rewrite Hrun.
Qed.

(** One iteration never throws, leaves the locals as [stepLocals] says,
    and keeps the assistant message in place. *)
Lemma onEvent_locals t event :
  yieldsKeeping aiMessageId (onEvent conv aiMessageId t event)
    (stepLocals t event).
Proof.
  destruct event; simpl.
  - apply yields_ret.
  - apply yields_perEvent, yields_seq; [| apply yields_ret].
    apply safe_runMutation, safe_appendMessageContent.
  - apply yields_perEvent, yields_seq; [| apply yields_ret].
    apply safe_runMutation, safe_updateReasoningSummary.
  - apply yields_perEvent, yields_seq; [| apply yields_ret].
    apply safe_runMutation, safe_updateReasoningSummary.
  - apply yields_seq; [| apply yields_ret].
    apply safe_forEach, safe_logAnnotation.
  - apply yields_perEvent, yields_seq;
      [apply safe_runMutation, safe_markMessageComplete |].
    apply yields_seq;
      [apply safe_runMutation, safe_updateConversationResponseId |].
    apply yields_seq; [apply safe_console | apply yields_ret].
  - apply yields_ret.
Qed.

Lemma forAwait_locals t events :
  yieldsKeeping aiMessageId (forAwait conv aiMessageId t events)
    (locals t events).
Proof.
  revert t. induction events as [|event events IH]; intros t w; simpl.
  - exists w. split; [done | apply kept_refl].
  - destruct (onEvent_locals t event w) as (w1 & Hrun & Hkeep).
    unfold mbind, M_bind. rewrite Hrun.
    destruct (stepLocals t event) as [t' [|]].
    + by exists w1.
    + destruct (IH t' w1) as (w2 & Hrun2 & Hkeep2).
      exists w2. split; [done | by eapply kept_trans].
Qed.

(** The locals at the end of the loop, in terms of the stream. *)
Lemma locals_spec t events :
  fullContent (locals t events).1 = fullContent t ++ accumulated events
  ∧ citationsOf (locals t events).1
    = addAnnotations (citationsOf t) (annotationsSeen events).
Proof.
  revert t. induction events as [|event events IH]; intros t.
  - simpl. by rewrite app_empty_r.
  - destruct event; simpl;
      first [ by rewrite app_empty_r
            | edestruct IH as [H1 H2]; rewrite H1, H2; simpl;
              split; [by rewrite ?app_assoc_string |];
              unfold addAnnotations; by rewrite ?foldl_app ].
Qed.

End Loop.

(** C3: the citation list that the loop holds when it ends is the list of
    the annotation events it met (those of the mid-stream
    [response.output_text.done] events, then those of the
    [response.completed] event), each turned into a citation with the
    defaults ["unknown"] and ["Web Result"], where an event is kept exactly
    when no earlier event had its key (the file id for a file citation,
    the url for a url citation). So keys are not repeated, the order is
    that of first appearance, every event's key is present, and each kept
    citation is the first event of its key, with that event's file name or
    title. The loop itself never throws. The spec's example yields two
    citations, the file one named ["a.pdf"], and so does a whole turn
    whose stream brings the four events, two mid-stream and two with
    [response.completed]: they are what the assistant message stores. *)
Theorem citations_are_first_seen conv mid events w :
  let cs := omap citationOf (annotationsSeen events) in
  (∃ t stop w',
     forAwait conv mid newTurn events w = (Returned (t, stop), w')
     ∧ citationsOf t = firstSeen [] cs
     ∧ NoDup (keyOf <$> citationsOf t)
     ∧ citationsOf t `sublist_of` cs
     ∧ (∀ c, c ∈ cs → keyOf c ∈ keyOf <$> citationsOf t)
     ∧ (∀ c, c ∈ citationsOf t →
          ∃ before after,
            cs = (before ++ c :: after)%list
            ∧ keyOf c ∉ keyOf <$> before))
  ∧ (∀ fileId, addAnnotations [] [file_citation fileId None]
               = [CiteFile fileId "unknown"])
  ∧ (∀ url, addAnnotations [] [url_citation url None]
            = [CiteUrl url "Web Result"])
  ∧ addAnnotations []
      [ file_citation "f1" (Some "a.pdf");
        file_citation "f1" (Some "a.pdf");
        url_citation "u1" (Some "t1");
        file_citation "f1" (Some "renamed.pdf") ]
    = [CiteFile "f1" "a.pdf"; CiteUrl "u1" "t1"]
  ∧ citations <$>
      messages (generateAiResponse citingProvider 10 askingWorld).2 !! 1%nat
    = Some (Some [CiteFile "f1" "a.pdf"; CiteUrl "u1" "t1"]).
Proof.
  intros cs. split; [| repeat split; by vm_compute].
  destruct (forAwait_locals conv mid newTurn events w) as (w' & Hrun & _).
  destruct (locals_spec newTurn events) as [_ Hcites].
  destruct (locals newTurn events) as [t stop]. simpl in Hcites.
  rewrite addAnnotations_firstSeen in Hcites. simpl in Hcites. fold cs in Hcites.
  exists t, stop, w'. split; [exact Hrun |]. rewrite Hcites.
  split; [done |]. split; [apply firstSeen_NoDup |].
  split; [apply firstSeen_sublist |]. split.
  - intros c Hc. destruct (firstSeen_covers [] cs c Hc) as [H|H]; [| done].
    by apply elem_of_nil in H.
  - intros c Hc. by apply (firstSeen_is_first []).
Qed.

(** ** One turn *)

Lemma getConversation_found conv c w :
  conversations w !! conv = Some c →
  getConversation conv None w = (Returned (Some c), w).
Proof.
  intros Hc. unfold getConversation, db.get_conversation. unfold_monad.
  by rewrite Hc.
Qed.

Lemma storeAiMessage_typing conv w :
  runMutation (storeAiMessage
    (mkStoreAiMessageArgs conv EmptyString (Some typing) None None None None))
    w
  = (Returned (nextId w),
     set_nextId (S (nextId w))
       (set_messages (<[nextId w := placeholder conv]> (messages w)) w)).
Proof. reflexivity. Qed.

Lemma markMessageError_found mid m w :
  messages w !! mid = Some m →
  markMessageError mid w
  = (Returned tt,
     set_messages (<[mid := withStatus error m]> (messages w)) w).
Proof.
  intros Hm. unfold markMessageError, db.get_message, db.patch_message.
  unfold_monad. rewrite Hm. simpl. by rewrite Hm.
Qed.

Lemma markMessageError_fails mid m0 w0 w :
  kept mid w0 w →
  messages w0 !! mid = Some m0 →
  ∃ w' m,
    runMutation (markMessageError mid) w = (Returned tt, w')
    ∧ messages w' !! mid = Some m ∧ status m = Some error
    ∧ author m = author m0 ∧ conversationId m = conversationId m0.
Proof.
  intros Hkept Hm0. destruct (Hkept m0 Hm0) as (m & Hm & Ha & Hc).
  eexists _, (withStatus error m).
  split; [apply runMutation_returned, (markMessageError_found _ _ _ Hm) |].
  simpl. rewrite lookup_insert_eq. split; [done |]. by destruct m.
Qed.

(** A turn whose accumulated content is blank ends with the assistant
    message in status [error], whether the stream ends cleanly, stops at
    [response.completed], or fails in transit. *)
Lemma driveTurn_blank_fails p request conv mid events failure m0 w :
  responses_create p request = Streams events failure →
  JS.trim (accumulated events) = EmptyString →
  messages w !! mid = Some m0 →
  ∃ w' m,
    driveTurn p request conv mid w = (Returned tt, w')
    ∧ messages w' !! mid = Some m ∧ status m = Some error
    ∧ author m = author m0 ∧ conversationId m = conversationId m0.
Proof.
  intros Hreply Hblank Hm0.
  unfold driveTurn, streamResponse. rewrite Hreply. unfold try_catch.
  destruct (forAwait_locals conv mid newTurn events w)
    as (w1 & Hrun & Hkeep).
  destruct (locals_spec newTurn events) as [Hfull _].
  rewrite (bind_returned _ _ _ _ _ Hrun).
  destruct (locals newTurn events) as [t stop]. simpl in Hfull.
  rewrite app_nil in Hfull. cbn beta iota.
  assert (∀ w2, kept mid w w2 →
            ∃ w' m,
              (if negb (JS.truthy (JS.trim (fullContent t))) then
                 console_write console_warn
                   "No content generated in OpenAI response";;
                 runMutation (markMessageError mid)
               else mret tt) w2 = (Returned tt, w')
              ∧ messages w' !! mid = Some m ∧ status m = Some error
              ∧ author m = author m0
              ∧ conversationId m = conversationId m0)
    as Hcheck.
  { intros w2 Hw2. rewrite Hfull, Hblank. simpl.
    rewrite (bind_returned (console_write _ _) _ tt w2 _ eq_refl).
    apply (markMessageError_fails mid m0 w); [| done].
    eapply kept_trans; [exact Hw2 | apply kept_console]. }
  destruct stop.
  - rewrite (bind_returned (mret tt) _ tt w1 w1 eq_refl).
    destruct (Hcheck w1 Hkeep) as (w' & m & Hr & Hm).
    exists w', m. by rewrite Hr.
  - destruct failure as [e|].
    + rewrite (bind_threw (throw e) _ e w1 w1 eq_refl).
      unfold onGenerationError.
      rewrite (bind_returned (console_write _ _) _ tt w1 _ eq_refl).
      destruct (safe_runMutation mid _
                  (safe_appendMessageContent mid MAX_MESSAGE_SIZE mid
                     "Sorry, I encountered an error while generating a response.")
                  (set_console
                     (console w1
                        ++ [mkLog console_error
                              "Error during OpenAI response generation:"])
                     w1))
        as ([] & w2 & Hr2 & Hkeep2).
      unfold appendMessageContent.
      rewrite (bind_returned _ _ _ _ _ Hr2).
      apply (markMessageError_fails mid m0 w); [| done].
      eapply kept_trans; [exact Hkeep |].
      eapply kept_trans; [apply kept_console | exact Hkeep2].
    + rewrite (bind_returned (mret tt) _ tt w1 w1 eq_refl).
      destruct (Hcheck w1 Hkeep) as (w' & m & Hr & Hm).
      exists w', m. by rewrite Hr.
Qed.

(** C4: when the conversation and its last user message are there, the
    message has something to send and its time zone is known, a turn
    whose stream carries no content up to its [response.completed] event
    (no delta at all, or deltas that are blank together) returns and
    leaves the assistant message it created, the one with the next id,
    in status [error]. This holds as well when the stream ends without
    [response.completed] or fails in transit. *)
Theorem empty_turn_finalizes_as_error p conv c k um tf events failure w :
  conversations w !! conv = Some c →
  getLastUserMessage conv w = (Returned (Some (k, um)), w) →
  inputContentOf um ≠ [] →
  toLocaleString p (JS.or_else (timezone um) "UTC") = Some tf →
  (∀ request, responses_create p request = Streams events failure) →
  JS.trim (accumulated events) = EmptyString →
  ∃ w' m,
    generateAiResponse p conv w = (Returned tt, w')
    ∧ messages w' !! nextId w = Some m
    ∧ author m = assistant
    ∧ status m = Some error.
Proof.
  intros Hc Hlast Hinput Htz Hreply Hblank.
  unfold generateAiResponse, try_catch.
  rewrite (bind_returned _ _ _ _ _ (getConversation_found conv c w Hc)).
  rewrite (bind_returned _ _ _ _ _ Hlast).
  rewrite bool_decide_eq_false_2 by done.
  set (selected := JS.or_else (model um) "gpt-4.1").
  assert (∃ l sel,
            (if negb (isSupportedModel selected) then
               console_write console_error
                 ("Unsupported model in message: " ++ selected
                    ++ ", falling back to gpt-4.1");;
               mret "gpt-4.1"
             else mret selected) w
            = (Returned sel, set_console (console w ++ l) w))
    as (l & sel & Hsel).
  { destruct (negb (isSupportedModel selected)).
    - by eexists [_], _.
    - exists [], selected. unfold mret, M_ret. f_equal.
      destruct w; simpl. by rewrite app_nil_r. }
  rewrite (bind_returned _ _ _ _ _ Hsel).
  rewrite (bind_returned _ _ _ _ _ (storeAiMessage_typing conv _)).
  rewrite Htz. simpl nextId.
  match goal with
  | |- context [driveTurn p ?rq conv (nextId w) ?w1] =>
      destruct (driveTurn_blank_fails p rq conv (nextId w) events failure
                  (placeholder conv) w1 (Hreply rq) Hblank)
        as (w' & m & Hrun & Hm & Hs & Ha & _)
  end.
  { simpl. by rewrite lookup_insert_eq. }
  exists w', m. by rewrite Hrun.
Qed.

Lemma empty_turn_finalizes_as_error_example :
  ∃ w' m,
    generateAiResponse silentProvider 10 askingWorld = (Returned tt, w')
    ∧ messages w' !! 1%nat = Some m
    ∧ author m = assistant
    ∧ status m = Some error.
Proof.
  apply (empty_turn_finalizes_as_error silentProvider 10
           (mkConversation 1 "chat" (Some "resp_1") None (Some 100))
           0 askingMessage "1/1/2026, 12:00:00 AM UTC"
           [response_created "resp_2"; response_completed None] None
           askingWorld);
    [reflexivity | by vm_compute | discriminate | reflexivity
    | reflexivity | reflexivity].
Defined.

(** C1, where the code departs from it: the conversation holds the token
    ["resp_1"]; the provider's stream is created as ["resp_2"], carries no
    content and completes cleanly. The turn returns, the assistant
    message ends in status [error], and the conversation's
    [lastResponseId] is now ["resp_2"]. *)
Theorem empty_turn_moves_continuation_token :
  ∃ w',
    generateAiResponse silentProvider 10 askingWorld = (Returned tt, w')
    ∧ lastResponseId <$> conversations askingWorld !! 10%nat
      = Some (Some "resp_1")
    ∧ status <$> messages w' !! 1%nat = Some (Some error)
    ∧ lastResponseId <$> conversations w' !! 10%nat = Some (Some "resp_2").
Proof.
  eexists. split; [by vm_compute |]. by vm_compute.
Qed.

(** ** Uploading files and sending a message *)

Section Upload.

Variable c : Cloud.
Variable files : list ConvexFile.

Implicit Types (u : Upload) (f : ConvexFile) (w : World).

Lemma set_console_app w (l1 l2 : list LogEntry) :
  set_console (console (set_console (console w ++ l1) w) ++ l2)
    (set_console (console w ++ l1) w)
  = set_console (console w ++ (l1 ++ l2)) w.
Proof. destruct w; simpl. by rewrite List.app_assoc. Qed.

Lemma set_console_nil w : set_console (console w ++ []) w = w.
Proof. destruct w; simpl. by rewrite app_nil_r. Qed.

Lemma onlyLogs_ret {A} (a : A) : onlyLogs (mret a) a.
Proof. intros w. exists []. by rewrite set_console_nil. Qed.

Lemma onlyLogs_console l s : onlyLogs (console_write l s) tt.
Proof. intros w. by eexists [_]. Qed.

Lemma onlyLogs_bind {A B} (h : M A) (k : A → M B) a b :
  onlyLogs h a → onlyLogs (k a) b → onlyLogs (h ≫= k) b.
Proof.
  intros Hh Hk w. destruct (Hh w) as [l1 H1].
  destruct (Hk (set_console (console w ++ l1) w)) as [l2 H2].
  exists (l1 ++ l2)%list.
  by rewrite (bind_returned _ _ _ _ _ H1), H2, set_console_app.
Qed.

(** The loop over the files touches nothing but the console. *)
Lemma afterUpload_locals u f fileSize id :
  onlyLogs (afterUpload c files u f fileSize id)
    (localsAfterUpload c files u f fileSize id).
Proof.
  unfold afterUpload, localsAfterUpload. cbn zeta.
  eapply onlyLogs_bind; [apply onlyLogs_console |].
  cbn [vectorStoreIdOf conversationVectorStoreId].
  destruct (truthyOpt (vectorStoreIdOf u)).
  - destruct (vectorStores_files_create c _ id).
    + eapply onlyLogs_bind; [| apply onlyLogs_ret].
      eapply onlyLogs_bind; [apply onlyLogs_console | apply onlyLogs_ret].
    + eapply onlyLogs_bind; [| apply onlyLogs_ret].
      eapply onlyLogs_bind; [apply onlyLogs_console | apply onlyLogs_ret].
  - destruct (_ && _)%bool.
    + eapply onlyLogs_bind; [apply onlyLogs_ret | apply onlyLogs_ret].
    + eapply onlyLogs_bind; [apply onlyLogs_ret | apply onlyLogs_ret].
Qed.

Lemma processFile_locals u f :
  onlyLogs (processFile c files u f) (localsAfterFile c files u f).
Proof.
  unfold processFile, localsAfterFile.
  destruct (negb _);
    [eapply onlyLogs_bind; [apply onlyLogs_console | apply onlyLogs_ret] |].
  destruct (storage_get c _) as [blob|];
    [| eapply onlyLogs_bind; [apply onlyLogs_console | apply onlyLogs_ret]].
  destruct (_ >? _);
    [eapply onlyLogs_bind; [apply onlyLogs_console | apply onlyLogs_ret] |].
  destruct (files_create c _ _); [apply afterUpload_locals |].
  eapply onlyLogs_bind; [apply onlyLogs_console | apply onlyLogs_ret].
Qed.

Lemma processFiles_locals u rest :
  onlyLogs (processFiles c files u rest)
    (foldl (localsAfterFile c files) u rest).
Proof.
  revert u. induction rest as [|f rest IH]; intros u; simpl.
  - apply onlyLogs_ret.
  - eapply onlyLogs_bind; [apply processFile_locals | apply IH].
Qed.

(** What one file does to the locals, in terms of [uploadOf]. *)
Lemma localsAfterFile_spec u f :
  vectorStoreIdOf u = conversationVectorStoreId u →
  let u' := localsAfterFile c files u f in
  errorsOf u'
  = (errorsOf u ++ errorsFor c (vectorStoreIdOf u) files f)%list
  ∧ uploadedOpenAIFileIds u'
    = (uploadedOpenAIFileIds u ++ uploadedIds c [f])%list
  ∧ vectorStoreIdOf u' = vectorStoreIdOf u
  ∧ conversationVectorStoreId u' = conversationVectorStoreId u.
Proof.
  intros Hvs. unfold localsAfterFile, errorsFor, uploadedIds, uploadOf.
  simpl omap.
  destruct (negb _); [simpl; by rewrite app_nil_r |].
  destruct (storage_get c _) as [blob|]; [| simpl; by rewrite app_nil_r].
  destruct (_ >? _); [simpl; by rewrite app_nil_r |].
  destruct (files_create c _ _) as [id|e]; [| simpl; by rewrite app_nil_r].
  unfold localsAfterUpload, indexNotes. cbn zeta.
  cbn [vectorStoreIdOf conversationVectorStoreId].
  rewrite <- Hvs.
  destruct (truthyOpt (vectorStoreIdOf u)).
  - destruct (vectorStores_files_create c _ id); simpl;
      by rewrite ?app_nil_r.
  - rewrite andb_true_r.
    destruct (0 <? _); simpl; by rewrite ?app_nil_r.
Qed.

Lemma localsAfterFiles_spec u rest :
  vectorStoreIdOf u = conversationVectorStoreId u →
  let u' := foldl (localsAfterFile c files) u rest in
  errorsOf u'
  = (errorsOf u ++ (rest ≫= errorsFor c (vectorStoreIdOf u) files))%list
  ∧ uploadedOpenAIFileIds u'
    = (uploadedOpenAIFileIds u ++ uploadedIds c rest)%list
  ∧ vectorStoreIdOf u' = vectorStoreIdOf u.
Proof.
  revert u. induction rest as [|f rest IH]; intros u Hvs; simpl.
  - by rewrite !app_nil_r.
  - destruct (localsAfterFile_spec u f Hvs) as (He & Hi & Hv & Hcv).
    destruct (IH (localsAfterFile c files u f)) as (He' & Hi' & Hv');
      [congruence |].
    rewrite He', Hi', Hv', He, Hi, Hv, <- !List.app_assoc.
    split; [done |]. split; [| done]. f_equal.
    unfold uploadedIds. simpl. by destruct (uploadOf c f).
Qed.

Lemma ensureVectorStore_spec conv c0 w :
  conversations w !! conv = Some c0 →
  ∃ w1 c1,
    ensureVectorStore c conv c0 files w
    = (Returned
         (mkUpload (vectorStoreFor c conv c0 files).2
            (vectorStoreFor c conv c0 files).1
            (vectorStoreFor c conv c0 files).1 [] [] [] []), w1)
    ∧ w1 = set_console (console w1)
             (set_conversations (conversations w1) w)
    ∧ conversations w1 !! conv = Some c1.
Proof.
  intros Hc. unfold ensureVectorStore, vectorStoreFor.
  destruct (_ && _)%bool.
  - destruct (vectorStores_create c _) as [vs|e].
    + unfold try_catch, updateConversationVectorStore, runMutation,
        db.patch_conversation.
      unfold mbind, M_bind at 1. rewrite Hc. simpl.
      eexists _, _. split; [done |]. split; [done |].
      simpl. by rewrite lookup_insert_eq.
    + simpl. exists (set_console
                       (console w
                          ++ [mkLog console_error
                                "Failed to create vector store:"]) w), c0.
      split; [done |]. split; [| done]. by destruct w.
  - exists w, c0. split; [done |]. split; [| done]. by destruct w.
Qed.

End Upload.

(** ** The index stays answerable *)

Section IndexOk.

Implicit Types (w : World) (fid : string).

Lemma indexOk_filter w :
  indexOk w ↔
  ∀ fid,
    (filter (λ kv : nat * FileMessageMapping, openaiFileId kv.2 = fid)
       (fileMessageMappings w) : gmap nat FileMessageMapping) = ∅
    ∨ ∃ k e,
        (filter (λ kv : nat * FileMessageMapping, openaiFileId kv.2 = fid)
           (fileMessageMappings w) : gmap nat FileMessageMapping)
        = {[ k := e ]}.
Proof.
  split; intros H fid.
  - destruct (H fid) as [r Hr]. rewrite unique_of_filter in Hr.
    destruct (map_to_list _) as [|[k e] [|kv' rest]] eqn:Hl; [| | done].
    + left. by apply map_to_list_empty_iff.
    + right. exists k, e.
      rewrite <- (list_to_map_to_list (filter _ _)), Hl. simpl.
      by rewrite insert_empty.
  - rewrite unique_of_filter. destruct (H fid) as [->|(k & e & ->)].
    + rewrite map_to_list_empty. by eexists.
    + rewrite map_to_list_singleton. by eexists.
Qed.

Lemma indexOk_insert w k e :
  indexOk w →
  (filter (λ kv : nat * FileMessageMapping,
             openaiFileId kv.2 = openaiFileId e)
     (fileMessageMappings w) : gmap nat FileMessageMapping) = ∅ →
  indexOk (set_nextId (S (nextId w))
             (set_fileMessageMappings
                (<[k := e]> (fileMessageMappings w)) w)).
Proof.
  intros Hok Hnone. apply indexOk_filter. intros fid.
  simpl fileMessageMappings.
  destruct (decide (openaiFileId e = fid)) as [<-|Hne].
  - right. exists k, e.
    rewrite map_filter_insert_True by done.
    by rewrite Hnone, insert_empty.
  - rewrite map_filter_insert_False by done.
    rewrite map_filter_delete.
    destruct (proj1 (indexOk_filter w) Hok fid) as [->|(k0 & e0 & ->)].
    + left. apply delete_empty.
    + destruct (decide (k = k0)) as [->|Hk].
      * left. apply delete_singleton_eq.
      * right. exists k0, e0. by apply delete_singleton_ne.
Qed.

(** One [createUserFileMapping] on an answerable index returns, keeps
    the index answerable, and touches only the index and the id
    counter. *)
Lemma createUserFileMapping_ok args w :
  indexOk w →
  ∃ w',
    runMutation (createUserFileMapping args) w = (Returned tt, w')
    ∧ indexOk w'
    ∧ messages w' = messages w
    ∧ conversations w' = conversations w
    ∧ scheduled w' = scheduled w.
Proof.
  intros Hok. unfold runMutation. rewrite createUserFileMapping_cases.
  destruct (Hok (cm_openaiFileId args)) as [r Hr].
  rewrite unique_of_filter in Hr.
  destruct (map_to_list _) as [|kv [|kv' rest]] eqn:Hl; [| | done].
  - eexists. split; [done |]. split; [| done].
    apply (indexOk_insert w (nextId w) (entryOf args (now w)) Hok).
    by apply map_to_list_empty_iff.
  - by exists w.
Qed.

Lemma createUserFileMappings_ok uid conv msg items w :
  indexOk w →
  ∃ w',
    runMutation (createUserFileMappings uid conv msg items) w
    = (Returned tt, w')
    ∧ indexOk w'
    ∧ messages w' = messages w
    ∧ conversations w' = conversations w
    ∧ scheduled w' = scheduled w.
Proof.
  intros Hok.
  cut (∃ w', createUserFileMappings uid conv msg items w = (Returned tt, w')
             ∧ indexOk w' ∧ messages w' = messages w
             ∧ conversations w' = conversations w
             ∧ scheduled w' = scheduled w).
  { intros (w' & Hrun & H). exists w'.
    split; [by apply runMutation_returned | done]. }
  unfold createUserFileMappings. revert w Hok.
  induction items as [|item items IH]; intros w Hok; simpl.
  - by exists w.
  - destruct (createUserFileMapping_ok
                (mkCreateUserFileMappingArgs (fm_openaiFileId item)
                   (fm_fileName item) uid (fm_storageId item)
                   (fm_fileMimeType item) (fm_fileSize item) conv msg)
                w Hok) as (w1 & Hrun & Hok1 & Hm1 & Hc1 & Hs1).
    rewrite (bind_returned _ _ _ _ _ Hrun).
    destruct (IH w1 Hok1) as (w2 & Hrun2 & Hok2 & Hm2 & Hc2 & Hs2).
    exists w2. rewrite Hrun2. repeat split; [done | congruence ..].
Qed.

Lemma indexOk_same_table w w' :
  fileMessageMappings w' = fileMessageMappings w → indexOk w → indexOk w'.
Proof.
  intros Heq Hok. apply indexOk_filter. rewrite Heq.
  by apply indexOk_filter.
Qed.

End IndexOk.

Section Send.

Variable c : Cloud.

Lemma getConversation_owned conv c0 w :
  conversations w !! conv = Some c0 →
  getConversation conv (Some (userId c0)) w = (Returned (Some c0), w).
Proof.
  intros Hc. unfold getConversation, db.get_conversation. unfold_monad.
  rewrite Hc. by rewrite bool_decide_eq_false_2 by (by intros H).
Qed.

Lemma validModel_passes args w :
  validModel args = true →
  (match ua_model args with
   | Some m =>
       if JS.truthy m then
         if negb (isSupportedModel m) then throw ("Unsupported model: " ++ m)
         else if (bool_decide (is_Some (ua_thinkingIntensity args))
                  && negb (isThinkingModel m))%bool then
           throw "Thinking intensity can only be set for thinking models"
         else mret tt
       else mret tt
   | None => mret tt
   end) w = (Returned tt, w).
Proof.
  unfold validModel. destruct (ua_model args) as [m|]; [| done].
  destruct (JS.truthy m); [| done].
  destruct (isSupportedModel m); [| done]. simpl.
  by destruct (_ && _)%bool.
Qed.

Lemma uploadOf_cases f : fileFails c f ∨ fileSucceeds c f.
Proof.
  unfold fileFails, fileSucceeds.
  destruct (uploadOf c f) as [id|e]; [right | left]; by eexists.
Qed.

Lemma uploadedIds_nonempty files :
  Exists (fileSucceeds c) files → uploadedIds c files ≠ [].
Proof.
  unfold uploadedIds. induction 1 as [f files [id Hid]|f files _ IH]; simpl.
  - by rewrite Hid.
  - destruct (uploadOf c f); [done | exact IH].
Qed.

(** The run of [uploadFileAndSendMessage] when at least one file
    uploads. *)
Lemma upload_with_a_success args uid c0 w :
  uploadReady c args uid c0 w →
  Exists (fileSucceeds c) (ua_uploadedConvexFiles args) →
  ∃ w' m,
    uploadFileAndSendMessage c args w
    = (Returned
         (mkUploadResult true
            ((vectorStoreFor c (ua_conversationId args) c0
                (ua_uploadedConvexFiles args)).2
             ++ (ua_uploadedConvexFiles args
                   ≫= errorsFor c
                        (vectorStoreFor c (ua_conversationId args) c0
                           (ua_uploadedConvexFiles args)).1
                        (ua_uploadedConvexFiles args)))%list), w')
    ∧ messages w' !! nextId w = Some m
    ∧ author m = user
    ∧ conversationId m = ua_conversationId args
    ∧ content m = ua_content args
    ∧ fileIds m = Some (uploadedIds c (ua_uploadedConvexFiles args))
    ∧ (0, generateAiResponseJob (ua_conversationId args)) ∈ scheduled w'.
Proof.
  intros (Hauth & [usr Husr] & Hmodel & Hconv & Hown & Hne & Hmax & Hok)
    Hsome.
  unfold uploadFileAndSendMessage. cbn zeta.
  set (files := ua_uploadedConvexFiles args) in *.
  set (conv := ua_conversationId args) in *.
  rewrite Hauth.
  rewrite (bind_returned _ _ _ _ _ (getLoggedInUser_found uid usr w Husr)).
  cbn beta iota.
  rewrite (bind_returned _ _ _ _ _ (validModel_passes args w Hmodel)).
  subst uid.
  rewrite (bind_returned _ _ _ _ _ (getConversation_owned conv c0 w Hconv)).
  rewrite bool_decide_eq_false_2 by (by intros H).
  replace (Z.of_nat (length files) >? MAX_FILES) with false
    by (symmetry; rewrite Z.gtb_ltb; by apply Z.ltb_ge).
  destruct (ensureVectorStore_spec c files conv c0 w Hconv)
    as (w1 & c1 & Hens & Hw1 & Hc1).
  rewrite (bind_returned _ _ _ _ _ Hens).
  set (vs := (vectorStoreFor c conv c0 files).1) in *.
  set (storeErrs := (vectorStoreFor c conv c0 files).2) in *.
  set (u0 := mkUpload storeErrs vs vs [] [] [] []).
  destruct (processFiles_locals c files u0 files w1) as [l2 Hproc].
  rewrite (bind_returned _ _ _ _ _ Hproc).
  destruct (localsAfterFiles_spec c files u0 files eq_refl)
    as (Herrs & Hids & _).
  set (u := foldl (localsAfterFile c files) u0 files) in *.
  simpl in Herrs, Hids.
  set (w2 := set_console (console w1 ++ l2) w1).
  assert (uploadedOpenAIFileIds u ≠ []) as Hids_ne
    by (rewrite Hids; by apply uploadedIds_nonempty).
  assert (Nat.eqb (length (uploadedOpenAIFileIds u)) 0 = false) as ->
    by (destruct (uploadedOpenAIFileIds u); done).
  simpl andb. cbn iota.
  rewrite (bind_returned (mret tt) _ tt w2 w2 eq_refl).
  rewrite (bind_returned (getFirstMessage conv) _ _ w2 w2 eq_refl).
  match goal with
  | |- context [storeUserMessageWithVectorStore ?a] => set (stored := a)
  end.
  destruct (storeUserMessageWithVectorStore_bumps_updatedTime stored c1 w2)
    as (w3 & Hstore & Hm3 & Hc3); [exact Hc1 |].
  rewrite (bind_returned _ _ _ _ _ (runMutation_returned _ _ _ _ Hstore)).
  assert ((0 <? Z.of_nat (length (uploadedOpenAIFileIds u))) = true) as ->
    by (destruct (uploadedOpenAIFileIds u); [done | by apply Z.ltb_lt]).
  assert (indexOk w3) as Hok3.
  { apply (indexOk_same_table w); [| done].
    unfold storeUserMessageWithVectorStore, db.insert_message,
      db.patch_conversation in Hstore.
    unfold_monad. simpl in Hstore. rewrite Hc1 in Hstore.
    injection Hstore as <-. simpl. by rewrite Hw1. }
  destruct (createUserFileMappings_ok (userId c0) (Some conv)
              (Some (nextId w2))
              (fileMappingsOf (uploadedOpenAIFileIds u)
                 (originalFileNames u) (uploadedFilesMapping u)) w3 Hok3)
    as (w4 & Hmap & _ & Hm4 & _ & Hs4).
  rewrite (bind_returned _ _ _ _ _ Hmap).
  rewrite (bind_returned (runAfter _ _) _ tt w4 _ eq_refl).
  assert (nextId w2 = nextId w) as Hnext by (simpl; by rewrite Hw1).
  assert (messages w2 = messages w) as Hmsgs by (simpl; by rewrite Hw1).
  assert (messages w4 !! nextId w = Some (userMessageOf stored)) as Hm.
  { rewrite Hm4, Hm3, Hnext. apply lookup_insert_eq. }
  destruct (_ && _)%bool.
  - rewrite (bind_returned (runAfter _ _) _ tt _ _ eq_refl).
    unfold mret, M_ret. rewrite Herrs.
    eexists _, (userMessageOf stored). split; [done |].
    split; [exact Hm |]. split; [done |]. split; [done |]. split; [done |].
    split; [simpl; by rewrite Hids |].
    simpl. rewrite Hs4, !elem_of_app, !list_elem_of_singleton. tauto.
  - rewrite (bind_returned (mret tt) _ tt _ _ eq_refl).
    unfold mret, M_ret. rewrite Herrs.
    eexists _, (userMessageOf stored). split; [done |].
    split; [exact Hm |]. split; [done |]. split; [done |]. split; [done |].
    split; [simpl; by rewrite Hids |].
    simpl. rewrite Hs4, !elem_of_app, !list_elem_of_singleton. tauto.
Qed.

(** C10, as the code has it: for a known user who owns the conversation,
    with model checks passing, at least one file and at most [MAX_FILES],
    [uploadFileAndSendMessage] throws only when every file fails. When at
    least one file uploads it returns [success: true], has stored the
    user message (with the provider ids of the files that uploaded) and
    has scheduled [generateAiResponse]. Its [errors] are, in order: the
    vector-store creation error if that creation failed, then for each
    file either its one failure string, or, for a file that uploaded, at
    most one string saying that it could not be indexed. *)
Theorem upload_partial_failure args uid c0 w :
  uploadReady c args uid c0 w →
  let files := ua_uploadedConvexFiles args in
  let store := vectorStoreFor c (ua_conversationId args) c0 files in
  (∀ e w', uploadFileAndSendMessage c args w = (Threw e, w') →
           Forall (fileFails c) files)
  ∧ (Exists (fileSucceeds c) files →
     ∃ w' m,
       uploadFileAndSendMessage c args w
       = (Returned
            (mkUploadResult true
               (store.2 ++ (files ≫= errorsFor c store.1 files))%list), w')
       ∧ messages w' !! nextId w = Some m
       ∧ author m = user
       ∧ conversationId m = ua_conversationId args
       ∧ content m = ua_content args
       ∧ fileIds m = Some (uploadedIds c files)
       ∧ (0, generateAiResponseJob (ua_conversationId args)) ∈ scheduled w')
  ∧ (store.2 = [] ∨ store.2 = [vectorStoreCreationError])
  ∧ (∀ f e, uploadOf c f = Threw e → errorsFor c store.1 files f = [e])
  ∧ (∀ f, fileSucceeds c f →
          errorsFor c store.1 files f = []
          ∨ errorsFor c store.1 files f = [notIndexedError f]
          ∨ errorsFor c store.1 files f = [notSearchableError f]).
Proof.
  intros Hready files store. split; [| split; [| split; [| split]]].
  - intros e w' Hthrew. apply Forall_forall. intros f Hf.
    destruct (uploadOf_cases f) as [Hfail|Hok]; [done |].
    destruct (upload_with_a_success args uid c0 w Hready) as (? & ? & Hr & _).
    { apply Exists_exists. by exists f. }
    rewrite Hr in Hthrew. discriminate.
  - apply (upload_with_a_success args uid c0 w Hready).
  - subst store. unfold vectorStoreFor.
    destruct (_ && _)%bool; [| by left].
    destruct (vectorStores_create c _); [by left | by right].
  - intros f e He. unfold errorsFor. by rewrite He.
  - intros f [id Hid]. unfold errorsFor, indexNotes. rewrite Hid.
    destruct (truthyOpt _).
    + destruct (vectorStores_files_create c _ id); auto.
    + destruct (0 <? _); auto.
Qed.

End Send.

Lemma indexOk_empty w : fileMessageMappings w = ∅ → indexOk w.
Proof.
  intros He. apply indexOk_filter. intros fid. left.
  rewrite He. apply map_filter_empty.
Qed.

Lemma upload_partial_failure_example :
  ∃ w' m,
    uploadFileAndSendMessage healthyCloud oneGoodOneBadFile uploadWorld
    = (Returned
         (mkUploadResult true
            ["File b.exe has unsupported type: exe. Skipping."]), w')
    ∧ messages w' !! 20%nat = Some m
    ∧ content m = "see attached"
    ∧ fileIds m = Some ["file-a.pdf"]
    ∧ (0, generateAiResponseJob 10) ∈ scheduled w'.
Proof.
  destruct (upload_partial_failure healthyCloud oneGoodOneBadFile 1
              (mkConversation 1 "chat" None None None) uploadWorld)
    as (_ & Hsome & _).
  { repeat split; [by eexists | discriminate | by vm_compute |].
    by apply indexOk_empty. }
  destruct Hsome as (w' & m & Hrun & Hm & _ & _ & Hc & Hf & Hs).
  { apply Exists_cons_hd. by eexists. }
  exists w', m. split; [exact Hrun |]. by repeat split.
Defined.

(** C10 as stated fails on the count of error strings: the one file of
    this upload is stored by the provider, so no file fails, and the call
    returns [success: true] with two error strings, because the vector
    store could not be created. Besides, the call throws on an
    unsupported model whatever becomes of the files. *)
Lemma upload_errors_without_failed_file :
  (Forall (fileSucceeds noVectorStoreCloud)
     (ua_uploadedConvexFiles oneGoodFile)
   ∧ (uploadFileAndSendMessage noVectorStoreCloud oneGoodFile uploadWorld).1
     = Returned
         (mkUploadResult true
            [ "Failed to create vector store for file search";
              notSearchableError (mkConvexFile 5 "a.pdf") ])
   ∧ notSearchableError (mkConvexFile 5 "a.pdf")
     = "File a.pdf uploaded but not searchable due to vector store creation failure")
  ∧ (Forall (fileSucceeds healthyCloud)
       (ua_uploadedConvexFiles oneGoodFileBadModel)
     ∧ (uploadFileAndSendMessage healthyCloud oneGoodFileBadModel
          uploadWorld).1
       = Threw "Unsupported model: gpt-5").
Proof.
  split.
  - split; [repeat constructor; by eexists |]. split; by vm_compute.
  - split; [repeat constructor; by eexists | by vm_compute].
Qed.

(** ** Where the continuation token is written *)

Section Tokens.

Lemma sameTokens_refl w : sameTokens w w.
Proof. by intros k. Qed.

Lemma sameTokens_trans w1 w2 w3 :
  sameTokens w1 w2 → sameTokens w2 w3 → sameTokens w1 w3.
Proof. intros H12 H23 k. by rewrite H23, H12. Qed.

Lemma sameTokens_conversations w w' :
  conversations w' = conversations w → sameTokens w w'.
Proof. intros H k. by rewrite H. Qed.

Lemma keepsTokens_ret {A} (a : A) : keepsTokens (mret a).
Proof. intros w. apply sameTokens_refl. Qed.

Lemma keepsTokens_throw {A} e : keepsTokens (@throw A e).
Proof. intros w. apply sameTokens_refl. Qed.

Lemma keepsTokens_gets {A} (f : World → A) : keepsTokens (gets f).
Proof. intros w. apply sameTokens_refl. Qed.

Lemma keepsTokens_console l s : keepsTokens (console_write l s).
Proof. intros w. by apply sameTokens_conversations. Qed.

Lemma keepsTokens_bind {A B} (h : M A) (k : A → M B) :
  keepsTokens h → (∀ a, keepsTokens (k a)) → keepsTokens (h ≫= k).
Proof.
  intros Hh Hk w. unfold mbind, M_bind. specialize (Hh w).
  destruct (h w) as [[a|e] w1]; [| exact Hh].
  eapply sameTokens_trans; [exact Hh | apply Hk].
Qed.

Lemma keepsTokens_try {A} (h : M A) (k : string → M A) :
  keepsTokens h → (∀ e, keepsTokens (k e)) → keepsTokens (try_catch h k).
Proof.
  intros Hh Hk w. unfold try_catch. specialize (Hh w).
  destruct (h w) as [[a|e] w1]; [exact Hh |].
  eapply sameTokens_trans; [exact Hh | apply Hk].
Qed.

Lemma keepsTokens_runMutation {A} (h : M A) :
  keepsTokens h → keepsTokens (runMutation h).
Proof.
  intros Hh w. unfold runMutation. specialize (Hh w).
  destruct (h w) as [[a|e] w1]; [exact Hh |].
  by apply sameTokens_conversations.
Qed.

Lemma keepsTokens_forEach {A} (f : A → M unit) xs :
  (∀ x, keepsTokens (f x)) → keepsTokens (forEach f xs).
Proof.
  intros Hf. induction xs as [|x xs IH]; simpl; [apply keepsTokens_ret |].
  apply keepsTokens_bind; [apply Hf | by intros _].
Qed.

Lemma keepsTokens_patch_message mid p : keepsTokens (db.patch_message mid p).
Proof.
  intros w. unfold db.patch_message.
  destruct (messages w !! mid); by apply sameTokens_conversations.
Qed.

Lemma keepsTokens_insert_message m : keepsTokens (db.insert_message m).
Proof. intros w. by apply sameTokens_conversations. Qed.

(** A patch of a conversation that carries no [lastResponseId]. *)
Lemma keepsTokens_patch_conversation conv p :
  p_lastResponseId p = None → keepsTokens (db.patch_conversation conv p).
Proof.
  intros Hp w. unfold db.patch_conversation.
  destruct (conversations w !! conv) as [c0|] eqn:Hc;
    [| apply sameTokens_refl].
  intros k. simpl. destruct (decide (conv = k)) as [<-|Hne].
  - rewrite lookup_insert_eq, Hc. simpl. by rewrite Hp.
  - by rewrite lookup_insert_ne.
Qed.

Lemma keepsTokens_appendMessageContent limit mid delta :
  keepsTokens (appendMessageContentWithin limit mid delta).
Proof.
  unfold appendMessageContentWithin, db.get_message.
  apply keepsTokens_bind; [apply keepsTokens_gets |].
  intros [m|]; [| apply keepsTokens_console].
  destruct (_ >? _); [| apply keepsTokens_patch_message].
  apply keepsTokens_bind; [apply keepsTokens_console | intros _].
  destruct (_ <=? _); [apply keepsTokens_ret | apply keepsTokens_patch_message].
Qed.

Lemma keepsTokens_updateReasoningSummary mid summary :
  keepsTokens (updateReasoningSummary mid summary).
Proof.
  unfold updateReasoningSummary, db.get_message.
  apply keepsTokens_bind; [apply keepsTokens_gets |].
  intros [m|]; [apply keepsTokens_patch_message | apply keepsTokens_console].
Qed.

Lemma keepsTokens_markMessageError mid : keepsTokens (markMessageError mid).
Proof.
  unfold markMessageError, db.get_message.
  apply keepsTokens_bind; [apply keepsTokens_gets |].
  intros [m|]; [apply keepsTokens_patch_message | apply keepsTokens_console].
Qed.

Lemma keepsTokens_storeAiMessage args : keepsTokens (storeAiMessage args).
Proof.
  unfold storeAiMessage.
  apply keepsTokens_bind; [apply keepsTokens_insert_message | intros id].
  apply keepsTokens_bind; [| intros _; apply keepsTokens_ret].
  destruct (bool_decide _); [| apply keepsTokens_ret].
  apply keepsTokens_bind; [apply keepsTokens_gets | intros t].
  by apply keepsTokens_patch_conversation.
Qed.

Lemma keepsTokens_getConversation conv forUser :
  keepsTokens (getConversation conv forUser).
Proof.
  unfold getConversation, db.get_conversation.
  apply keepsTokens_bind; [apply keepsTokens_gets |].
  intros [c0|]; [| apply keepsTokens_ret].
  destruct forUser as [uid|]; [| apply keepsTokens_ret].
  destruct (bool_decide _); [| apply keepsTokens_ret].
  apply keepsTokens_bind; [apply keepsTokens_console | intros _].
  apply keepsTokens_throw.
Qed.

Lemma keepsTokens_onEvent conv mid t event :
  (∀ output, event ≠ response_completed output) →
  keepsTokens (onEvent conv mid t event).
Proof.
  intros Hev. destruct event; simpl; try apply keepsTokens_ret.
  - apply keepsTokens_try.
    + apply keepsTokens_bind; [| intros _; apply keepsTokens_ret].
      apply keepsTokens_runMutation, keepsTokens_appendMessageContent.
    + intros _. apply keepsTokens_bind;
        [apply keepsTokens_console | intros _; apply keepsTokens_ret].
  - apply keepsTokens_try.
    + apply keepsTokens_bind; [| intros _; apply keepsTokens_ret].
      apply keepsTokens_runMutation, keepsTokens_updateReasoningSummary.
    + intros _. apply keepsTokens_bind;
        [apply keepsTokens_console | intros _; apply keepsTokens_ret].
  - apply keepsTokens_try.
    + apply keepsTokens_bind; [| intros _; apply keepsTokens_ret].
      apply keepsTokens_runMutation, keepsTokens_updateReasoningSummary.
    + intros _. apply keepsTokens_bind;
        [apply keepsTokens_console | intros _; apply keepsTokens_ret].
  - apply keepsTokens_bind; [| intros _; apply keepsTokens_ret].
    apply keepsTokens_forEach. intros [| |]; simpl;
      [apply keepsTokens_console | apply keepsTokens_console
      | apply keepsTokens_ret].
  - by destruct (Hev output).
Qed.

Lemma keepsTokens_forAwait conv mid t events :
  noCompleted events → keepsTokens (forAwait conv mid t events).
Proof.
  revert t. induction events as [|event events IH]; intros t Hno; simpl.
  - apply keepsTokens_ret.
  - apply keepsTokens_bind.
    + apply keepsTokens_onEvent. intros output ->.
      apply (Hno output). by left.
    + intros [t' [|]]; [apply keepsTokens_ret |].
      apply IH. intros output Hin. apply (Hno output). by right.
Qed.

(** The sound part of C1: a turn whose provider call rejects, or whose
    stream brings no [response.completed] event, leaves the continuation
    token of every conversation as it was, however the turn ends. *)
Lemma turn_without_completed_keeps_tokens p conv :
  (∀ request events failure,
     responses_create p request = Streams events failure →
     noCompleted events) →
  keepsTokens (generateAiResponse p conv).
Proof.
  intros Hp. unfold generateAiResponse.
  apply keepsTokens_try.
  - apply keepsTokens_bind; [apply keepsTokens_getConversation |].
    intros [c0|]; [| apply keepsTokens_console].
    apply keepsTokens_bind; [apply keepsTokens_gets |].
    intros [[k um]|]; [| apply keepsTokens_console].
    destruct (bool_decide _); [apply keepsTokens_console |].
    apply keepsTokens_bind.
    { destruct (negb _); [| apply keepsTokens_ret].
      apply keepsTokens_bind;
        [apply keepsTokens_console | intros _; apply keepsTokens_ret]. }
    intros selected.
    apply keepsTokens_bind;
      [apply keepsTokens_runMutation, keepsTokens_storeAiMessage |].
    intros mid. destruct (toLocaleString p _) as [tf|];
      [| apply keepsTokens_throw].
    unfold driveTurn. apply keepsTokens_try.
    + unfold streamResponse.
      match goal with
      | |- context [responses_create p ?rq] =>
          destruct (responses_create p rq) as [e|events failure] eqn:Hreply
      end; [apply keepsTokens_throw |].
      apply keepsTokens_bind;
        [apply keepsTokens_forAwait, (Hp _ _ _ Hreply) |].
      intros [t stop]. apply keepsTokens_bind.
      { destruct stop; [apply keepsTokens_ret |].
        destruct failure; [apply keepsTokens_throw | apply keepsTokens_ret]. }
      intros _. destruct (negb _); [| apply keepsTokens_ret].
      apply keepsTokens_bind; [apply keepsTokens_console | intros _].
      apply keepsTokens_runMutation, keepsTokens_markMessageError.
    + intros _. unfold onGenerationError.
      apply keepsTokens_bind; [apply keepsTokens_console | intros _].
      apply keepsTokens_bind;
        [apply keepsTokens_runMutation, keepsTokens_appendMessageContent |].
      intros _. apply keepsTokens_runMutation, keepsTokens_markMessageError.
  - intros _. apply keepsTokens_bind; [apply keepsTokens_console | intros _].
    apply keepsTokens_bind; [| intros _; apply keepsTokens_ret].
    apply keepsTokens_runMutation, keepsTokens_storeAiMessage.
Qed.

(** A turn with content that completes cleanly ends in status
    [completed] and moves the token to the new response id. *)
Example completed_turn_sets_token :
  let w' := (generateAiResponse citingProvider 10 askingWorld).2 in
  status <$> messages w' !! 1%nat = Some (Some completed)
  ∧ content <$> messages w' !! 1%nat = Some "See the file."
  ∧ lastResponseId <$> conversations w' !! 10%nat = Some (Some "resp_2").
Proof. by vm_compute. Qed.

End Tokens.

Lemma turn_without_completed_keeps_tokens_example :
  keepsTokens (generateAiResponse brokenProvider 10).
Proof.
  apply (turn_without_completed_keeps_tokens brokenProvider 10).
  intros request events failure [= <- _] output Ho.
  repeat (apply elem_of_cons in Ho as [Ho|Ho]; [discriminate |]).
  by apply elem_of_nil in Ho.
Defined.

(** ** File names, extensions and MIME types *)

Lemma lowerChar_idempotent c : JS.lowerChar (JS.lowerChar c) = JS.lowerChar c.
Proof. by destruct c as [[] [] [] [] [] [] [] []]. Qed.

Lemma toLowerCase_idempotent s :
  JS.toLowerCase (JS.toLowerCase s) = JS.toLowerCase s.
Proof.
  induction s as [|c s IH]; simpl; [done |].
  by rewrite lowerChar_idempotent, IH.
Qed.

(** A file name always has an extension, in lower case. *)
Lemma extensionOf_lower fileName :
  ∃ e, extensionOf fileName = Some e ∧ JS.toLowerCase e = e.
Proof.
  unfold extensionOf, JS.pop.
  destruct (last (JS.split "." fileName)) as [x|] eqn:Hx; simpl.
  - eexists. split; [done |]. apply toLowerCase_idempotent.
  - apply last_None in Hx. by destruct fileName; simpl in Hx;
      repeat case_match.
Qed.

(** The MIME type of a file name is what the table holds for its
    extension. *)
Lemma mimeType_of_name fileName e :
  extensionOf fileName = Some e →
  getMimeType fileName (Some e)
  = default "application/octet-stream"
      ((list_to_map mimeTypeMap : gmap string string) !! e).
Proof.
  intros He. unfold getMimeType. rewrite He.
  assert (∀ x : option string,
            match (list_to_map mimeTypeMap : gmap string string)
                    !! default EmptyString x with
            | Some t => if JS.truthy t then t else "application/octet-stream"
            | None => "application/octet-stream"
            end
            = default "application/octet-stream"
                ((list_to_map mimeTypeMap : gmap string string)
                   !! default EmptyString x)) as Hlook.
  { intros x. destruct (_ !! _) as [t|] eqn:Ht; [| done]. simpl in *.
    repeat (apply lookup_insert_Some in Ht as [[_ <-]|[_ Ht]]; [done |]).
    by rewrite lookup_empty in Ht. }
  destruct (JS.truthy e); apply (Hlook (Some e)).
Qed.

Lemma isSupportedFileExtension_lower e :
  JS.toLowerCase e = e →
  isSupportedFileExtension (Some e) = JS.includes SUPPORTED_FILE_TYPES e.
Proof.
  intros Hlow. unfold isSupportedFileExtension. rewrite Hlow.
  destruct (JS.truthy e) eqn:Ht; [done |].
  destruct e; [done | discriminate].
Qed.

(** A file whose extension is accepted gets a supported MIME type. *)
Lemma accepted_extension_type fileName :
  isSupportedFileExtension (extensionOf fileName) = true →
  isSupportedFileType (getMimeType fileName (extensionOf fileName)) = true.
Proof.
  destruct (extensionOf_lower fileName) as (e & He & Hlow).
  rewrite He, (mimeType_of_name _ _ He), (isSupportedFileExtension_lower _ Hlow).
  intros Hin.
  assert (e = "txt" ∨ e = "pdf" ∨ e = "docx") as [-> | [-> | ->]];
    [| reflexivity ..].
  unfold JS.includes, SUPPORTED_FILE_TYPES in Hin. simpl in Hin.
  rewrite !orb_true_iff, !String.eqb_eq in Hin.
  destruct Hin as [?|[?|[?|?]]];
    [by left | by right; left | by right; right | done].
Qed.

(** The two whitelists agree on file names: the extension of a name is a
    supported one exactly when the MIME type worked out for it is a
    supported one. *)
Theorem supported_extension_iff_supported_type fileName :
  isSupportedFileType (getMimeType fileName (extensionOf fileName))
  = isSupportedFileExtension (extensionOf fileName).
Proof.
  destruct (extensionOf_lower fileName) as (e & He & Hlow).
  rewrite He, (mimeType_of_name _ _ He), (isSupportedFileExtension_lower _ Hlow).
  unfold JS.includes, SUPPORTED_FILE_TYPES. simpl.
  destruct (decide (e = "txt")) as [->|?]; [done |].
  destruct (decide (e = "pdf")) as [->|?]; [done |].
  destruct (decide (e = "docx")) as [->|?]; [done |].
  rewrite !(proj2 (String.eqb_neq e _)) by done. simpl.
  destruct (_ !! e) as [t|] eqn:Ht; [| reflexivity]. simpl.
  repeat (apply lookup_insert_Some in Ht as [[? <-]|[_ Ht]];
          [reflexivity || congruence |]).
  by rewrite lookup_empty in Ht.
Qed.

(** ** The index queries *)

Lemma olderMessage_total : Total db.byCreation.
Proof. intros a b. unfold db.byCreation. lia. Qed.

Lemma olderMessage_trans : Transitive db.byCreation.
Proof. intros a b c. unfold db.byCreation. lia. Qed.

Lemma messagesOf_elem conv w k m :
  (k, m) ∈ db.messagesOf conv w
  ↔ messages w !! k = Some m ∧ conversationId m = conv.
Proof.
  unfold db.messagesOf. rewrite merge_sort_Permutation.
  rewrite elem_of_map_to_list. apply map_lookup_filter_Some.
Qed.

Lemma messagesOf_NoDup conv w : NoDup (db.messagesOf conv w).*1.
Proof.
  unfold db.messagesOf. rewrite merge_sort_Permutation.
  apply NoDup_fst_map_to_list.
Qed.

Lemma messagesOf_sorted conv w :
  StronglySorted db.byCreation (db.messagesOf conv w).
Proof.
  apply StronglySorted_merge_sort; [apply olderMessage_trans |].
  apply olderMessage_total.
Qed.

(** Deleting the documents of a list of distinct ids that are all there. *)
Lemma forEach_delete_message (l : list (nat * Message)) w :
  NoDup l.*1 →
  (∀ kv, kv ∈ l → is_Some (messages w !! kv.1)) →
  forEach (λ msg : nat * Message, db.delete_message msg.1) l w
  = (Returned tt,
     set_messages (filter (λ kv, kv.1 ∉ l.*1) (messages w)) w).
Proof.
  revert w. induction l as [|[k m] l IH]; intros w Hnd Hall; simpl.
  - unfold mret, M_ret. f_equal.
    rewrite map_filter_id; [by destruct w |].
    intros ? ? _. apply not_elem_of_nil.
  - apply NoDup_cons in Hnd as [Hk Hnd].
    destruct (Hall (k, m)) as [m0 Hm0]; [by left |]. simpl in Hm0.
    unfold mbind, M_bind, db.delete_message at 1. rewrite Hm0.
    rewrite IH; [| done |].
    + f_equal. unfold set_messages. simpl. f_equal. apply map_eq. intros i.
      apply option_eq. intros x.
      rewrite !map_lookup_filter_Some. simpl.
      rewrite lookup_delete_Some, not_elem_of_cons.
      split; [intros [[? ?] ?] | intros (? & ? & ?)]; repeat split; first [done | congruence | by intros ->].
    + intros kv Hkv. simpl. rewrite lookup_delete_ne.
      * apply Hall. by right.
      * intros ->. apply Hk. apply list_elem_of_fmap. by exists kv.
Qed.

(** The owner of a conversation deletes it: the conversation and the
    messages of that conversation are gone; the messages of every other
    conversation, the other conversations, the file index, the scheduled
    jobs and the console are as they were. *)
Theorem deleteConversation_removes_its_messages uid u conv c w :
  users w !! uid = Some u →
  conversations w !! conv = Some c →
  userId c = uid →
  deleteConversation (Some uid) conv w
  = (Returned tt,
     set_conversations (delete conv (conversations w))
       (set_messages
          (filter (λ kv : nat * Message, conversationId kv.2 ≠ conv)
             (messages w)) w)).
Proof.
  intros Hu Hc Hown. unfold deleteConversation.
  rewrite (bind_returned _ _ _ _ _ (getLoggedInUser_found uid u w Hu)).
  cbn beta iota.
  rewrite (bind_returned (db.get_conversation conv) _ (Some c) w w)
    by (unfold db.get_conversation, gets; by rewrite Hc).
  rewrite bool_decide_eq_false_2 by (simpl; intros H; apply H; congruence).
  rewrite (bind_returned (gets (db.messagesOf conv)) _ _ w w eq_refl).
  assert (∀ kv, kv ∈ db.messagesOf conv w → is_Some (messages w !! kv.1))
    as Hall.
  { intros [k m] Hin. apply messagesOf_elem in Hin as [Hm _]. by eexists. }
  rewrite (bind_returned _ _ _ _ _
             (forEach_delete_message (db.messagesOf conv w) w
                (messagesOf_NoDup conv w) Hall)).
  unfold db.delete_conversation. simpl. rewrite Hc. f_equal.
  unfold set_conversations, set_messages. simpl. f_equal.
  apply map_filter_ext. intros k m Hm. simpl.
  rewrite list_elem_of_fmap. split.
  - intros Hnot Hconv. apply Hnot. exists (k, m). split; [done |].
    by apply messagesOf_elem.
  - intros Hne ([k' m'] & -> & Hin). apply messagesOf_elem in Hin.
    simpl in *. destruct Hin as [Hm' Hconv]. congruence.
Qed.

Lemma deleteConversation_removes_its_messages_example :
  ∃ w',
    deleteConversation (Some 1%nat) 10 askingWorld = (Returned tt, w')
    ∧ conversations w' !! 10%nat = None
    ∧ messages w' !! 0%nat = None.
Proof.
  eexists. split.
  - apply (deleteConversation_removes_its_messages 1 (mkUser None None) 10
             (mkConversation 1 "chat" (Some "resp_1") None (Some 100))
             askingWorld); reflexivity.
  - split; by vm_compute.
Defined.

(** Anyone else is refused, and so is a conversation that is not there:
    the call throws and changes nothing. *)
Theorem deleteConversation_refuses_others uid u conv w :
  users w !! uid = Some u →
  userId <$> conversations w !! conv ≠ Some uid →
  deleteConversation (Some uid) conv w
  = (Threw "Conversation not found or access denied", w).
Proof.
  intros Hu Hnot. unfold deleteConversation.
  rewrite (bind_returned _ _ _ _ _ (getLoggedInUser_found uid u w Hu)).
  cbn beta iota.
  rewrite (bind_returned (db.get_conversation conv) _ _ w w eq_refl).
  by rewrite bool_decide_eq_true_2.
Qed.

Lemma deleteConversation_refuses_others_example :
  deleteConversation (Some 1%nat) 11 scopedWorld
  = (Threw "Conversation not found or access denied", scopedWorld).
Proof.
  apply (deleteConversation_refuses_others 1 (mkUser None None) 11
           scopedWorld); [reflexivity |].
  intros H. vm_compute in H. discriminate.
Defined.

(** ** Sorting *)

Section Sort.

Context {A : Type} (key : A → Z).

Let byKey (a b : A) : Z := key b - key a.

Lemma insertSorted_Permutation x l :
  JS.insertSorted byKey x l ≡ₚ x :: l.
Proof.
  induction l as [|y l IH]; simpl; [done |].
  destruct (_ <=? _); [done |]. by rewrite IH, Permutation_swap.
Qed.

Lemma sort_Permutation l : JS.sort byKey l ≡ₚ l.
Proof.
  induction l as [|x l IH]; simpl; [done |].
  by rewrite insertSorted_Permutation, IH.
Qed.

Lemma insertSorted_sorted x l :
  StronglySorted (λ a b, key b ≤ key a) l →
  StronglySorted (λ a b, key b ≤ key a) (JS.insertSorted byKey x l).
Proof.
  induction 1 as [|y l Hl IH Hy]; simpl; [by repeat constructor |].
  unfold byKey at 1. destruct (Z.leb_spec (key y - key x) 0) as [Hle|Hgt].
  - constructor; [by constructor |]. constructor; [lia |].
    eapply Forall_impl; [exact Hy |]. simpl. intros z Hz. lia.
  - constructor; [exact IH |].
    rewrite insertSorted_Permutation. constructor; [lia | exact Hy].
Qed.

Lemma sort_sorted l :
  StronglySorted (λ a b, key b ≤ key a) (JS.sort byKey l).
Proof.
  induction l as [|x l IH]; simpl; [constructor |].
  by apply insertSorted_sorted.
Qed.

End Sort.

Lemma conversationsOf_elem uid w k c :
  (k, c) ∈ db.conversationsOf uid w
  ↔ conversations w !! k = Some c ∧ userId c = uid.
Proof.
  unfold db.conversationsOf. rewrite merge_sort_Permutation.
  rewrite elem_of_map_to_list. apply map_lookup_filter_Some.
Qed.

Lemma conversationsOf_NoDup uid w : NoDup (db.conversationsOf uid w).*1.
Proof.
  unfold db.conversationsOf. rewrite merge_sort_Permutation.
  apply NoDup_fst_map_to_list.
Qed.

(** The conversations that a known user is listed. *)
Lemma listConversations_elem creationTime uid u w :
  users w !! uid = Some u →
  ∃ l,
    listConversations creationTime (Some uid) w = (Returned l, w)
    ∧ ∀ k c, (k, c) ∈ l ↔ conversations w !! k = Some c ∧ userId c = uid.
Proof.
  intros Hu. unfold listConversations.
  rewrite (bind_returned _ _ _ _ _ (getLoggedInUser_found uid u w Hu)).
  cbn beta iota.
  rewrite (bind_returned (gets (db.conversationsOf uid)) _ _ w w eq_refl).
  eexists. split; [done |].
  intros k c. rewrite (sort_Permutation (activityTime creationTime)).
  apply conversationsOf_elem.
Qed.

(** A known user is listed the conversations of that user, all of them
    and no other, each once, the most recently active first: by
    [updatedTime], and by [_creationTime] where there is none. *)
Theorem listConversations_own_most_recent_first creationTime uid u w :
  users w !! uid = Some u →
  ∃ l,
    listConversations creationTime (Some uid) w = (Returned l, w)
    ∧ (∀ k c, (k, c) ∈ l ↔ conversations w !! k = Some c ∧ userId c = uid)
    ∧ NoDup l.*1
    ∧ StronglySorted
        (λ a b, activityTime creationTime b ≤ activityTime creationTime a) l.
Proof.
  intros Hu. unfold listConversations.
  rewrite (bind_returned _ _ _ _ _ (getLoggedInUser_found uid u w Hu)).
  cbn beta iota.
  rewrite (bind_returned (gets (db.conversationsOf uid)) _ _ w w eq_refl).
  eexists. split; [done |]. split; [| split].
  - intros k c. rewrite (sort_Permutation (activityTime creationTime)).
    apply conversationsOf_elem.
  - rewrite (sort_Permutation (activityTime creationTime)).
    apply conversationsOf_NoDup.
  - apply (sort_sorted (activityTime creationTime)).
Qed.

Lemma listConversations_own_most_recent_first_example :
  ∃ l,
    listConversations (λ _, 0) (Some 1%nat) scopedWorld
    = (Returned l, scopedWorld)
    ∧ NoDup l.*1.
Proof.
  destruct (listConversations_own_most_recent_first (λ _, 0) 1
              (mkUser None None) scopedWorld eq_refl)
    as (l & Hrun & _ & Hnd & _).
  by exists l.
Defined.


(** A conversation that has just been created is listed for the user who
    created it, under the name ["New Chat"], and for nobody else; the
    conversations that were there are unchanged. *)
Theorem createConversation_is_listed creationTime uid u w :
  users w !! uid = Some u →
  conversations w !! nextId w = None →
  ∃ w' l,
    createConversation (Some uid) w = (Returned (nextId w), w')
    ∧ listConversations creationTime (Some uid) w' = (Returned l, w')
    ∧ (nextId w, mkConversation uid "New Chat" None None None) ∈ l
    ∧ (∀ k c, conversations w !! k = Some c → conversations w' !! k = Some c)
    ∧ (∀ other u' l',
         other ≠ uid → users w !! other = Some u' →
         listConversations creationTime (Some other) w' = (Returned l', w') →
         nextId w ∉ l'.*1).
Proof.
  intros Hu Hfresh. unfold createConversation.
  rewrite (bind_returned _ _ _ _ _ (getLoggedInUser_found uid u w Hu)).
  cbn beta iota. unfold db.insert_conversation.
  set (w' := set_nextId _ _).
  assert (conversations w'
          = <[nextId w := mkConversation uid "New Chat" None None None]>
              (conversations w)) as Hw' by done.
  destruct (listConversations_elem creationTime uid u w')
    as (l & Hl & Hin); [done |].
  exists w', l. split; [done |]. split; [done |]. split; [| split].
  - apply Hin. rewrite Hw', lookup_insert_eq. done.
  - intros k c Hk. rewrite Hw', lookup_insert_ne; [done |]. congruence.
  - intros other u' l' Hother Hu' Hl'.
    destruct (listConversations_elem creationTime other u' w')
      as (l2 & Hl2 & Hin2); [done |].
    rewrite Hl2 in Hl'. injection Hl' as <-.
    intros ([k c] & Hk & Hkc)%list_elem_of_fmap. simpl in Hk. subst k.
    apply Hin2 in Hkc as [Hlook Hown].
    rewrite Hw', lookup_insert_eq in Hlook. injection Hlook as <-.
    simpl in Hown. congruence.
Qed.

Lemma createConversation_is_listed_example :
  ∃ w' l,
    createConversation (Some 1%nat) scopedWorld = (Returned 40%nat, w')
    ∧ listConversations (λ _, 0) (Some 1%nat) w' = (Returned l, w')
    ∧ (40%nat, mkConversation 1 "New Chat" None None None) ∈ l.
Proof.
  destruct (createConversation_is_listed (λ _, 0) 1 (mkUser None None)
              scopedWorld eq_refl eq_refl)
    as (w' & l & Hrun & Hlist & Hin & _).
  by exists w', l.
Defined.

(** ** Sending a message *)

Lemma getConversation_cases conv uid w :
  getConversation conv (Some uid) w
  = match conversations w !! conv with
    | None => (Returned None, w)
    | Some c =>
        if bool_decide (userId c ≠ uid) then
          (Threw "Not found",
           set_console
             (console w
                ++ [mkLog console_error
                      "Someone is trying to access a conversation they don't own"])
             w)
        else (Returned (Some c), w)
    end.
Proof.
  unfold getConversation, db.get_conversation. unfold_monad.
  destruct (conversations w !! conv) as [c|]; [| done].
  by destruct (bool_decide _).
Qed.

Lemma getFirstMessage_none conv w :
  head (db.messagesOf conv w) = None ↔ ¬ hasMessages conv w.
Proof.
  split.
  - intros Hh (k & m & Hm & Hc).
    assert ((k, m) ∈ db.messagesOf conv w) as Hin
      by by apply messagesOf_elem.
    destruct (db.messagesOf conv w); [by apply elem_of_nil in Hin | done].
  - intros Hno. destruct (db.messagesOf conv w) as [|[k m] l] eqn:Hl; [done |].
    destruct Hno. exists k, m. apply messagesOf_elem. rewrite Hl. by left.
Qed.

Lemma sendValid_passes args w :
  sendValid args = true →
  (match sm_model args with
   | Some m =>
       if JS.truthy m then
         if negb (isSupportedModel m) then throw ("Unsupported model: " ++ m)
         else if (bool_decide (is_Some (sm_thinkingIntensity args))
                  && negb (isThinkingModel m))%bool then
           throw "Thinking intensity can only be set for thinking models"
         else mret tt
       else mret tt
   | None => mret tt
   end) w = (Returned tt, w).
Proof.
  unfold sendValid. destruct (sm_model args) as [m|]; [| done].
  destruct (JS.truthy m); [| done].
  destruct (isSupportedModel m); [| done]. simpl.
  by destruct (_ && _)%bool.
Qed.

Lemma sendMessage_run uid u args c w :
  users w !! uid = Some u →
  conversations w !! sm_conversationId args = Some c →
  userId c = uid →
  sendValid args = true →
  sendMessage (Some uid) args w
  = (Returned tt,
     set_scheduled
       (scheduled w
          ++ (0, generateAiResponseJob (sm_conversationId args))
             :: match head (db.messagesOf (sm_conversationId args) w) with
                | Some _ => []
                | None => [(5000, generateConversationTitleJob
                                    (sm_conversationId args))]
                end)
       (set_conversations
          (<[sm_conversationId args := touched (now w) c]> (conversations w))
          (set_nextId (S (nextId w))
             (set_messages (<[nextId w := sentMessage args]> (messages w))
                w)))).
Proof.
  intros Hu Hc Hown Hvalid. unfold sendMessage. cbn zeta.
  rewrite (bind_returned _ _ _ _ _ (getLoggedInUser_found uid u w Hu)).
  cbn beta iota. subst uid.
  rewrite (bind_returned _ _ _ _ _
             (getConversation_owned (sm_conversationId args) c w Hc)).
  rewrite bool_decide_eq_false_2 by (by intros H).
  rewrite (bind_returned _ _ _ _ _ (sendValid_passes args w Hvalid)).
  rewrite (bind_returned (getFirstMessage _) _ _ w w eq_refl).
  unfold storeUserMessage, runMutation, db.insert_message,
    db.patch_conversation.
  unfold_monad. simpl. rewrite Hc.
  destruct (head _); simpl; unfold modify, set_scheduled; simpl;
    [reflexivity | by rewrite <- List.app_assoc].
Qed.

(** [sendMessage] by the owner of the conversation, with model checks
    passing: the message is stored under the next id with the arguments
    it was sent with, the conversation's activity time becomes the
    current time, the AI turn is scheduled at once, and the title job is
    scheduled five seconds later exactly when the conversation had no
    message before. Nothing else changes. *)
Theorem sendMessage_stores_and_schedules uid u args c w :
  users w !! uid = Some u →
  conversations w !! sm_conversationId args = Some c →
  userId c = uid →
  sendValid args = true →
  let conv := sm_conversationId args in
  ∃ w',
    sendMessage (Some uid) args w = (Returned tt, w')
    ∧ messages w' = <[nextId w := sentMessage args]> (messages w)
    ∧ conversations w' = <[conv := touched (now w) c]> (conversations w)
    ∧ fileMessageMappings w' = fileMessageMappings w
    ∧ console w' = console w
    ∧ (hasMessages conv w →
       scheduled w' = (scheduled w ++ [(0, generateAiResponseJob conv)])%list)
    ∧ (¬ hasMessages conv w →
       scheduled w'
       = (scheduled w ++ [(0, generateAiResponseJob conv);
                          (5000, generateConversationTitleJob conv)])%list).
Proof.
  intros Hu Hc Hown Hvalid conv.
  eexists. split; [by apply (sendMessage_run uid u args c w) |].
  repeat split; simpl.
  - intros Hhas. fold conv.
    destruct (head (db.messagesOf conv w)) eqn:Hh; [done |].
    by apply getFirstMessage_none in Hh.
  - intros Hno. fold conv. apply getFirstMessage_none in Hno.
    by rewrite Hno.
Qed.

Lemma sendMessage_stores_and_schedules_example :
  ∃ w',
    sendMessage (Some 1%nat) again askingWorld = (Returned tt, w')
    ∧ messages w' !! 1%nat = Some (sentMessage again)
    ∧ scheduled w' = [(0, generateAiResponseJob 10)].
Proof.
  destruct (sendMessage_stores_and_schedules 1 (mkUser None None) again
              (mkConversation 1 "chat" (Some "resp_1") None (Some 100))
              askingWorld eq_refl eq_refl eq_refl eq_refl)
    as (w' & Hrun & Hm & _ & _ & _ & Hhas & _).
  exists w'. split; [exact Hrun |]. split.
  - rewrite Hm. reflexivity.
  - apply Hhas. exists 0%nat, askingMessage. by split.
Defined.

(** What [sendMessage] answers to a known user whom it refuses. A
    conversation that does not exist is ["Conversation not found or
    access denied"]; a conversation of somebody else is ["Not found"],
    thrown by [getConversation] after it has printed its warning, so
    that the check of [sendMessage] itself is not reached; for the
    owner, a model that is not supported, and a thinking intensity with
    a model that does not think, are refused with their own messages.
    In each case nothing is stored and nothing is scheduled. *)
Theorem sendMessage_refusals uid u args w :
  users w !! uid = Some u →
  let conv := sm_conversationId args in
  (conversations w !! conv = None →
   sendMessage (Some uid) args w
   = (Threw "Conversation not found or access denied", w))
  ∧ (∀ c,
       conversations w !! conv = Some c → userId c ≠ uid →
       sendMessage (Some uid) args w
       = (Threw "Not found",
          set_console
            (console w
               ++ [mkLog console_error
                     "Someone is trying to access a conversation they don't own"])
            w))
  ∧ (∀ c m,
       conversations w !! conv = Some c → userId c = uid →
       sm_model args = Some m → JS.truthy m = true →
       (isSupportedModel m = false →
        sendMessage (Some uid) args w
        = (Threw ("Unsupported model: " ++ m), w))
       ∧ (isSupportedModel m = true →
          is_Some (sm_thinkingIntensity args) →
          isThinkingModel m = false →
          sendMessage (Some uid) args w
          = (Threw "Thinking intensity can only be set for thinking models",
             w))).
Proof.
  intros Hu conv. unfold sendMessage. fold conv.
  rewrite !(bind_returned _ _ _ _ _ (getLoggedInUser_found uid u w Hu)).
  cbn beta iota.
  pose proof (getConversation_cases conv uid w) as Hget.
  split; [| split].
  - intros Hc. rewrite Hc in Hget.
    rewrite (bind_returned _ _ _ _ _ Hget).
    by rewrite bool_decide_eq_true_2.
  - intros c Hc Hother. rewrite Hc in Hget.
    rewrite bool_decide_eq_true_2 in Hget by done.
    by rewrite (bind_threw _ _ _ _ _ Hget).
  - intros c m Hc Hown Hm Htruthy. rewrite Hc in Hget.
    rewrite bool_decide_eq_false_2 in Hget by (intros H; by apply H).
    rewrite !(bind_returned _ _ _ _ _ Hget).
    rewrite bool_decide_eq_false_2
      by (simpl; intros H; apply H; congruence).
    rewrite Hm, Htruthy. split.
    + intros ->. reflexivity.
    + intros -> Hint ->. simpl.
      rewrite bool_decide_eq_true_2 by done. reflexivity.
Qed.

Lemma sendMessage_refusals_example :
  sendMessage (Some 1%nat)
    (mkSendMessageArgs 11 "hello" None None None None None None) scopedWorld
  = (Threw "Not found",
     set_console
       [mkLog console_error
          "Someone is trying to access a conversation they don't own"]
       scopedWorld).
Proof.
  destruct (sendMessage_refusals 1 (mkUser None None)
              (mkSendMessageArgs 11 "hello" None None None None None None)
              scopedWorld eq_refl) as (_ & Hforeign & _).
  apply (Hforeign (mkConversation 2 "theirs" None None None));
    [reflexivity | discriminate].
Defined.

(** ** The last user message *)

(** In a list sorted by id, with no id twice, an element of the greatest
    id is the last one. *)
Lemma sorted_last (l : list (nat * Message)) n m :
  StronglySorted db.byCreation l →
  NoDup l.*1 →
  (n, m) ∈ l →
  (∀ kv, kv ∈ l → (kv.1 ≤ n)%nat) →
  ∃ l', l = (l' ++ [(n, m)])%list.
Proof.
  induction l as [|x l IH]; intros Hs Hnd Hin Hmax.
  - by apply elem_of_nil in Hin.
  - apply StronglySorted_inv in Hs as [Hs Hx].
    apply NoDup_cons in Hnd as [Hxl Hnd].
    destruct l as [|y l].
    + apply list_elem_of_singleton in Hin as <-. by exists [].
    + assert ((n, m) ∈ y :: l) as Hin'.
      { apply elem_of_cons in Hin as [<-|Hin]; [| done].
        exfalso. apply Hxl. simpl.
        assert ((y.1 ≤ n)%nat) by (apply Hmax; right; by left).
        apply Forall_cons in Hx as [Hxy _]. unfold db.byCreation in Hxy.
        simpl in Hxy. replace n with y.1 by lia. by left. }
      destruct (IH Hs Hnd Hin') as [l' Hl'].
      { intros kv Hkv. apply Hmax. by right. }
      exists (x :: l'). by rewrite Hl'.
Qed.

(** After a user message is stored under the next id, it is the last
    user message of its conversation. *)
Lemma lastUserMessage_after_insert conv m w w' :
  messagesBelowNext w →
  messages w' = <[nextId w := m]> (messages w) →
  conversationId m = conv →
  author m = user →
  head (reverse (filter (λ kv : nat * Message, author kv.2 = user)
                   (db.messagesOf conv w')))
  = Some (nextId w, m).
Proof.
  intros Hbelow Hw' Hconv Hauthor.
  destruct (sorted_last (db.messagesOf conv w') (nextId w) m) as [l' Hl'].
  - apply messagesOf_sorted.
  - apply messagesOf_NoDup.
  - apply messagesOf_elem. by rewrite Hw', lookup_insert_eq.
  - intros [k x] [Hk _]%messagesOf_elem. simpl. rewrite Hw' in Hk.
    apply lookup_insert_Some in Hk as [[<- _]|[_ Hk]]; [done |].
    assert (k < nextId w)%nat by (apply Hbelow; by eexists). lia.
  - rewrite Hl', filter_app, filter_cons_True by done.
    by rewrite filter_nil, reverse_app.
Qed.

(** The settings that [getConversationModelSettings] answers after a
    [sendMessage] are those of that message: its model unless that is the
    empty string, its thinking intensity, and web search only as [true]:
    a message sent with web search off reads back as null. *)
Theorem settings_follow_the_last_send uid u args c w :
  users w !! uid = Some u →
  conversations w !! sm_conversationId args = Some c →
  userId c = uid →
  sendValid args = true →
  messagesBelowNext w →
  ∃ w',
    sendMessage (Some uid) args w = (Returned tt, w')
    ∧ getConversationModelSettings (Some uid) (sm_conversationId args) w'
      = (Returned (settingsOf (sentMessage args)), w').
Proof.
  intros Hu Hc Hown Hvalid Hbelow.
  eexists. split; [by apply (sendMessage_run uid u args c w) |].
  set (w' := set_scheduled _ _).
  unfold getConversationModelSettings.
  rewrite (bind_returned _ _ _ _ _ (getLoggedInUser_found uid u w' Hu)).
  cbn beta iota.
  rewrite (bind_returned (db.get_conversation _) _
             (Some (touched (now w) c)) w' w')
    by (unfold db.get_conversation, gets; simpl;
        by rewrite lookup_insert_eq).
  rewrite bool_decide_eq_false_2
    by (simpl; intros H; apply H; by rewrite Hown).
  unfold mbind, M_bind at 1. unfold gets.
  rewrite (lastUserMessage_after_insert (sm_conversationId args)
             (sentMessage args) w w') by done.
  unfold settingsOf. simpl.
  destruct (sm_model args) as [m|]; simpl;
    [destruct (JS.truthy m) |];
    by destruct (sm_webSearchEnabled args) as [[|]|].
Qed.

Lemma settings_follow_the_last_send_example :
  ∃ w',
    sendMessage (Some 1%nat) again askingWorld = (Returned tt, w')
    ∧ getConversationModelSettings (Some 1%nat) 10 w'
      = (Returned (mkModelSettings (Some "o3") (Some high) None), w').
Proof.
  apply (settings_follow_the_last_send 1 (mkUser None None) again
           (mkConversation 1 "chat" (Some "resp_1") None (Some 100))
           askingWorld); try reflexivity.
  intros k [m Hk]. simpl in *.
  apply lookup_singleton_Some in Hk as [<- _]. lia.
Defined.

(** ** The file index, write then read *)

(** After [createUserFileMapping] for a file id that the index did not
    hold, the uploader finds the file by its id, with the properties it
    was recorded with, and finds the message it was first used in from
    the conversation it was first used in; any other known user is
    refused. *)
Theorem file_mapping_is_found_by_its_uploader args u conv msg w :
  noEntry (cm_openaiFileId args) w →
  users w !! cm_uploadedBy args = Some u →
  cm_firstUsedInConversationId args = Some conv →
  cm_firstUsedInMessageId args = Some msg →
  userId <$> conversations w !! conv = Some (cm_uploadedBy args) →
  ∃ w',
    createUserFileMapping args w = (Returned tt, w')
    ∧ findFileByOpenAIId (Some (cm_uploadedBy args)) (cm_openaiFileId args) w'
      = (Returned (Some (infoOf (entryOf args (now w)))), w')
    ∧ findUserMessageByFileId (Some (cm_uploadedBy args)) conv
        (cm_openaiFileId args) w'
      = (Returned (Some (msg, cm_fileName args)), w')
    ∧ (∀ other u',
         other ≠ cm_uploadedBy args → users w !! other = Some u' →
         findFileByOpenAIId (Some other) (cm_openaiFileId args) w'
         = (Threw "Access denied: file was not uploaded by current user",
            w')).
Proof.
  intros Hno Hu Hconv Hmsg Hown.
  pose proof (unique_noEntry _ _ Hno) as Hnone.
  rewrite unique_of_filter in Hnone.
  destruct (map_to_list _) as [|kv [|kv' rest]] eqn:Hl; try done.
  eexists. split; [by rewrite createUserFileMapping_cases, Hl |].
  set (w' := set_nextId _ _).
  assert (db.unique_fileMessageMapping (cm_openaiFileId args) w'
          = (Returned (Some (nextId w, entryOf args (now w))), w')) as Hfind.
  { rewrite unique_of_filter. simpl fileMessageMappings.
    by rewrite (unique_after_insert (cm_openaiFileId args) w (nextId w)
                  (entryOf args (now w)) Hl eq_refl). }
  split; [| split].
  - unfold findFileByOpenAIId.
    rewrite (bind_returned _ _ _ _ _
               (getLoggedInUser_found _ u w' Hu)).
    cbn beta iota. rewrite (bind_returned _ _ _ _ _ Hfind).
    cbn beta iota. by rewrite bool_decide_eq_false_2 by (simpl; tauto).
  - unfold findUserMessageByFileId, findUserMessageByFileIdImpl.
    rewrite (bind_returned _ _ _ _ _
               (getLoggedInUser_found _ u w' Hu)).
    cbn beta iota.
    rewrite (bind_returned (db.get_conversation conv) _ _ w' w' eq_refl).
    rewrite bool_decide_eq_false_2 by (simpl; tauto).
    rewrite (bind_returned _ _ _ _ _ Hfind). cbn beta iota.
    rewrite bool_decide_eq_false_2 by (simpl; rewrite Hconv; tauto).
    rewrite bool_decide_eq_false_2 by (simpl; tauto).
    simpl. by rewrite Hmsg.
  - intros other u' Hother Hu'. unfold findFileByOpenAIId.
    rewrite (bind_returned _ _ _ _ _
               (getLoggedInUser_found other u' w' Hu')).
    cbn beta iota. rewrite (bind_returned _ _ _ _ _ Hfind).
    cbn beta iota.
    by rewrite bool_decide_eq_true_2 by (simpl; split; congruence).
Qed.

Lemma file_mapping_is_found_by_its_uploader_example :
  let args :=
    mkCreateUserFileMappingArgs "file-1" "a.pdf" 1 5 None None
      (Some 10%nat) (Some 20%nat) in
  ∃ w',
    createUserFileMapping args uploadWorld = (Returned tt, w')
    ∧ findUserMessageByFileId (Some 1%nat) 10 "file-1" w'
      = (Returned (Some (20%nat, "a.pdf")), w').
Proof.
  intros args.
  destruct (file_mapping_is_found_by_its_uploader args (mkUser None None)
              10 20 uploadWorld)
    as (w' & Hrun & _ & Hfind & _); try reflexivity.
  - by apply noEntry_of_unique.
  - by exists w'.
Defined.

(** ** The title of a conversation *)

Lemma truthy_nonempty s : JS.truthy s = true ↔ s ≠ EmptyString.
Proof.
  unfold JS.truthy. rewrite negb_true_iff. apply String.eqb_neq.
Qed.

Lemma updateConversationName_found conv c n w :
  conversations w !! conv = Some c →
  updateConversationName conv n w
  = (Returned tt,
     set_conversations (<[conv := renamed n c]> (conversations w)) w).
Proof.
  intros Hc. unfold updateConversationName, db.get_conversation,
    db.patch_conversation. unfold_monad. rewrite Hc. simpl. by rewrite Hc.
Qed.

Lemma updateConversationName_missing conv n w :
  conversations w !! conv = None →
  updateConversationName conv n w
  = (Threw ("Conversation not found with ID: " ++ JS.showNat conv), w).
Proof.
  intros Hc. unfold updateConversationName, db.get_conversation.
  unfold_monad. by rewrite Hc.
Qed.

(** The run of the title job, by cases. *)
Lemma generateConversationTitleAction_run create conv w :
  ∃ l,
    generateConversationTitleAction create conv w
    = (Returned tt,
       set_console (console w ++ l)
         match head (db.messagesOf conv w) with
         | Some (_, first) =>
             if titleable first then
               match create (titlePrompt (promptContentOf first)) with
               | Returned (Some text) =>
                   if JS.truthy (JS.trim text) then
                     match conversations w !! conv with
                     | Some c =>
                         set_conversations
                           (<[conv := renamed (JS.trim text) c]>
                              (conversations w)) w
                     | None => w
                     end
                   else w
               | _ => w
               end
             else w
         | None => w
         end).
Proof.
  unfold generateConversationTitleAction, try_catch, getFirstMessage.
  unfold mbind, M_bind at 1. unfold gets.
  destruct (head (db.messagesOf conv w)) as [[k first]|]; [| by eexists [_]].
  unfold titleable. rewrite <- negb_orb.
  destruct (_ || _)%bool; simpl; [| by eexists [_]].
  destruct (create _) as [[text|]|e]; [| by eexists [_] | by eexists [_]].
  simpl.
  destruct (JS.truthy (JS.trim text)) eqn:Ht; simpl; [| by eexists [_]].
  replace (0 <? JS.length (JS.trim text)) with true.
  2:{ symmetry. apply Z.ltb_lt. apply truthy_nonempty in Ht.
      unfold JS.length. destruct (JS.trim text); [done | simpl; lia]. }
  unfold mbind, M_bind, runMutation.
  destruct (conversations w !! conv) as [c|] eqn:Hc.
  - rewrite (updateConversationName_found conv c _ w Hc). by eexists [_].
  - rewrite (updateConversationName_missing conv _ w Hc). simpl.
    eexists [_]. unfold console_write, modify. f_equal.
Qed.

(** The title job never throws, whatever the provider does, and the only
    thing it may write, apart from the console, is the name of its own
    conversation: every other conversation, every message, the file
    index and the scheduler queue are left as they were. When it renames,
    the new name is the provider's text trimmed, and that is not empty. *)
Theorem title_job_only_renames create conv w :
  ∃ w',
    generateConversationTitleAction create conv w = (Returned tt, w')
    ∧ set_console (console w) (set_conversations (conversations w) w')
      = w
    ∧ (∀ k, k ≠ conv → conversations w' !! k = conversations w !! k)
    ∧ (conversations w' !! conv = conversations w !! conv
       ∨ ∃ c first text,
           conversations w !! conv = Some c
           ∧ getFirstMessage conv w = (Returned (Some first), w)
           ∧ create (titlePrompt (promptContentOf first.2))
             = Returned (Some text)
           ∧ JS.trim text ≠ EmptyString
           ∧ conversations w' !! conv = Some (renamed (JS.trim text) c)).
Proof.
  destruct (generateConversationTitleAction_run create conv w) as [l Hrun].
  eexists. split; [exact Hrun |].
  unfold getFirstMessage, gets.
  destruct (head (db.messagesOf conv w)) as [[k0 first]|];
    [| by (repeat split; [by destruct w | auto..])].
  destruct (titleable first);
    [| by (repeat split; [by destruct w | auto..])].
  destruct (create _) as [[text|]|e] eqn:Hcreate;
    [| by (repeat split; [by destruct w | auto..]) ..].
  destruct (JS.truthy (JS.trim text)) eqn:Ht;
    [| by (repeat split; [by destruct w | auto..])].
  destruct (conversations w !! conv) as [c|] eqn:Hc;
    [| by (repeat split; [by destruct w | rewrite ?Hc; auto..])].
  split; [by destruct w |]. split.
  - intros k Hk. simpl. by rewrite lookup_insert_ne.
  - right. exists c, (k0, first), text.
    split; [done |]. split; [done |]. split; [done |].
    split; [by apply truthy_nonempty |]. simpl. apply lookup_insert_eq.
Qed.

(** When the first message has content or files, the provider answers
    with a text that is not blank, and the conversation is there, the
    conversation takes the trimmed text as its name. A first message
    with blank content and no file leaves the name alone, and so does a
    provider that rejects or answers with a blank text. *)
Theorem title_job_names_the_conversation create conv c k first w :
  conversations w !! conv = Some c →
  getFirstMessage conv w = (Returned (Some (k, first)), w) →
  let w' := (generateConversationTitleAction create conv w).2 in
  (titleable first = true →
   ∀ text,
     create (titlePrompt (promptContentOf first)) = Returned (Some text) →
     JS.trim text ≠ EmptyString →
     name <$> conversations w' !! conv = Some (JS.trim text))
  ∧ (titleable first = false → conversations w' = conversations w)
  ∧ ((∀ text, create (titlePrompt (promptContentOf first))
              = Returned (Some text) → JS.trim text = EmptyString) →
     conversations w' = conversations w).
Proof.
  intros Hc Hfirst w'. subst w'.
  destruct (generateConversationTitleAction_run create conv w) as [l ->].
  unfold getFirstMessage, gets in Hfirst. injection Hfirst as ->.
  rewrite Hc. cbn [snd]. split; [| split].
  - intros -> text -> Ht. apply truthy_nonempty in Ht. rewrite Ht.
    simpl. by rewrite lookup_insert_eq.
  - by intros ->.
  - intros Hblank. destruct (titleable first); [| done].
    destruct (create _) as [[text|]|e]; [| done..].
    rewrite (Hblank text eq_refl). done.
Qed.

Lemma title_job_names_the_conversation_example :
  name <$>
    conversations
      (generateConversationTitleAction
         (λ _, Returned (Some " Greetings Exchanged ")) 10 askingWorld).2
      !! 10%nat
  = Some "Greetings Exchanged".
Proof.
  destruct (title_job_names_the_conversation
              (λ _, Returned (Some " Greetings Exchanged ")) 10
              (mkConversation 1 "chat" (Some "resp_1") None (Some 100))
              0 askingMessage askingWorld eq_refl)
    as (Hnamed & _); [by vm_compute |].
  apply (Hnamed eq_refl " Greetings Exchanged " eq_refl).
  by vm_compute.
Defined.

(** ** The file preview *)

(** A preview that is returned is that of a file of a message in a
    conversation of the caller: the first file of that name in the
    message, with its recorded type and size and the URL of its blob.
    Content comes only with a text file whose blob could be read, and it
    is the text of that blob. Nothing is written but the console. *)
Theorem preview_is_of_an_own_file s uid u mid fileName w r w' :
  users w !! uid = Some u →
  getFileForPreview s (Some uid) mid fileName w = (Returned r, w') →
  w' = set_console (console w') w
  ∧ ∃ m c f,
      messages w !! mid = Some m
      ∧ conversations w !! conversationId m = Some c
      ∧ userId c = uid
      ∧ fileNamed fileName m = Some f
      ∧ uf_fileName f = fileName
      ∧ fp_fileName r = fileName
      ∧ fp_fileType r = uf_fileType f
      ∧ fp_fileSize r = uf_fileSize f
      ∧ fp_downloadUrl r = getUrl s (uf_storageId f)
      ∧ ∀ text, fp_content r = Some text →
                isTextFile f = true
                ∧ readText s (uf_storageId f) = Returned (Some text).
Proof.
  intros Hu. unfold getFileForPreview.
  rewrite (bind_returned _ _ _ _ _ (getLoggedInUser_found uid u w Hu)).
  cbn beta iota.
  rewrite (bind_returned (getMessageById mid) _ (messages w !! mid) w w
             eq_refl).
  destruct (messages w !! mid) as [m|] eqn:Hm; [| done].
  pose proof (getConversation_cases (conversationId m) uid w) as Hget.
  destruct (conversations w !! conversationId m) as [c|] eqn:Hc.
  2:{ rewrite (bind_returned _ _ _ _ _ Hget).
      by rewrite bool_decide_eq_true_2. }
  destruct (bool_decide (userId c ≠ uid)) eqn:Hown;
    [by rewrite (bind_threw _ _ _ _ _ Hget) |].
  apply bool_decide_eq_false in Hown.
  assert (userId c = uid) as Hown'
    by (by destruct (decide (userId c = uid))).
  rewrite (bind_returned _ _ _ _ _ Hget).
  rewrite bool_decide_eq_false_2 by (simpl; intros H; apply H; congruence).
  fold (fileNamed fileName m).
  destruct (fileNamed fileName m) as [f|] eqn:Hf; [| done].
  assert (uf_fileName f = fileName) as Hname.
  { unfold fileNamed in Hf. destruct (uploadedFiles m) as [fs|]; [| done].
    simpl in Hf. apply find_some in Hf as [_ Heq].
    by apply String.eqb_eq. }
  fold (isTextFile f). unfold mbind, M_bind.
  destruct (isTextFile f) eqn:Htext.
  - destruct (readText s (uf_storageId f)) as [text|e] eqn:Hread.
    + intros [= <- <-]. split; [by destruct w |].
      exists m, c, f. repeat split; try done.
      simpl in H. by subst.
    + intros [= <- <-]. split; [by destruct w |].
      exists m, c, f. by repeat split.
  - intros [= <- <-]. split; [by destruct w |].
    exists m, c, f. by repeat split.
Qed.

Lemma preview_is_of_an_own_file_example :
  ∃ m c f,
    messages previewWorld !! 0%nat = Some m
    ∧ conversations previewWorld !! conversationId m = Some c
    ∧ userId c = 1%nat
    ∧ fileNamed "notes.txt" m = Some f.
Proof.
  destruct (preview_is_of_an_own_file readableStorage 1 (mkUser None None)
              0 "notes.txt" previewWorld
              (mkFilePreviewResult "notes.txt" "text/plain" 12
                 (Some "https://files.example/5") (Some "hello"))
              previewWorld eq_refl eq_refl)
    as (_ & m & c & f & Hm & Hc & Hown & Hf & _).
  by exists m, c, f.
Defined.

(** The owner of the conversation gets the preview of a file of the
    message even when the blob cannot be read: the content is then null,
    as it is for a file that is not a text file, and the call does not
    throw. *)
Theorem preview_survives_a_failed_read s uid u mid fileName m c f w :
  users w !! uid = Some u →
  messages w !! mid = Some m →
  conversations w !! conversationId m = Some c →
  userId c = uid →
  fileNamed fileName m = Some f →
  ∃ w',
    getFileForPreview s (Some uid) mid fileName w
    = (Returned
         (mkFilePreviewResult (uf_fileName f) (uf_fileType f)
            (uf_fileSize f) (getUrl s (uf_storageId f))
            (if isTextFile f then
               match readText s (uf_storageId f) with
               | Returned text => text
               | Threw _ => None
               end
             else None)), w')
    ∧ w' = set_console (console w') w.
Proof.
  intros Hu Hm Hc Hown Hf. unfold getFileForPreview.
  rewrite (bind_returned _ _ _ _ _ (getLoggedInUser_found uid u w Hu)).
  cbn beta iota.
  rewrite (bind_returned (getMessageById mid) _ (Some m) w w)
    by (unfold getMessageById, db.get_message, gets; by rewrite Hm).
  subst uid.
  rewrite (bind_returned _ _ _ _ _ (getConversation_owned _ c w Hc)).
  rewrite bool_decide_eq_false_2 by (by intros H).
  fold (fileNamed fileName m). rewrite Hf.
  fold (isTextFile f). unfold mbind, M_bind.
  destruct (isTextFile f).
  - destruct (readText s (uf_storageId f)) as [text|e].
    + eexists. split; [done |]. by destruct w.
    + eexists. split; [done |]. by destruct w.
  - eexists. split; [done |]. by destruct w.
Qed.

Lemma preview_survives_a_failed_read_example :
  ∃ w',
    getFileForPreview brokenStorage (Some 1%nat) 0 "notes.txt" previewWorld
    = (Returned
         (mkFilePreviewResult "notes.txt" "text/plain" 12
            (Some "https://files.example/5") None), w').
Proof.
  destruct (preview_survives_a_failed_read brokenStorage 1 (mkUser None None)
              0 "notes.txt" previewMessage
              (mkConversation 1 "chat" None None None) notes previewWorld
              eq_refl eq_refl eq_refl eq_refl eq_refl)
    as (w' & Hrun & _).
  by exists w'.
Defined.

(** ** What a turn does when it cannot run *)

Lemma getConversation_any conv w :
  getConversation conv None w = (Returned (conversations w !! conv), w).
Proof.
  unfold getConversation, db.get_conversation. unfold_monad.
  by destruct (conversations w !! conv).
Qed.

Lemma storeAiMessage_error conv c w :
  conversations w !! conv = Some c →
  runMutation (storeAiMessage
    (mkStoreAiMessageArgs conv
       "Sorry, I encountered an error while preparing the response."
       (Some error) None None None None)) w
  = (Returned (nextId w),
     set_conversations (<[conv := touched (now w) c]> (conversations w))
       (set_nextId (S (nextId w))
          (set_messages (<[nextId w := preparationError conv]> (messages w))
             w))).
Proof.
  intros Hc. unfold runMutation, storeAiMessage, db.insert_message,
    db.patch_conversation. unfold_monad. simpl. by rewrite Hc.
Qed.

(** The model that the turn settles on, and what it prints on the way. *)
Lemma selectedModel_run selected w :
  ∃ l sel,
    (if negb (isSupportedModel selected) then
       console_write console_error
         ("Unsupported model in message: " ++ selected
            ++ ", falling back to gpt-4.1");;
       mret "gpt-4.1"
     else mret selected) w
    = (Returned sel, set_console (console w ++ l) w).
Proof.
  destruct (negb (isSupportedModel selected)).
  - by eexists [_], _.
  - exists [], selected. unfold mret, M_ret. f_equal.
    destruct w; simpl. by rewrite app_nil_r.
Qed.



(** A last user message whose time zone the runtime does not know: the
    turn returns, but the placeholder it had already stored stays behind,
    empty and in status [typing], next to a second assistant message that
    carries the apology in status [error]; the conversation's activity
    time becomes the current time. The provider is not called. *)
Theorem unknown_time_zone_strands_the_placeholder p conv c k um w :
  conversations w !! conv = Some c →
  getLastUserMessage conv w = (Returned (Some (k, um)), w) →
  inputContentOf um ≠ [] →
  toLocaleString p (JS.or_else (timezone um) "UTC") = None →
  ∃ w',
    generateAiResponse p conv w = (Returned tt, w')
    ∧ messages w'
      = <[S (nextId w) := preparationError conv]>
          (<[nextId w := placeholder conv]> (messages w))
    ∧ conversations w' = <[conv := touched (now w) c]> (conversations w)
    ∧ scheduled w' = scheduled w.
Proof.
  intros Hc Hlast Hinput Htz.
  unfold generateAiResponse, try_catch.
  rewrite (bind_returned _ _ _ _ _ (getConversation_found conv c w Hc)).
  rewrite (bind_returned _ _ _ _ _ Hlast).
  rewrite bool_decide_eq_false_2 by done.
  destruct (selectedModel_run (JS.or_else (model um) "gpt-4.1") w)
    as (l & sel & Hsel).
  rewrite (bind_returned _ _ _ _ _ Hsel).
  rewrite (bind_returned _ _ _ _ _ (storeAiMessage_typing conv _)).
  rewrite Htz. unfold throw.
  rewrite (bind_returned (console_write _ _) _ tt _ _ eq_refl).
  erewrite (bind_returned _ _ _ _ _ (storeAiMessage_error conv c _ _)).
  eexists. split; [done |]. by repeat split.
  Unshelve. done.
Qed.

Lemma unknown_time_zone_strands_the_placeholder_example :
  ∃ w',
    generateAiResponse lostClockProvider 10 askingWorld = (Returned tt, w')
    ∧ messages w' !! 1%nat = Some (placeholder 10)
    ∧ messages w' !! 2%nat = Some (preparationError 10).
Proof.
  destruct (unknown_time_zone_strands_the_placeholder lostClockProvider 10
              (mkConversation 1 "chat" (Some "resp_1") None (Some 100))
              0 askingMessage askingWorld)
    as (w' & Hrun & Hm & _);
    [reflexivity | by vm_compute | discriminate | reflexivity |].
  exists w'. split; [exact Hrun |]. rewrite Hm. split; reflexivity.
Defined.

(** ** A turn, event by event *)

Section Streaming.

Variables (conv mid : nat).

Lemma locals_ids t events :
  openaiResponseIdOf (locals t events).1
  = responseIdFrom (openaiResponseIdOf t) events
  ∧ reasoningSummaryOf (locals t events).1
    = reasoningSummaryOf t ++ reasoned events.
Proof.
  revert t. induction events as [|event events IH]; intros t.
  - simpl. by rewrite app_empty_r.
  - destruct event; simpl;
      first [ by rewrite app_empty_r
            | edestruct IH as [H1 H2]; rewrite H1, H2; simpl;
              split; [done | by rewrite ?app_assoc_string] ].
Qed.

Lemma locals_stop t events :
  (locals t events).2 = true ↔ completes events.
Proof.
  revert t. induction events as [|event events IH]; intros t.
  - simpl. split; [done |]. by intros [? ?%elem_of_nil].
  - unfold completes in *. split.
    + destruct event; simpl;
        try (intros H; apply IH in H as [o Ho]; exists o; by right).
      intros _. exists output. by left.
    + intros [o Ho]. apply elem_of_cons in Ho as [<-|Ho]; [done |].
      destruct event; simpl; try (apply IH; by exists o); done.
Qed.

Lemma streaming_console t convs l w :
  streaming mid t convs w → streaming mid t convs (set_console l w).
Proof. by intros [Hc Hm]. Qed.

Lemma streaming_patch t' convs p m w :
  messages w !! mid = Some m →
  conversations w = convs →
  author m = assistant →
  status (patchMessage p m) = Some typing →
  content (patchMessage p m)
  = JS.substring (fullContent t') 0 MAX_MESSAGE_SIZE →
  openaiResponseId (patchMessage p m) = None →
  citations (patchMessage p m) = None →
  streaming mid t' convs
    (set_messages (<[mid := patchMessage p m]> (messages w)) w).
Proof.
  intros Hm Hc Ha Hs Hcont Hid Hcit. split; [done |].
  exists (patchMessage p m). simpl. rewrite lookup_insert_eq.
  repeat split; try done; by destruct m.
Qed.

Lemma updateReasoningSummary_found m summary w :
  messages w !! mid = Some m →
  updateReasoningSummary mid summary w
  = (Returned tt,
     set_messages
       (<[mid := patchMessage
                   (mkMessagePatch None None None (Some summary) None) m]>
          (messages w)) w).
Proof.
  intros Hm. unfold updateReasoningSummary, db.get_message,
    db.patch_message. unfold_monad. rewrite Hm. simpl. by rewrite Hm.
Qed.

Lemma markMessageComplete_found m args w :
  messages w !! mc_messageId args = Some m →
  markMessageComplete args w
  = (Returned tt,
     set_messages
       (<[mc_messageId args :=
            patchMessage
              (mkMessagePatch None (Some completed) (mc_openaiResponseId args)
                 (mc_reasoningSummary args) (mc_citations args)) m]>
          (messages w)) w).
Proof.
  intros Hm. unfold markMessageComplete, db.get_message,
    db.patch_message. unfold_monad. rewrite Hm. simpl. by rewrite Hm.
Qed.

Lemma onlyLogs_forEach_logAnnotation anns :
  onlyLogs (forEach logAnnotation anns) tt.
Proof.
  induction anns as [|a anns IH]; simpl; [apply onlyLogs_ret |].
  eapply onlyLogs_bind; [| exact IH].
  destruct a; simpl;
    [apply onlyLogs_console | apply onlyLogs_console | apply onlyLogs_ret].
Qed.

Lemma limit_nonneg : 0 ≤ MAX_MESSAGE_SIZE.
Proof. by vm_compute. Qed.

(** One more delta on a placeholder that holds the content so far. *)
Lemma streaming_append t convs delta w :
  streaming mid t convs w →
  ∃ w1,
    runMutation (appendMessageContent mid delta) w = (Returned tt, w1)
    ∧ streaming mid
        (mkTurn (fullContent t ++ delta) (openaiResponseIdOf t)
           (reasoningSummaryOf t) (citationsOf t)) convs w1.
Proof.
  intros (Hc & m & Hm & Ha & Hs & Hcont & Hid & Hcit).
  assert (JS.length (content m) ≤ MAX_MESSAGE_SIZE) as Hlen.
  { rewrite Hcont.
    destruct (substring_within MAX_MESSAGE_SIZE (fullContent t));
      [done |]. pose proof limit_nonneg. lia. }
  destruct (appendMessageContent_step MAX_MESSAGE_SIZE mid m delta w Hm Hlen)
    as [l Hrun].
  eexists. split; [apply runMutation_returned, Hrun |].
  apply streaming_console.
  apply streaming_patch; try done; try by destruct m.
  simpl. rewrite Hcont, !substring_from_0 by apply limit_nonneg.
  apply prefix_prefix_app.
Qed.

(** An event other than [response.completed] keeps the placeholder
    streaming. *)
Lemma onEvent_streaming t convs event w :
  (∀ output, event ≠ response_completed output) →
  streaming mid t convs w →
  ∃ w1,
    onEvent conv mid t event w = (Returned (stepLocals t event), w1)
    ∧ streaming mid (stepLocals t event).1 convs w1.
Proof.
  intros Hev Hst. destruct event; simpl.
  - exists w. split; [done |]. exact Hst.
  - destruct (streaming_append t convs delta w Hst) as (w1 & Hrun & Hst1).
    exists w1. split; [| exact Hst1].
    unfold perEvent, try_catch. by rewrite (bind_returned _ _ _ _ _ Hrun).
  - destruct Hst as (Hc & m & Hm & Ha & Hs & Hcont & Hid & Hcit).
    eexists. split.
    + unfold perEvent, try_catch.
      by rewrite (bind_returned _ _ _ _ _
                    (runMutation_returned _ _ _ _
                       (updateReasoningSummary_found m _ w Hm))).
    + apply streaming_patch; try done; by destruct m.
  - destruct Hst as (Hc & m & Hm & Ha & Hs & Hcont & Hid & Hcit).
    eexists. split.
    + unfold perEvent, try_catch.
      by rewrite (bind_returned _ _ _ _ _
                    (runMutation_returned _ _ _ _
                       (updateReasoningSummary_found m _ w Hm))).
    + apply streaming_patch; try done; by destruct m.
  - destruct (onlyLogs_forEach_logAnnotation (default [] annotations) w)
      as [l Hlog].
    eexists. split; [by rewrite (bind_returned _ _ _ _ _ Hlog) |].
    by apply streaming_console.
  - by destruct (Hev output).
  - exists w. split; [done |]. exact Hst.
Qed.

(** The handler of [response.completed] on a streaming placeholder. *)
Lemma onEvent_completed t convs output c w :
  streaming mid t convs w →
  convs !! conv = Some c →
  ∃ w1,
    onEvent conv mid t (response_completed output) w
    = (Returned (stepLocals t (response_completed output)), w1)
    ∧ finished mid conv (stepLocals t (response_completed output)).1 w1.
Proof.
  intros (Hc & m & Hm & Ha & Hs & Hcont & Hid & Hcit) Hconv. simpl.
  set (t' := mkTurn _ _ _ _).
  set (args := mkMarkMessageCompleteArgs _ _ _ _ _).
  pose proof (runMutation_returned _ _ _ _
                (markMessageComplete_found m args w Hm)) as Hmark.
  set (w1 := set_messages _ w) in Hmark.
  assert (updateConversationResponseId conv (openaiResponseIdOf t') w1
          = (Returned tt,
             set_conversations
               (<[conv := patchConversation
                            (mkConversationPatch None
                               (Some (openaiResponseIdOf t')) None None) c]>
                  (conversations w1)) w1)) as Hupd.
  { unfold updateConversationResponseId, db.get_conversation,
      db.patch_conversation. unfold_monad. simpl.
    rewrite Hc, Hconv. simpl. by rewrite Hc, Hconv. }
  apply runMutation_returned in Hupd.
  eexists. split.
  - unfold perEvent, try_catch.
    rewrite (bind_returned _ _ _ _ _ Hmark).
    rewrite (bind_returned _ _ _ _ _ Hupd).
    by rewrite (bind_returned (console_write _ _) _ tt _ _ eq_refl).
  - split; [simpl; by rewrite lookup_insert_eq |].
    eexists. simpl. rewrite lookup_insert_eq. split; [done |].
    subst t' args. simpl. repeat split; try by destruct m.
    + destruct m; simpl in *. subst. by destruct (nonEmpty _).
    + intros Ht. unfold trimmedOrUndefined.
      apply truthy_nonempty in Ht. rewrite Ht. by destruct m.
Qed.

(** The loop on a streaming placeholder: it stops at the first
    [response.completed] with the message finished, or runs to the end
    of the stream with the message still streaming. *)
Lemma forAwait_streaming t convs c events w :
  streaming mid t convs w →
  convs !! conv = Some c →
  ∃ w1,
    forAwait conv mid t events w = (Returned (locals t events), w1)
    ∧ if (locals t events).2
      then finished mid conv (locals t events).1 w1
      else streaming mid (locals t events).1 convs w1.
Proof.
  revert t w. induction events as [|event events IH]; intros t w Hst Hconv.
  - exists w. by split.
  - assert ((∃ output, event = response_completed output)
            ∨ (∀ output, event ≠ response_completed output))
      as [[output ->]|Hne] by (destruct event; eauto).
    + destruct (onEvent_completed t convs output c w Hst Hconv)
        as (w1 & Hrun & Hfin).
      exists w1. cbn [forAwait locals].
      rewrite (bind_returned _ _ _ _ _ Hrun). by simpl.
    + destruct (onEvent_streaming t convs event w Hne Hst)
        as (w1 & Hrun & Hst1).
      cbn [forAwait locals]. rewrite (bind_returned _ _ _ _ _ Hrun).
      destruct (stepLocals t event) as [t' stop] eqn:Hstep.
      assert (stop = false) as ->.
      { destruct event; simpl in Hstep; try by injection Hstep as _ <-.
        by destruct (Hne output). }
      apply (IH t' w1 Hst1 Hconv).
Qed.

End Streaming.

(** ** A turn from the first event to the last *)

(** The state in which [driveTurn] starts. *)
Lemma placeholder_streams conv l w :
  streaming (nextId w) newTurn (conversations w)
    (set_nextId (S (nextId w))
       (set_messages (<[nextId w := placeholder conv]> (messages w))
          (set_console l w))).
Proof.
  split; [done |]. exists (placeholder conv). simpl.
  rewrite lookup_insert_eq. by repeat split.
Qed.

(** The turn up to the call of [driveTurn]. *)
Lemma generateAiResponse_prelude p conv c k um tf w :
  conversations w !! conv = Some c →
  getLastUserMessage conv w = (Returned (Some (k, um)), w) →
  inputContentOf um ≠ [] →
  toLocaleString p (JS.or_else (timezone um) "UTC") = Some tf →
  ∃ request l,
    generateAiResponse p conv w
    = try_catch
        (driveTurn p request conv (nextId w))
        (λ _,
           console_write console_error "Error in generateAiResponse:";;
           runMutation (storeAiMessage
             (mkStoreAiMessageArgs conv
                "Sorry, I encountered an error while preparing the response."
                (Some error) None None None None));;
           mret tt)
        (set_nextId (S (nextId w))
           (set_messages (<[nextId w := placeholder conv]> (messages w))
              (set_console l w))).
Proof.
  intros Hc Hlast Hinput Htz.
  unfold generateAiResponse, try_catch.
  rewrite (bind_returned _ _ _ _ _ (getConversation_found conv c w Hc)).
  rewrite (bind_returned _ _ _ _ _ Hlast).
  rewrite bool_decide_eq_false_2 by done.
  destruct (selectedModel_run (JS.or_else (model um) "gpt-4.1") w)
    as (l & sel & Hsel).
  rewrite (bind_returned _ _ _ _ _ Hsel).
  rewrite (bind_returned _ _ _ _ _ (storeAiMessage_typing conv _)).
  rewrite Htz. by eexists _, _.
Qed.

(** A turn whose stream brings content that is not blank and then
    [response.completed]: the turn returns and the assistant message it
    created is [completed]; its content is what the deltas before that
    event add up to, cut at the size limit; its response id is that of
    the last [response.created] event; its citations are the first-seen
    ones, and absent when there are none; its reasoning summary is the
    summary texts received, deltas and [done] texts alike, trimmed. The
    conversation's continuation token is that response id. *)
Theorem completed_turn_is_stored p conv c k um tf events failure w :
  conversations w !! conv = Some c →
  getLastUserMessage conv w = (Returned (Some (k, um)), w) →
  inputContentOf um ≠ [] →
  toLocaleString p (JS.or_else (timezone um) "UTC") = Some tf →
  (∀ request, responses_create p request = Streams events failure) →
  completes events →
  JS.trim (accumulated events) ≠ EmptyString →
  ∃ w' m,
    generateAiResponse p conv w = (Returned tt, w')
    ∧ messages w' !! nextId w = Some m
    ∧ author m = assistant
    ∧ status m = Some completed
    ∧ content m = JS.substring (accumulated events) 0 MAX_MESSAGE_SIZE
    ∧ openaiResponseId m = Some (responseIdFrom EmptyString events)
    ∧ citations m
      = nonEmpty (firstSeen [] (omap citationOf (annotationsSeen events)))
    ∧ (JS.trim (reasoned events) ≠ EmptyString →
       reasoningSummary m = Some (JS.trim (reasoned events)))
    ∧ lastResponseId <$> conversations w' !! conv
      = Some (Some (responseIdFrom EmptyString events)).
Proof.
  intros Hc Hlast Hinput Htz Hreply Hdone Hcontent.
  destruct (generateAiResponse_prelude p conv c k um tf w Hc Hlast Hinput Htz)
    as (request & l & ->).
  unfold try_catch, driveTurn, streamResponse. rewrite Hreply.
  unfold try_catch.
  destruct (forAwait_streaming conv (nextId w) newTurn (conversations w) c
              events _ (placeholder_streams conv l w) Hc)
    as (w1 & Hrun & Hend).
  rewrite (bind_returned _ _ _ _ _ Hrun).
  apply (locals_stop newTurn) in Hdone.
  destruct (locals_spec newTurn events) as [Hfull Hcites].
  destruct (locals_ids newTurn events) as [Hid Hreason].
  destruct (locals newTurn events) as [t stop]. simpl in *. subst stop.
  rewrite (bind_returned (mret tt) _ tt w1 w1 eq_refl).
  rewrite app_nil in Hfull, Hreason. rewrite Hfull.
  apply truthy_nonempty in Hcontent. rewrite Hcontent. simpl.
  destruct Hend as (Htoken & m & Hm & Ha & Hs & Hcont & Hrid & Hcit & Hsum).
  exists w1, m. unfold mret, M_ret.
  rewrite <- Hfull, <- Hid, <- Hreason.
  replace (firstSeen [] (omap citationOf (annotationsSeen events)))
    with (citationsOf t)
    by (rewrite Hcites; apply addAnnotations_firstSeen).
  by repeat split.
Qed.

Lemma completed_turn_is_stored_example :
  ∃ w' m,
    generateAiResponse citingProvider 10 askingWorld = (Returned tt, w')
    ∧ messages w' !! 1%nat = Some m
    ∧ status m = Some completed
    ∧ content m = "See the file."
    ∧ openaiResponseId m = Some "resp_2".
Proof.
  destruct (completed_turn_is_stored citingProvider 10
              (mkConversation 1 "chat" (Some "resp_1") None (Some 100))
              0 askingMessage "1/1/2026, 12:00:00 AM UTC"
              [ response_created "resp_2";
                response_output_text_delta "See the file.";
                response_output_text_done
                  (Some [ file_citation "f1" (Some "a.pdf");
                          file_citation "f1" (Some "a.pdf") ]);
                response_completed
                  (Some [ mkResponseOutput "message"
                            (Some [ mkOutputTextContent "output_text"
                                      (Some [ url_citation "u1" (Some "t1");
                                              file_citation "f1"
                                                (Some "renamed.pdf") ]) ]) ]) ]
              None askingWorld)
    as (w' & m & Hrun & Hm & _ & Hs & Hc & Hid & _);
    [reflexivity | by vm_compute | discriminate | reflexivity
    | reflexivity | eexists; by repeat constructor
    | intros H; vm_compute in H; discriminate |].
  exists w', m. by repeat split.
Defined.

(** A turn whose provider call rejects, or whose stream breaks off
    before any [response.completed]: the turn returns and the assistant
    message it created ends in status [error], holding what had been
    received followed by the apology, cut at the size limit. No
    conversation is written to. *)
Theorem failed_turn_keeps_the_partial_answer p conv c k um tf reply w :
  conversations w !! conv = Some c →
  getLastUserMessage conv w = (Returned (Some (k, um)), w) →
  inputContentOf um ≠ [] →
  toLocaleString p (JS.or_else (timezone um) "UTC") = Some tf →
  (∀ request, responses_create p request = reply) →
  fails reply →
  ∃ w' m,
    generateAiResponse p conv w = (Returned tt, w')
    ∧ messages w' !! nextId w = Some m
    ∧ author m = assistant
    ∧ status m = Some error
    ∧ content m
      = JS.substring (received reply ++ apology) 0 MAX_MESSAGE_SIZE
    ∧ conversations w' = conversations w.
Proof.
  intros Hc Hlast Hinput Htz Hreply Hfails.
  destruct (generateAiResponse_prelude p conv c k um tf w Hc Hlast Hinput Htz)
    as (request & l & ->).
  set (w0 := set_nextId _ _).
  assert (∀ t w1,
            streaming (nextId w) t (conversations w) w1 →
            ∃ w' m,
              onGenerationError (nextId w) w1 = (Returned tt, w')
              ∧ messages w' !! nextId w = Some m
              ∧ author m = assistant
              ∧ status m = Some error
              ∧ content m
                = JS.substring (fullContent t ++ apology) 0 MAX_MESSAGE_SIZE
              ∧ conversations w' = conversations w) as Hcatch.
  { intros t w1 Hst. unfold onGenerationError.
    rewrite (bind_returned (console_write _ _) _ tt w1 _ eq_refl).
    fold apology.
    destruct (streaming_append (nextId w) t (conversations w) apology _
                (streaming_console (nextId w) t _
                   (console w1
                      ++ [mkLog console_error
                            "Error during OpenAI response generation:"])
                   w1 Hst))
      as (w2 & Hrun & Hc2 & m & Hm & Ha & Hs & Hcont & _).
    rewrite (bind_returned _ _ _ _ _ Hrun).
    rewrite (runMutation_returned _ _ _ _ (markMessageError_found _ m w2 Hm)).
    eexists _, _. split; [done |]. simpl. rewrite lookup_insert_eq.
    split; [done |]. repeat split; try done; by destruct m. }
  unfold try_catch at 1. unfold driveTurn, streamResponse, try_catch.
  rewrite Hreply. destruct reply as [e|events failure]; simpl in Hfails.
  - unfold throw.
    destruct (Hcatch newTurn w0 (placeholder_streams conv l w))
      as (w' & m & -> & H).
    by exists w', m.
  - destruct Hfails as [[e ->] Hnot].
    destruct (forAwait_streaming conv (nextId w) newTurn (conversations w) c
                events w0 (placeholder_streams conv l w) Hc)
      as (w1 & Hrun & Hend).
    rewrite (bind_returned _ _ _ _ _ Hrun).
    destruct (locals_spec newTurn events) as [Hfull _].
    pose proof (locals_stop newTurn events) as Hstop.
    destruct (locals newTurn events) as [t [|]]; simpl in Hfull, Hstop, Hend;
      [destruct Hnot; by apply Hstop |].
    cbn beta iota.
    rewrite (bind_threw (throw e) _ e w1 w1 eq_refl).
    rewrite app_nil in Hfull. unfold received. rewrite <- Hfull.
    destruct (Hcatch t w1 Hend) as (w' & m & -> & H).
    by exists w', m.
Qed.

Lemma failed_turn_keeps_the_partial_answer_example :
  ∃ w' m,
    generateAiResponse brokenProvider 10 askingWorld = (Returned tt, w')
    ∧ messages w' !! 1%nat = Some m
    ∧ status m = Some error
    ∧ content m
      = "PartialSorry, I encountered an error while generating a response.".
Proof.
  destruct (failed_turn_keeps_the_partial_answer brokenProvider 10
              (mkConversation 1 "chat" (Some "resp_1") None (Some 100))
              0 askingMessage "1/1/2026, 12:00:00 AM UTC"
              (Streams [ response_created "resp_2";
                         response_output_text_delta "Partial" ]
                 (Some "socket hang up")) askingWorld)
    as (w' & m & Hrun & Hm & _ & Hs & Hc & _);
    [reflexivity | by vm_compute | discriminate | reflexivity
    | reflexivity | |].
  - split; [by eexists |]. intros [o Ho].
    repeat (apply elem_of_cons in Ho as [Ho|Ho]; [discriminate |]).
    by apply elem_of_nil in Ho.
  - exists w', m. by repeat split.
Defined.

(** ** The error message shown to the user *)

Lemma genericMessage_ok (own : option string) (r : Outcome string) :
  match own with
  | Some m =>
      if JS.truthy m then Returned m
      else Returned "An unexpected error occurred. Please try again."
  | None => Returned "An unexpected error occurred. Please try again."
  end = r →
  (∀ s, r = Returned s → s ≠ EmptyString) ∧ ¬ (∃ e, r = Threw e).
Proof.
  intros <-. destruct own as [m|]; [destruct (JS.truthy m) eqn:Hm |];
    (split; [intros s [= <-] | by intros [? ?]]); try done.
  by apply truthy_nonempty.
Qed.

(** The message that [getUserFriendlyErrorMessage] returns is never the
    empty string. The helper throws, instead of returning, on exactly
    one kind of caught value: a provider error body with a message and
    an unknown code, the numeric code 401, and no [message] of its own. *)
Theorem friendly_message_is_never_empty err :
  (∀ s, getUserFriendlyErrorMessage err = Returned s → s ≠ EmptyString)
  ∧ ((∃ e, getUserFriendlyErrorMessage err = Threw e) ↔ unreadable err).
Proof.
  unfold getUserFriendlyErrorMessage, unreadable.
  destruct err as [[body n own]|]; simpl.
  2:{ split; [by intros s [= <-] |]. split; [by intros [? ?] |].
      by intros (? & ? & ? & ? & ?). }
  destruct body as [[message code]|]; simpl.
  2:{ destruct (genericMessage_ok own _ eq_refl) as [H1 H2].
      split; [exact H1 |]. split; [by intros ?%H2 |].
      by intros (? & ? & ? & [= <-] & ? & ?). }
  destruct message as [message|]; simpl.
  2:{ destruct (genericMessage_ok own _ eq_refl) as [H1 H2].
      split; [exact H1 |]. split; [by intros ?%H2 |].
      by intros (? & ? & ? & [= <-] & [= <-] & ? & ?). }
  destruct (JS.truthy message) eqn:Hmsg.
  2:{ destruct (genericMessage_ok own _ eq_refl) as [H1 H2].
      split; [exact H1 |]. split; [by intros ?%H2 |].
      intros (? & ? & ? & [= <-] & [= <-] & [= <-] & Hne & _).
      apply truthy_nonempty in Hne. congruence. }
  apply truthy_nonempty in Hmsg.
  assert (∀ known,
            code = Some known → known ∈ knownCodes →
            ¬ (∃ e body message0,
                 Some (mkErrorValue (Some (mkErrorBody (Some message) code))
                         n own) = Some e
                 ∧ ev_error e = Some body
                 ∧ eb_message body = Some message0
                 ∧ message0 ≠ EmptyString
                 ∧ (∀ code, eb_code body = Some code → code ∉ knownCodes)
                 ∧ ev_code e = Some 401
                 ∧ ev_message e = None)) as Hknown.
  { intros known -> Hin (? & ? & ? & [= <-] & [= <-] & _ & _ & Hcode & _).
    by apply (Hcode known). }
  destruct (bool_decide (code = Some "invalid_api_key")) eqn:H1.
  { apply bool_decide_eq_true in H1.
    split; [by intros s [= <-] |]. split; [by intros [? ?] |].
    intros H. destruct (Hknown _ H1); [unfold knownCodes; repeat constructor | done]. }
  destruct (bool_decide (code = Some "insufficient_quota")) eqn:H2.
  { apply bool_decide_eq_true in H2.
    split; [by intros s [= <-] |]. split; [by intros [? ?] |].
    intros H. destruct (Hknown _ H2); [unfold knownCodes; repeat constructor | done]. }
  destruct (bool_decide (code = Some "rate_limit_exceeded")) eqn:H3.
  { apply bool_decide_eq_true in H3.
    split; [by intros s [= <-] |]. split; [by intros [? ?] |].
    intros H. destruct (Hknown _ H3); [unfold knownCodes; repeat constructor | done]. }
  destruct (bool_decide (code = Some "model_not_found")) eqn:H4.
  { apply bool_decide_eq_true in H4.
    split; [by intros s [= <-] |]. split; [by intros [? ?] |].
    intros H. destruct (Hknown _ H4); [unfold knownCodes; repeat constructor | done]. }
  apply bool_decide_eq_false in H1, H2, H3, H4.
  destruct (bool_decide (n = Some 401)) eqn:Hn.
  - apply bool_decide_eq_true in Hn. destruct own as [m|].
    + destruct (JS.String_includes m _);
        (split; [by intros s [= <-] |]; split; [by intros [? ?] |];
         by intros (? & ? & ? & [= <-] & _ & _ & _ & _ & _ & ?)).
    + split; [done |]. split; [| by eexists].
      intros _. eexists _, _, _. repeat split; try done.
      intros c Hc. simpl in Hc. unfold knownCodes.
      rewrite !elem_of_cons, elem_of_nil. intros [->|[->|[->|[->|[]]]]];
        congruence.
  - apply bool_decide_eq_false in Hn.
    split; [by intros s [= <-] |]. split; [by intros [? ?] |].
    by intros (? & ? & ? & [= <-] & _ & _ & _ & _ & ? & _).
Qed.

(** ** Reading the messages of a conversation *)

(** The owner of a conversation is listed its messages, all of them and
    no other, oldest first; to anyone else the conversation is
    ["Not found"]. [getRecentMessages] answers the last twenty of that
    list, newest first. *)
Theorem recent_messages_are_the_last_twenty uid u conv c w :
  users w !! uid = Some u →
  conversations w !! conv = Some c →
  ∃ l,
    (userId c = uid →
     listMessages (Some uid) conv w = (Returned l, w)
     ∧ getRecentMessages conv uid w
       = (Returned (reverse (drop (length l - 20) l)), w))
    ∧ (userId c ≠ uid →
       (listMessages (Some uid) conv w).1 = Threw "Not found"
       ∧ (getRecentMessages conv uid w).1 = Threw "Not found")
    ∧ (∀ k m, (k, m) ∈ l
              ↔ messages w !! k = Some m ∧ conversationId m = conv)
    ∧ StronglySorted (λ a b : nat * Message, (a.1 < b.1)%nat) l.
Proof.
  intros Hu Hc. exists (db.messagesOf conv w).
  unfold listMessages, getRecentMessages.
  rewrite (bind_returned _ _ _ _ _ (getLoggedInUser_found uid u w Hu)).
  cbn beta iota.
  rewrite !(bind_returned (db.get_conversation conv) _ (Some c) w w)
    by (unfold db.get_conversation, gets; by rewrite Hc).
  split; [| split; [| split]].
  - intros Hown. rewrite bool_decide_eq_false_2
      by (simpl; intros H; apply H; congruence).
    split; [done |]. unfold gets. by rewrite take_reverse.
  - intros Hother. rewrite bool_decide_eq_true_2
      by (simpl; congruence).
    done.
  - apply messagesOf_elem.
  - pose proof (messagesOf_sorted conv w) as Hs.
    pose proof (messagesOf_NoDup conv w) as Hnd.
    induction Hs as [|x l Hs IH Hx]; [constructor |].
    apply NoDup_cons in Hnd as [Hxl Hnd].
    constructor; [by apply IH |].
    apply Forall_forall. intros y Hy.
    rewrite Forall_forall in Hx. specialize (Hx y Hy).
    unfold db.byCreation in Hx.
    assert (x.1 ≠ y.1); [| lia].
    intros Heq. apply Hxl. rewrite Heq. apply list_elem_of_fmap.
    by exists y.
Qed.

Lemma recent_messages_are_the_last_twenty_example :
  ∃ l,
    listMessages (Some 1%nat) 10 askingWorld = (Returned l, askingWorld)
    ∧ getRecentMessages 10 1 askingWorld
      = (Returned (reverse (drop (length l - 20) l)), askingWorld).
Proof.
  destruct (recent_messages_are_the_last_twenty 1 (mkUser None None) 10
              (mkConversation 1 "chat" (Some "resp_1") None (Some 100))
              askingWorld eq_refl eq_refl)
    as (l & Hown & _).
  exists l. by apply Hown.
Defined.

(** ** Storing into a conversation that is gone *)

(** A message stored for a conversation that does not exist: the user
    message and the assistant message of a status other than [typing]
    are refused, and nothing is stored; the [typing] placeholder is
    stored all the same. *)
Theorem storing_into_a_lost_conversation args ai w :
  conversations w !! su_conversationId args = None →
  conversations w !! sa_conversationId ai = None →
  (∃ e, runMutation (storeUserMessage args) w = (Threw e, w))
  ∧ (∃ e, runMutation (storeUserMessageWithVectorStore args) w
          = (Threw e, w))
  ∧ (sa_status ai ≠ Some typing →
     ∃ e, runMutation (storeAiMessage ai) w = (Threw e, w))
  ∧ (sa_status ai = Some typing →
     ∃ w', runMutation (storeAiMessage ai) w = (Returned (nextId w), w')
           ∧ is_Some (messages w' !! nextId w)
           ∧ conversations w' = conversations w).
Proof.
  intros Hu Ha. split; [| split; [| split]].
  - unfold runMutation, storeUserMessage, db.insert_message,
      db.patch_conversation. unfold_monad. simpl. rewrite Hu.
    eexists. f_equal. by destruct w.
  - unfold runMutation, storeUserMessageWithVectorStore, db.insert_message,
      db.patch_conversation. unfold_monad. simpl. rewrite Hu.
    eexists. f_equal. by destruct w.
  - intros Hs. unfold runMutation, storeAiMessage, db.insert_message,
      db.patch_conversation. unfold_monad. simpl.
    rewrite bool_decide_eq_true_2 by done. simpl. rewrite Ha.
    eexists. f_equal. by destruct w.
  - intros Hs. unfold runMutation, storeAiMessage, db.insert_message.
    unfold_monad. simpl. rewrite bool_decide_eq_false_2 by (by intros H).
    eexists. split; [done |]. simpl. rewrite lookup_insert_eq.
    split; [by eexists | done].
Qed.

Lemma storing_into_a_lost_conversation_example :
  ∃ e,
    runMutation (storeUserMessage
      (mkStoreUserMessageArgs 3 "hello" None None None None None None None
         None)) emptyWorld
    = (Threw e, emptyWorld).
Proof.
  destruct (storing_into_a_lost_conversation
              (mkStoreUserMessageArgs 3 "hello" None None None None None
                 None None None)
              (mkStoreAiMessageArgs 3 EmptyString (Some typing) None None
                 None None)
              emptyWorld eq_refl eq_refl)
    as (Huser & _).
  exact Huser.
Defined.

(** ** The whole run of an upload *)

Section UploadRun.

Variable c : Cloud.

Lemma ensureVectorStore_keeps_owner files conv c0 w :
  conversations w !! conv = Some c0 →
  ∃ r w1 c1,
    ensureVectorStore c conv c0 files w = (Returned r, w1)
    ∧ conversations w1 !! conv = Some c1
    ∧ userId c1 = userId c0
    ∧ ∀ k, k ≠ conv → conversations w1 !! k = conversations w !! k.
Proof.
  intros Hconv. unfold ensureVectorStore.
  destruct (_ && _)%bool; [| by eexists _, w, c0].
  destruct (vectorStores_create c _) as [vs|e].
  - unfold try_catch, updateConversationVectorStore, runMutation,
      db.patch_conversation.
    unfold mbind, M_bind at 1. rewrite Hconv. simpl.
    eexists _, _, _. split; [done |]. simpl. rewrite lookup_insert_eq.
    split; [done |]. split; [done |].
    intros k Hk. by rewrite lookup_insert_ne.
  - simpl. by eexists _, _, c0.
Qed.

Lemma storeUserMessageWithVectorStore_run args c0 w :
  conversations w !! su_conversationId args = Some c0 →
  storeUserMessageWithVectorStore args w
  = (Returned (nextId w),
     set_conversations
       (<[su_conversationId args := touched (now w) c0]> (conversations w))
       (set_nextId (S (nextId w))
          (set_messages (<[nextId w := userMessageOf args]> (messages w))
             w))).
Proof.
  intros Hc. unfold storeUserMessageWithVectorStore, db.insert_message,
    db.patch_conversation. unfold_monad. simpl. by rewrite Hc.
Qed.

(** The handler from [getFirstMessage] on. *)
Lemma upload_tail args uid c1 u w w2 :
  let conv := ua_conversationId args in
  w2 = set_console (console w2) (set_conversations (conversations w2) w) →
  conversations w2 !! conv = Some c1 →
  indexOk w →
  ∃ w4,
    (if 0 <? Z.of_nat (length (uploadedOpenAIFileIds u)) then
       runMutation (createUserFileMappings uid (Some conv)
         (Some (nextId w))
         (fileMappingsOf (uploadedOpenAIFileIds u)
            (originalFileNames u) (uploadedFilesMapping u)))
     else mret tt)
      (set_conversations
         (<[conv := touched (now w) c1]> (conversations w2))
         (set_nextId (S (nextId w))
            (set_messages
               (<[nextId w := uploadedMessage args u]> (messages w))
               w2)))
    = (Returned tt, w4)
    ∧ messages w4 = <[nextId w := uploadedMessage args u]> (messages w)
    ∧ conversations w4 = <[conv := touched (now w) c1]> (conversations w2)
    ∧ (existingFirstMessage ← getFirstMessage conv;
       let isFirstMessage :=
         match existingFirstMessage with None => true | Some _ => false end in
       messageId ← runMutation (storeUserMessageWithVectorStore
         (mkStoreUserMessageArgs conv (ua_content args)
            (Some (uploadedOpenAIFileIds u)) (Some (originalFileNames u))
            (Some (uploadedFilesMapping u)) (Some (vectorStoreFileIdsOf u))
            (ua_timezone args) (ua_webSearchEnabled args) (ua_model args)
            (ua_thinkingIntensity args)));
       (if (0 <? Z.of_nat (length (uploadedOpenAIFileIds u))) then
          runMutation (createUserFileMappings uid (Some conv)
            (Some messageId)
            (fileMappingsOf (uploadedOpenAIFileIds u) (originalFileNames u)
               (uploadedFilesMapping u)))
        else mret tt);;
       runAfter 0 (generateAiResponseJob conv);;
       (if (isFirstMessage
            && negb (String.eqb (JS.trim (ua_content args)) EmptyString))%bool
        then runAfter 5000 (generateConversationTitleJob conv)
        else mret tt);;
       mret (mkUploadResult true (errorsOf u))) w2
      = (Returned (mkUploadResult true (errorsOf u)),
         set_scheduled (scheduled w ++ uploadJobs args w) w4).
Proof.
  intros conv Hw2 Hc1 Hok.
  assert (nextId w2 = nextId w ∧ now w2 = now w ∧ messages w2 = messages w
          ∧ scheduled w2 = scheduled w
          ∧ fileMessageMappings w2 = fileMessageMappings w)
    as (Hnext & Hnow & Hmsgs & Hsched & Hidx) by (by rewrite Hw2).
  assert (db.messagesOf conv w2 = db.messagesOf conv w) as HmOf
    by (unfold db.messagesOf; by rewrite Hmsgs).
  set (w3 := set_conversations _ _).
  assert (∃ w4,
            (if 0 <? Z.of_nat (length (uploadedOpenAIFileIds u)) then
               runMutation (createUserFileMappings uid (Some conv)
                 (Some (nextId w))
                 (fileMappingsOf (uploadedOpenAIFileIds u)
                    (originalFileNames u) (uploadedFilesMapping u)))
             else mret tt) w3 = (Returned tt, w4)
            ∧ messages w4 = messages w3
            ∧ conversations w4 = conversations w3
            ∧ scheduled w4 = scheduled w3) as (w4 & Hmap & Hm4 & Hc4 & Hs4).
  { destruct (0 <? _); [| by exists w3].
    destruct (createUserFileMappings_ok uid (Some conv) (Some (nextId w))
                (fileMappingsOf (uploadedOpenAIFileIds u)
                   (originalFileNames u) (uploadedFilesMapping u)) w3)
      as (w4 & Hmap & _ & Hm4 & Hc4 & Hs4); [| by exists w4].
    by apply (indexOk_same_table w). }
  exists w4. split; [exact Hmap |]. split; [exact Hm4 |].
  split; [exact Hc4 |].
  rewrite (bind_returned (getFirstMessage conv) _ _ w2 w2 eq_refl).
  cbn zeta.
  match goal with
  | |- context [storeUserMessageWithVectorStore ?a] =>
      rewrite (bind_returned _ _ _ _ _
                 (runMutation_returned _ _ _ _
                    (storeUserMessageWithVectorStore_run a c1 w2 Hc1)))
  end.
  rewrite Hnext, Hnow, Hmsgs. fold (uploadedMessage args u).
  change (su_conversationId _) with conv.
  fold w3. rewrite (bind_returned _ _ _ _ _ Hmap).
  rewrite (bind_returned (runAfter _ _) _ tt w4 _ eq_refl).
  unfold uploadJobs. fold conv. rewrite <- HmOf.
  assert (scheduled w4 = scheduled w) as Hs
    by (rewrite Hs4; simpl; exact Hsched).
  destruct (_ && _)%bool.
  - rewrite (bind_returned (runAfter _ _) _ tt _ _ eq_refl).
    unfold mret, M_ret. f_equal. unfold runAfter, modify. simpl.
    unfold set_scheduled. simpl. rewrite Hs.
    by rewrite <- List.app_assoc.
  - rewrite (bind_returned (mret tt) _ tt _ _ eq_refl).
    unfold mret, M_ret. f_equal. unfold runAfter, modify. simpl.
    unfold set_scheduled. simpl. by rewrite Hs.
Qed.

(** The run of [uploadFileAndSendMessage] from a ready state: it gives
    up, or it stores the message in [w3], records the files in the index
    ([w4]) and schedules the jobs. *)
Lemma upload_run args uid c0 w :
  uploadReady c args uid c0 w →
  let conv := ua_conversationId args in
  let u := uploadLocals c args c0 in
  ∃ w2 c1,
    w2 = set_console (console w2) (set_conversations (conversations w2) w)
    ∧ conversations w2 !! conv = Some c1
    ∧ userId c1 = uid
    ∧ (∀ k, k ≠ conv → conversations w2 !! k = conversations w !! k)
    ∧ if uploadGivesUp args u then
        uploadFileAndSendMessage c args w
        = (Threw "Failed to process any of the uploaded files for OpenAI. All files encountered errors.",
           w2)
      else
        ∃ w4,
          (if 0 <? Z.of_nat (length (uploadedOpenAIFileIds u)) then
             runMutation (createUserFileMappings uid (Some conv)
               (Some (nextId w))
               (fileMappingsOf (uploadedOpenAIFileIds u)
                  (originalFileNames u) (uploadedFilesMapping u)))
           else mret tt)
            (set_conversations
               (<[conv := touched (now w) c1]> (conversations w2))
               (set_nextId (S (nextId w))
                  (set_messages
                     (<[nextId w := uploadedMessage args u]> (messages w))
                     w2)))
          = (Returned tt, w4)
          ∧ messages w4 = <[nextId w := uploadedMessage args u]> (messages w)
          ∧ conversations w4
            = <[conv := touched (now w) c1]> (conversations w2)
          ∧ uploadFileAndSendMessage c args w
            = (Returned (mkUploadResult true (errorsOf u)),
               set_scheduled (scheduled w ++ uploadJobs args w) w4).
Proof.
  intros (Hauth & [usr Husr] & Hmodel & Hconv & Hown & Hne & Hmax & Hok)
    conv u.
  unfold uploadFileAndSendMessage. cbn zeta.
  set (files := ua_uploadedConvexFiles args) in *. fold conv in Hconv |- *.
  rewrite Hauth.
  rewrite (bind_returned _ _ _ _ _ (getLoggedInUser_found uid usr w Husr)).
  cbn beta iota.
  rewrite (bind_returned _ _ _ _ _ (validModel_passes args w Hmodel)).
  subst uid.
  rewrite (bind_returned _ _ _ _ _ (getConversation_owned conv c0 w Hconv)).
  rewrite bool_decide_eq_false_2 by (by intros H).
  replace (Z.of_nat (length files) >? MAX_FILES) with false
    by (symmetry; rewrite Z.gtb_ltb; by apply Z.ltb_ge).
  destruct (ensureVectorStore_spec c files conv c0 w Hconv)
    as (w1 & c1 & Hens & Hw1 & Hc1).
  assert (userId c1 = userId c0
          ∧ ∀ k, k ≠ conv → conversations w1 !! k = conversations w !! k)
    as [Hown1 Hothers].
  { destruct (ensureVectorStore_keeps_owner files conv c0 w Hconv)
      as (r & w1' & c1' & Hens' & Hc1' & Ho & Hk).
    rewrite Hens in Hens'. injection Hens' as _ <-.
    rewrite Hc1 in Hc1'. by injection Hc1' as <-. }
  rewrite (bind_returned _ _ _ _ _ Hens).
  set (vs := (vectorStoreFor c conv c0 files).1) in *.
  set (storeErrs := (vectorStoreFor c conv c0 files).2) in *.
  set (u0 := mkUpload storeErrs vs vs [] [] [] []).
  destruct (processFiles_locals c files u0 files w1) as [l2 Hproc].
  rewrite (bind_returned _ _ _ _ _ Hproc).
  change (foldl (localsAfterFile c files) u0 files) with u.
  set (w2 := set_console (console w1 ++ l2) w1).
  assert (w2 = set_console (console w2)
                 (set_conversations (conversations w2) w)) as Hw2
    by (subst w2; rewrite Hw1; reflexivity).
  unfold uploadGivesUp. fold files.
  destruct (Nat.eqb (length (uploadedOpenAIFileIds u)) 0
            && (0 <? Z.of_nat (length files)))%bool eqn:Hnone; cbn [andb].
  - destruct (Nat.eqb (length (errorsOf u)) (length files)) eqn:Hall.
    + exists w2, c1. by repeat split.
    + rewrite (bind_returned (console_write _ _) _ tt w2 _ eq_refl).
      set (w2' := set_console _ w2).
      exists w2', c1. split; [subst w2'; rewrite Hw2; reflexivity |].
      split; [done |]. split; [done |]. split; [done |].
      destruct (upload_tail args (userId c0) c1 u w w2')
        as (w4 & Hmap & Hm4 & Hc4 & Hrun); [| done | done |].
      { subst w2'. rewrite Hw2. reflexivity. }
      exists w4. split; [exact Hmap |]. split; [exact Hm4 |].
      split; [exact Hc4 |]. exact Hrun.
  - rewrite (bind_returned (mret tt) _ tt w2 w2 eq_refl).
    exists w2, c1. split; [done |]. split; [done |]. split; [done |].
    split; [done |].
    destruct (upload_tail args (userId c0) c1 u w w2 Hw2 Hc1 Hok)
      as (w4 & Hmap & Hm4 & Hc4 & Hrun).
    exists w4. split; [exact Hmap |]. split; [exact Hm4 |].
    split; [exact Hc4 |]. exact Hrun.
Qed.

End UploadRun.

(** The example world is ready for any upload into conversation 10 that
    passes the checks on its arguments. *)
Lemma uploadWorld_ready args :
  validModel args = true →
  ua_conversationId args = 10%nat →
  ua_uploadedConvexFiles args ≠ [] →
  Z.of_nat (length (ua_uploadedConvexFiles args)) ≤ MAX_FILES →
  uploadReady healthyCloud args 1
    (mkConversation 1 "chat" None None None) uploadWorld.
Proof.
  intros Hvalid Hconv Hne Hmax.
  split; [reflexivity |]. split; [by eexists |]. split; [exact Hvalid |].
  split; [by rewrite Hconv |]. split; [reflexivity |].
  split; [exact Hne |]. split; [exact Hmax |]. by apply indexOk_empty.
Qed.

(** ** What an upload records *)

Section UploadRecords.

Variable c : Cloud.
Variable files : list ConvexFile.

(** The three arrays that the loop pushes to are aligned: they hold, in
    file order, the id, the name and the record of each file that
    uploaded. *)
Lemma localsAfterFile_records u f :
  let u' := localsAfterFile c files u f in
  uploadedOpenAIFileIds u'
  = (uploadedOpenAIFileIds u ++ (omap (recordOf c) [f]).*1)%list
  ∧ originalFileNames u'
    = (originalFileNames u
       ++ (uf_fileName <$> (omap (recordOf c) [f]).*2))%list
  ∧ uploadedFilesMapping u'
    = (uploadedFilesMapping u ++ (omap (recordOf c) [f]).*2)%list.
Proof.
  unfold localsAfterFile, recordOf, uploadOf. simpl omap.
  destruct (negb _); [simpl; by rewrite !app_nil_r |].
  destruct (storage_get c _) as [blob|]; [| simpl; by rewrite !app_nil_r].
  destruct (_ >? _); [simpl; by rewrite !app_nil_r |].
  destruct (files_create c _ _) as [id|e]; [| simpl; by rewrite !app_nil_r].
  unfold localsAfterUpload. cbn zeta.
  cbn [vectorStoreIdOf conversationVectorStoreId].
  destruct (truthyOpt (vectorStoreIdOf u)).
  - by destruct (vectorStores_files_create c _ id).
  - by destruct (_ && _)%bool.
Qed.

Lemma localsAfterFiles_records u rest :
  let u' := foldl (localsAfterFile c files) u rest in
  uploadedOpenAIFileIds u'
  = (uploadedOpenAIFileIds u ++ (omap (recordOf c) rest).*1)%list
  ∧ originalFileNames u'
    = (originalFileNames u
       ++ (uf_fileName <$> (omap (recordOf c) rest).*2))%list
  ∧ uploadedFilesMapping u'
    = (uploadedFilesMapping u ++ (omap (recordOf c) rest).*2)%list.
Proof.
  revert u. induction rest as [|f rest IH]; intros u; simpl.
  - by rewrite !app_nil_r.
  - destruct (localsAfterFile_records u f) as (Hi & Hn & Hm).
    destruct (IH (localsAfterFile c files u f)) as (Hi' & Hn' & Hm').
    rewrite Hi', Hn', Hm', Hi, Hn, Hm, <- !List.app_assoc.
    simpl omap. by destruct (recordOf c f) as [[id r]|].
Qed.

(** A recorded file passed the checks of the loop. *)
Lemma recordOf_acceptable f id r :
  recordOf c f = Some (id, r) →
  acceptable r ∧ uf_fileName r = cf_fileName f
  ∧ uf_storageId r = cf_storageId f ∧ uploadOf c f = Returned id.
Proof.
  unfold recordOf, uploadOf.
  destruct (isSupportedFileExtension _) eqn:Hext; simpl; [| done].
  destruct (storage_get c _) as [blob|]; [| done].
  destruct (Z.gtb_spec (blob_size blob) MAX_FILE_SIZE) as [|Hsize];
    [done |].
  destruct (files_create c _ _) as [id'|e]; [| done].
  intros [= <- <-]. repeat split; try done.
  by apply accepted_extension_type.
Qed.

End UploadRecords.

Lemma uploadLocals_records c args c0 :
  let u := uploadLocals c args c0 in
  let records := omap (recordOf c) (ua_uploadedConvexFiles args) in
  uploadedOpenAIFileIds u = records.*1
  ∧ originalFileNames u = uf_fileName <$> records.*2
  ∧ uploadedFilesMapping u = records.*2.
Proof.
  unfold uploadLocals. cbn zeta.
  match goal with
  | |- context [foldl (localsAfterFile c ?fs) ?u0 ?fs] =>
      destruct (localsAfterFiles_records c fs u0 fs) as (H1 & H2 & H3)
  end.
  by rewrite H1, H2, H3.
Qed.

Lemma upload_store_errors c args c0 :
  let store :=
    vectorStoreFor c (ua_conversationId args) c0
      (ua_uploadedConvexFiles args) in
  store.2 = [] ∨ store.2 = [vectorStoreCreationError].
Proof.
  unfold vectorStoreFor. destruct (_ && _)%bool; [| by left].
  destruct (vectorStores_create c _); [by left | by right].
Qed.

(** Every file that a stored upload message records passed the checks:
    its type is one of the supported MIME types and its size is within
    [MAX_FILE_SIZE]; the message records exactly the files that
    uploaded, in file order, with the provider's ids alongside. *)
Theorem uploaded_files_are_acceptable c args uid c0 w r w' :
  uploadReady c args uid c0 w →
  uploadFileAndSendMessage c args w = (Returned r, w') →
  let records := omap (recordOf c) (ua_uploadedConvexFiles args) in
  ∃ m,
    messages w' !! nextId w = Some m
    ∧ fileIds m = Some records.*1
    ∧ uploadedFileNames m = Some (uf_fileName <$> records.*2)
    ∧ uploadedFiles m = Some records.*2
    ∧ Forall acceptable records.*2.
Proof.
  intros Hready Hrun records.
  destruct (upload_run c args uid c0 w Hready)
    as (w2 & c1 & _ & _ & _ & _ & Hcases).
  destruct (uploadGivesUp args _); [by rewrite Hrun in Hcases |].
  destruct Hcases as (w4 & _ & Hm4 & _ & Hrun').
  rewrite Hrun in Hrun'. injection Hrun' as _ ->.
  destruct (uploadLocals_records c args c0) as (Hids & Hnames & Hfiles).
  eexists. split; [simpl; rewrite Hm4; apply lookup_insert_eq |].
  simpl. rewrite Hids, Hnames, Hfiles. repeat split.
  apply Forall_forall. intros x Hx.
  apply list_elem_of_fmap in Hx as ([id x'] & -> & Hin).
  apply list_elem_of_omap in Hin as (f & _ & Hf).
  by apply (recordOf_acceptable c f id x').
Qed.

Lemma uploaded_files_are_acceptable_example :
  ∃ m,
    messages (uploadFileAndSendMessage healthyCloud oneGoodOneBadFile
                uploadWorld).2 !! 20%nat = Some m
    ∧ uploadedFiles m = Some [pdfRecord]
    ∧ Forall acceptable [pdfRecord].
Proof.
  destruct (uploaded_files_are_acceptable healthyCloud oneGoodOneBadFile 1
              (mkConversation 1 "chat" None None None) uploadWorld
              (mkUploadResult true
                 ["File b.exe has unsupported type: exe. Skipping."])
              (uploadFileAndSendMessage healthyCloud oneGoodOneBadFile
                 uploadWorld).2)
    as (m & Hm & _ & _ & Hfiles & Hok).
  - apply uploadWorld_ready; [reflexivity | reflexivity | discriminate |].
    by vm_compute.
  - by vm_compute.
  - by exists m.
Defined.

Lemma uploadedIds_all_fail c fs :
  Forall (fileFails c) fs → uploadedIds c fs = [].
Proof.
  unfold uploadedIds. induction 1 as [|f fs [e He] _ IH]; simpl; [done |].
  by rewrite He.
Qed.

Lemma errorsFor_all_fail c vs fs0 fs :
  Forall (fileFails c) fs → length (fs ≫= errorsFor c vs fs0) = length fs.
Proof.
  induction 1 as [|f fs [e He] _ IH]; [done |].
  rewrite bind_cons, List.length_app, IH. unfold errorsFor. by rewrite He.
Qed.

(** More than [MAX_FILES] files: the call throws before it touches the
    provider or the state. *)
Theorem upload_of_too_many_files c args uid usr c0 w :
  authUserId c = Some uid →
  users w !! uid = Some usr →
  validModel args = true →
  conversations w !! ua_conversationId args = Some c0 →
  userId c0 = uid →
  MAX_FILES < Z.of_nat (length (ua_uploadedConvexFiles args)) →
  uploadFileAndSendMessage c args w
  = (Threw (tooManyFilesError (length (ua_uploadedConvexFiles args))), w).
Proof.
  intros Hauth Husr Hmodel Hconv Hown Hmany.
  unfold uploadFileAndSendMessage. cbn zeta. rewrite Hauth.
  rewrite (bind_returned _ _ _ _ _ (getLoggedInUser_found uid usr w Husr)).
  cbn beta iota.
  rewrite (bind_returned _ _ _ _ _ (validModel_passes args w Hmodel)).
  subst uid.
  rewrite (bind_returned _ _ _ _ _
             (getConversation_owned _ c0 w Hconv)).
  rewrite bool_decide_eq_false_2 by (by intros H).
  by replace (Z.of_nat (length (ua_uploadedConvexFiles args)) >? MAX_FILES)
    with true by (symmetry; by apply Z.gtb_lt).
Qed.

Lemma upload_of_too_many_files_example :
  uploadFileAndSendMessage healthyCloud elevenFiles uploadWorld
  = (Threw "Too many files uploaded. Maximum allowed: 10, received: 11",
     uploadWorld).
Proof.
  apply (upload_of_too_many_files healthyCloud elevenFiles 1
           (mkUser None None) (mkConversation 1 "chat" None None None)
           uploadWorld); try reflexivity.
Defined.

(** When every file of an upload fails, the call throws, and stores and
    schedules nothing, unless the creation of the vector store failed as
    well: then [errors] holds one string more than there are files, the
    call returns [success: true], and the user message is stored,
    without files, and answered. *)
Theorem upload_when_every_file_fails c args uid c0 w :
  uploadReady c args uid c0 w →
  Forall (fileFails c) (ua_uploadedConvexFiles args) →
  let files := ua_uploadedConvexFiles args in
  let store := vectorStoreFor c (ua_conversationId args) c0 files in
  (store.2 = [] →
   ∃ w',
     uploadFileAndSendMessage c args w = (Threw noFileProcessedError, w')
     ∧ messages w' = messages w
     ∧ scheduled w' = scheduled w
     ∧ fileMessageMappings w' = fileMessageMappings w)
  ∧ (store.2 ≠ [] →
     ∃ w' errors m,
       uploadFileAndSendMessage c args w
       = (Returned (mkUploadResult true errors), w')
       ∧ length errors = S (length files)
       ∧ messages w' !! nextId w = Some m
       ∧ fileIds m = Some []
       ∧ (0, generateAiResponseJob (ua_conversationId args)) ∈ scheduled w').
Proof.
  intros Hready Hfail files store.
  destruct (upload_run c args uid c0 w Hready)
    as (w2 & c1 & Hw2 & _ & _ & _ & Hcases).
  destruct Hready as (_ & _ & _ & _ & _ & Hne & _).
  fold files in Hne, Hfail.
  unfold uploadLocals in Hcases. cbn zeta in Hcases.
  fold files store in Hcases.
  set (u := foldl _ _ _) in Hcases.
  destruct (localsAfterFiles_spec c files
              (mkUpload store.2 store.1 store.1 [] [] [] []) files eq_refl)
    as (Herrs & Hids & _).
  fold u in Herrs, Hids. simpl in Herrs, Hids.
  pose proof (uploadedIds_all_fail c files Hfail) as Hnone.
  pose proof (errorsFor_all_fail c store.1 files files Hfail) as Hlen.
  assert (length (errorsOf u) = (length store.2 + length files)%nat)
    as Hlen' by (by rewrite Herrs, List.length_app, Hlen).
  assert (uploadGivesUp args u
          = Nat.eqb (length (errorsOf u)) (length files)) as Hgives.
  { unfold uploadGivesUp. fold files. rewrite Hids, Hnone. simpl.
    by replace (0 <? Z.of_nat (length files)) with true
      by (symmetry; apply Z.ltb_lt; destruct files; [done | simpl; lia]). }
  rewrite Hgives, Hlen' in Hcases. split; intros Hstore.
  - rewrite Hstore, Nat.eqb_refl in Hcases.
    exists w2. split; [exact Hcases |]. by rewrite Hw2.
  - replace (Nat.eqb (length store.2 + length files) (length files))
      with false in Hcases.
    2:{ symmetry. apply Nat.eqb_neq.
        destruct store.2; [done | simpl; lia]. }
    destruct Hcases as (w4 & _ & Hm4 & _ & Hrun).
    eexists _, _, _. split; [exact Hrun |]. split; [| split; [| split]].
    + rewrite Hlen'.
      pose proof (upload_store_errors c args c0) as [H|H];
        fold files store in H; [done | by rewrite H].
    + simpl. rewrite Hm4. apply lookup_insert_eq.
    + simpl. fold files store u. by rewrite Hids, Hnone.
    + simpl. rewrite elem_of_app. right. unfold uploadJobs. by left.
Qed.

Lemma upload_when_every_file_fails_example :
  ∃ w',
    uploadFileAndSendMessage healthyCloud oneBadFile uploadWorld
    = (Threw noFileProcessedError, w')
    ∧ messages w' = messages uploadWorld.
Proof.
  destruct (upload_when_every_file_fails healthyCloud oneBadFile 1
              (mkConversation 1 "chat" None None None) uploadWorld)
    as (Hthrows & _).
  - apply uploadWorld_ready; [reflexivity | reflexivity | discriminate |].
    by vm_compute.
  - repeat constructor. by eexists.
  - destruct (Hthrows eq_refl) as (w' & Hrun & Hm & _). by exists w'.
Defined.

(** ** From an upload to its citations *)

Section Mappings.

Variables (uid : nat) (conv msg : option nat).

(** One insert into the index, for a file id it does not hold. *)
Lemma createUserFileMapping_fresh args w :
  noEntry (cm_openaiFileId args) w →
  mappingsBelowNext w →
  let w' := set_nextId (S (nextId w))
              (set_fileMessageMappings
                 (<[nextId w := entryOf args (now w)]>
                    (fileMessageMappings w)) w) in
  createUserFileMapping args w = (Returned tt, w')
  ∧ mappingsBelowNext w'
  ∧ theEntry (cm_openaiFileId args) w' (entryOf args (now w))
  ∧ (∀ fid, fid ≠ cm_openaiFileId args → noEntry fid w → noEntry fid w')
  ∧ (∀ fid e, fid ≠ cm_openaiFileId args →
              theEntry fid w e → theEntry fid w' e).
Proof.
  intros Hno Hbelow w'.
  assert (fileMessageMappings w !! nextId w = None) as Hfree.
  { destruct (fileMessageMappings w !! nextId w) eqn:Hk; [| done].
    assert (nextId w < nextId w)%nat by (apply Hbelow; by eexists). lia. }
  split; [| split; [| split; [| split]]].
  - rewrite createUserFileMapping_cases.
    pose proof (unique_noEntry _ _ Hno) as Hnone.
    rewrite unique_of_filter in Hnone.
    by destruct (map_to_list _) as [|kv [|kv' rest]].
  - intros k [e Hk]. simpl in *.
    apply lookup_insert_Some in Hk as [[<- _]|[_ Hk]]; [lia |].
    assert (k < nextId w)%nat by (apply Hbelow; by eexists). lia.
  - exists (nextId w). simpl. rewrite lookup_insert_eq.
    split; [done |]. split; [done |]. intros k' e' Hk' Hfid.
    apply lookup_insert_Some in Hk' as [[<- _]|[_ Hk']]; [done |].
    by destruct (Hno k' e').
  - intros fid Hne Hnofid k e Hk. simpl in Hk.
    apply lookup_insert_Some in Hk as [[_ <-]|[_ Hk]]; [by simpl |].
    by apply (Hnofid k).
  - intros fid e Hne (k & Hk & Hfid & Huniq). exists k. simpl.
    assert (k ≠ nextId w) by congruence.
    rewrite lookup_insert_ne by done. split; [done |]. split; [done |].
    intros k' e' Hk' Hfid'.
    apply lookup_insert_Some in Hk' as [[_ <-]|[_ Hk']];
      [simpl in Hfid'; congruence |].
    by apply (Huniq k' e').
Qed.

(** After [createUserFileMappings] for distinct file ids that the index
    did not hold, it holds one entry for each, with the item's
    properties, the uploader, the conversation and the message. *)
Lemma createUserFileMappings_fresh items w :
  mappingsBelowNext w →
  NoDup (fm_openaiFileId <$> items) →
  (∀ item, item ∈ items → noEntry (fm_openaiFileId item) w) →
  ∃ w',
    createUserFileMappings uid conv msg items w = (Returned tt, w')
    ∧ w' = set_nextId (nextId w')
             (set_fileMessageMappings (fileMessageMappings w') w)
    ∧ mappingsBelowNext w'
    ∧ (∀ item, item ∈ items →
         ∃ t, theEntry (fm_openaiFileId item) w'
                (entryOf (mappingArgs uid conv msg item) t))
    ∧ (∀ fid e, fid ∉ fm_openaiFileId <$> items →
                theEntry fid w e → theEntry fid w' e).
Proof.
  unfold createUserFileMappings. revert w.
  induction items as [|item items IH]; intros w Hbelow Hnd Hno.
  - exists w. simpl. split; [done |]. split; [by destruct w |].
    split; [done |]. split; [by intros ? ?%elem_of_nil | done].
  - rewrite fmap_cons in Hnd. apply NoDup_cons in Hnd as [Hhead Hnd].
    destruct (createUserFileMapping_fresh (mappingArgs uid conv msg item) w)
      as (Hrun & Hbelow1 & Hentry & Hno1 & Hkeep1);
      [apply Hno; by left | done |].
    set (w1 := set_nextId _ _) in *.
    destruct (IH w1 Hbelow1 Hnd) as (w' & Hrest & Hw' & Hbelow' & Hfind & Hkeep).
    { intros item' Hin. apply Hno1.
      - simpl. intros Heq. apply Hhead. rewrite <- Heq.
        apply list_elem_of_fmap. by exists item'.
      - apply Hno. by right. }
    exists w'. simpl forEach.
    rewrite (bind_returned _ _ _ _ _ (runMutation_returned _ _ _ _ Hrun)).
    split; [exact Hrest |]. split; [| split; [done | split]].
    + rewrite Hw'. by subst w1.
    + intros item' [->|Hin]%elem_of_cons; [| by apply Hfind].
      exists (now w). by apply Hkeep.
    + intros fid e Hfid Hentry0. rewrite fmap_cons, not_elem_of_cons in Hfid.
      destruct Hfid as [Hne Hfid]. apply Hkeep; [done |].
      by apply Hkeep1.
Qed.

End Mappings.

Lemma fileMappingsOf_records (records : list (string * UploadedFile)) :
  fileMappingsOf records.*1 (uf_fileName <$> records.*2) records.*2
  = mappingItem <$> records.
Proof.
  induction records as [|[id f] records IH]; [done |].
  rewrite !fmap_cons. cbn [fileMappingsOf]. by rewrite IH.
Qed.

(** After an upload that returned, each file that uploaded is found
    from the conversation by its provider id: [findUserMessageByFileId]
    answers the message that the upload stored, and the file's name.
    The provider's ids are taken to be distinct and new to the index. *)
Theorem uploaded_files_resolve_to_their_message c args uid c0 w r w' :
  uploadReady c args uid c0 w →
  mappingsBelowNext w →
  uploadFileAndSendMessage c args w = (Returned r, w') →
  let records := omap (recordOf c) (ua_uploadedConvexFiles args) in
  NoDup records.*1 →
  (∀ id, id ∈ records.*1 → noEntry id w) →
  ∀ id f,
    (id, f) ∈ records →
    findUserMessageByFileId (Some uid) (ua_conversationId args) id w'
    = (Returned (Some (nextId w, uf_fileName f)), w').
Proof.
  intros Hready Hbelow Hrun records Hnd Hnew id f Hin.
  destruct (upload_run c args uid c0 w Hready)
    as (w2 & c1 & Hw2 & Hc1 & Hown & _ & Hcases).
  destruct Hready as (_ & [usr Husr] & _).
  destruct (uploadGivesUp args _); [by rewrite Hrun in Hcases |].
  destruct Hcases as (w4 & Hmap & Hm4 & Hc4 & Hrun').
  rewrite Hrun in Hrun'. injection Hrun' as _ ->.
  destruct (uploadLocals_records c args c0) as (Hids & Hnames & Hfiles).
  fold records in Hids, Hnames, Hfiles.
  rewrite Hids, Hnames, Hfiles, fileMappingsOf_records in Hmap.
  replace (0 <? Z.of_nat (length records.*1)) with true in Hmap.
  2:{ symmetry. apply Z.ltb_lt. destruct records; [| simpl; lia].
      by apply elem_of_nil in Hin. }
  set (w3 := set_conversations _ _) in Hmap.
  destruct (createUserFileMappings_fresh uid
              (Some (ua_conversationId args)) (Some (nextId w))
              (mappingItem <$> records) w3)
    as (w4' & Hmap' & Hw4 & _ & Hfind & _).
  { intros k Hk. subst w3. simpl in *. rewrite Hw2 in Hk. simpl in Hk.
    specialize (Hbelow k Hk). lia. }
  { rewrite <- list_fmap_compose.
    by rewrite (list_fmap_ext (fm_openaiFileId ∘ mappingItem) fst records)
      by done. }
  { intros item (rec & -> & Hrec)%list_elem_of_fmap. simpl.
    intros k e Hk. subst w3. simpl in Hk. rewrite Hw2 in Hk. simpl in Hk.
    apply (Hnew rec.1) with k; [| done].
    apply list_elem_of_fmap. by exists rec. }
  rewrite (runMutation_returned _ _ _ _ Hmap') in Hmap.
  injection Hmap as <-.
  destruct (Hfind (mappingItem (id, f))) as [t Hentry].
  { apply list_elem_of_fmap. by exists (id, f). }
  destruct Hentry as (k & Hk & Hfid & Huniq).
  unfold findUserMessageByFileId, findUserMessageByFileIdImpl.
  set (w5 := set_scheduled _ w4').
  assert (users w5 !! uid = Some usr) as Husr5.
  { subst w5. simpl. rewrite Hw4. simpl. subst w3. simpl.
    rewrite Hw2. exact Husr. }
  rewrite (bind_returned _ _ _ _ _ (getLoggedInUser_found uid usr w5 Husr5)).
  cbn beta iota.
  rewrite (bind_returned (db.get_conversation _) _
             (Some (touched (now w) c1)) w5 w5).
  2:{ unfold db.get_conversation, gets. subst w5. simpl.
      rewrite Hc4. by rewrite lookup_insert_eq. }
  rewrite bool_decide_eq_false_2
    by (simpl; intros H; apply H; by rewrite Hown).
  rewrite (bind_returned _ _ _ _ _
             (unique_theEntry id w5 k _ Hk Hfid Huniq)).
  cbn beta iota.
  rewrite bool_decide_eq_false_2 by (simpl; tauto).
  rewrite bool_decide_eq_false_2 by (simpl; tauto).
  done.
Qed.

Lemma uploaded_files_resolve_to_their_message_example :
  let w' := (uploadFileAndSendMessage healthyCloud oneGoodOneBadFile
               uploadWorld).2 in
  findUserMessageByFileId (Some 1%nat) 10 "file-a.pdf" w'
  = (Returned (Some (20%nat, "a.pdf")), w').
Proof.
  intros w'.
  apply (uploaded_files_resolve_to_their_message healthyCloud
           oneGoodOneBadFile 1 (mkConversation 1 "chat" None None None)
           uploadWorld
           (mkUploadResult true
              ["File b.exe has unsupported type: exe. Skipping."])
           w' (uploadWorld_ready oneGoodOneBadFile eq_refl eq_refl
                 ltac:(discriminate) ltac:(by vm_compute))
           ltac:(intros k [e Hk]; simpl in Hk; by rewrite lookup_empty in Hk)
           ltac:(by vm_compute)
           ltac:(vm_compute; apply NoDup_singleton)
           ltac:(intros id _ k e Hk; simpl in Hk;
                 by rewrite lookup_empty in Hk)
           "file-a.pdf" pdfRecord).
  vm_compute. by left.
Defined.

(** ** A turn amid other transactions *)

Lemma returns_bind {A B} (h : M A) (k : A → M B) :
  returns h → (∀ a, returns (k a)) → returns (h ≫= k).
Proof.
  intros Hh Hk w. destruct (Hh w) as (a & w1 & Hrun).
  destruct (Hk a w1) as (b & w2 & Hrun2).
  exists b, w2. by rewrite (bind_returned _ _ _ _ _ Hrun).
Qed.

Lemma returns_ret {A} (a : A) : returns (mret a).
Proof. intros w. by exists a, w. Qed.

Lemma returns_console l s : returns (console_write l s).
Proof. intros w. by eexists tt, _. Qed.

Lemma returns_try {A} (h : M A) (k : string → M A) :
  (∀ e, returns (k e)) → returns (try_catch h k).
Proof.
  intros Hk w. unfold try_catch.
  destruct (h w) as [[a|e] w1]; [by exists a, w1 | apply Hk].
Qed.

Lemma returns_mutation mid {A} (h : M A) :
  returnsKeeping mid h → returns (runMutation h).
Proof.
  intros Hh w. destruct (Hh w) as (a & w1 & Hrun & _).
  exists a, w1. by apply runMutation_returned.
Qed.

Lemma returns_perEvent t body : returns (perEvent t body).
Proof.
  apply returns_try. intros _.
  apply returns_bind; [apply returns_console | intros _; apply returns_ret].
Qed.

Section AmidReturns.

Variable env : Await → M unit.
Hypothesis env_returns : ∀ pt, returns (env pt).

Lemma onEventAmid_returns i conv mid t event :
  returns (onEventAmid env i conv mid t event).
Proof.
  destruct event; simpl;
    try apply returns_ret; try apply returns_perEvent.
  apply returns_bind; [| intros _; apply returns_ret].
  intros w.
  destruct (safe_forEach mid logAnnotation (default [] annotations)
              (safe_logAnnotation mid) w) as (a & w1 & Hrun & _).
  by exists a, w1.
Qed.

Lemma forAwaitAmid_returns conv mid events :
  ∀ i t, returns (forAwaitAmid env i conv mid t events).
Proof.
  induction events as [|event rest IH]; intros i t; simpl;
    [apply returns_ret |].
  apply returns_bind; [apply env_returns | intros _].
  apply returns_bind; [apply onEventAmid_returns | intros [t' [|]]];
    [apply returns_ret | apply IH].
Qed.

Lemma onGenerationErrorAmid_returns mid :
  returns (onGenerationErrorAmid env mid).
Proof.
  unfold onGenerationErrorAmid.
  apply returns_bind; [apply returns_console | intros _].
  apply returns_bind; [apply env_returns | intros _].
  apply returns_bind;
    [apply (returns_mutation mid), safe_appendMessageContent | intros _].
  apply returns_bind; [apply env_returns | intros _].
  apply (returns_mutation mid), safe_markMessageError.
Qed.

Lemma driveTurnAmid_returns p request conv mid :
  returns (driveTurnAmid env p request conv mid).
Proof.
  apply returns_try. intros _. apply onGenerationErrorAmid_returns.
Qed.

End AmidReturns.

(** With nothing else running, the turn is [generateAiResponse]. *)
Lemma onEventAmid_alone i conv mid t event w :
  onEventAmid alone i conv mid t event w = onEvent conv mid t event w.
Proof. by destruct event. Qed.

Lemma forAwaitAmid_alone conv mid events :
  ∀ i t w,
    forAwaitAmid alone i conv mid t events w = forAwait conv mid t events w.
Proof.
  induction events as [|event rest IH]; intros i t w; simpl; [done |].
  unfold mbind, M_bind at 1. unfold alone at 1. unfold mret, M_ret at 1.
  unfold mbind, M_bind. rewrite onEventAmid_alone.
  destruct (onEvent conv mid t event w) as [[[t' [|]]|e] w1];
    [done | apply IH | done].
Qed.

Lemma streamResponseAmid_alone p request conv mid w :
  streamResponseAmid alone p request conv mid w
  = streamResponse p request conv mid w.
Proof.
  unfold streamResponseAmid, streamResponse.
  unfold mbind, M_bind at 1. unfold alone at 1. unfold mret, M_ret at 1.
  destruct (responses_create p request) as [e|events failure]; [done |].
  unfold mbind, M_bind. rewrite forAwaitAmid_alone.
  destruct (forAwait conv mid newTurn events w) as [[[t' [|]]|e] w1];
    [done | | done].
  unfold alone. by destruct failure.
Qed.

Lemma driveTurnAmid_alone p request conv mid w :
  driveTurnAmid alone p request conv mid w = driveTurn p request conv mid w.
Proof.
  unfold driveTurnAmid, driveTurn, try_catch.
  rewrite streamResponseAmid_alone.
  by destruct (streamResponse p request conv mid w) as [[[]|e] w1].
Qed.

Lemma generateAiResponseAmid_alone p conv w :
  generateAiResponseAmid alone p conv w = generateAiResponse p conv w.
Proof.
  unfold generateAiResponseAmid, generateAiResponse, try_catch.
  unfold mbind, M_bind at 1. unfold alone at 1. unfold mret, M_ret at 1.
  rewrite !(bind_returned _ _ _ _ _ (getConversation_any conv w)).
  destruct (conversations w !! conv) as [c|]; [| done].
  unfold mbind, M_bind at 1. unfold alone at 1. unfold mret, M_ret at 1.
  unfold getLastUserMessage. unfold mbind, M_bind at 1.
  unfold mbind, M_bind at 8. unfold gets.
  destruct (head _) as [[k um]|]; [| done].
  destruct (bool_decide _); [done |].
  destruct (selectedModel_run (JS.or_else (model um) "gpt-4.1") w)
    as (l & sel & Hsel).
  rewrite !(bind_returned _ _ _ _ _ Hsel).
  unfold mbind, M_bind at 1. unfold alone at 1. unfold mret, M_ret at 1.
  rewrite !(bind_returned _ _ _ _ _ (storeAiMessage_typing conv _)).
  destruct (toLocaleString p _) as [tf|]; [| done].
  by rewrite driveTurnAmid_alone.
Qed.

Lemma keepsConversation_run conv (h : M unit) w w' c :
  keepsConversation conv h →
  h w = (Returned tt, w') →
  conversations w !! conv = Some c →
  is_Some (conversations w' !! conv).
Proof.
  intros Hkeep Hrun Hc. specialize (Hkeep w). rewrite Hrun in Hkeep.
  apply Hkeep. by eexists.
Qed.

Lemma deletedAt_elsewhere moment auth conv pt w :
  pt ≠ moment → deletedAt moment auth conv pt w = (Returned tt, w).
Proof. intros Hpt. unfold deletedAt. by rewrite decide_False. Qed.

Lemma deletedAt_returns moment auth conv pt :
  returns (deletedAt moment auth conv pt).
Proof.
  intros w. unfold deletedAt. destruct (decide _); by eexists tt, _.
Qed.

(** [generateAiResponse] amid anything that other functions commit
    between its calls: the job returns, provided that nobody deletes its
    conversation between the first query and the last call of the outer
    [catch]. While the answer streams, even that is harmless. With
    nothing else running, the job amid the others is
    [generateAiResponse]. *)
Theorem turn_returns_while_its_conversation_lives p conv w :
  generateAiResponseAmid alone p conv w = generateAiResponse p conv w
  ∧ ∀ env,
      (∀ pt, returns (env pt)) →
      (∀ pt, pt ∈ aroundTheStream → keepsConversation conv (env pt)) →
      ∃ w', generateAiResponseAmid env p conv w = (Returned tt, w').
Proof.
  split; [apply generateAiResponseAmid_alone |].
  intros env Hret Hkeep. unfold generateAiResponseAmid, try_catch.
  destruct (Hret at_getConversation w) as ([] & w0 & H0).
  rewrite (bind_returned _ _ _ _ _ H0).
  rewrite (bind_returned _ _ _ _ _ (getConversation_any conv w0)).
  destruct (conversations w0 !! conv) as [c|] eqn:Hc; [| by eexists].
  destruct (Hret at_getLastUserMessage w0) as ([] & w1 & H1).
  rewrite (bind_returned _ _ _ _ _ H1).
  destruct (keepsConversation_run conv _ w0 w1 c
              (Hkeep at_getLastUserMessage ltac:(repeat constructor)) H1 Hc)
    as [c1 Hc1].
  unfold getLastUserMessage. unfold mbind, M_bind at 1. unfold gets.
  destruct (head _) as [[k um]|]; [| by eexists].
  destruct (bool_decide _); [by eexists |].
  destruct (selectedModel_run (JS.or_else (model um) "gpt-4.1") w1)
    as (l & sel & Hsel).
  rewrite (bind_returned _ _ _ _ _ Hsel).
  destruct (Hret at_storeAiMessage (set_console (console w1 ++ l) w1))
    as ([] & w2 & H2).
  rewrite (bind_returned _ _ _ _ _ H2).
  destruct (keepsConversation_run conv _ _ w2 c1
              (Hkeep at_storeAiMessage ltac:(repeat constructor)) H2 Hc1)
    as [c2 Hc2].
  rewrite (bind_returned _ _ _ _ _ (storeAiMessage_typing conv w2)).
  destruct (toLocaleString p _) as [tf|].
  - match goal with
    | |- context [driveTurnAmid env p ?rq conv ?mid ?w3] =>
        destruct (driveTurnAmid_returns env Hret p rq conv mid w3)
          as ([] & w' & ->)
    end.
    by eexists.
  - unfold throw.
    rewrite (bind_returned (console_write _ _) _ tt _ _ eq_refl).
    cbn beta.
    match goal with
    | |- context [M_bind _ _ _ (env at_storeError) ?w3] =>
        destruct (Hret at_storeError w3) as ([] & w4 & H4);
        destruct (keepsConversation_run conv _ w3 w4 c2
                    (Hkeep at_storeError ltac:(repeat constructor)) H4 Hc2)
          as [c4 Hc4]
    end.
    unfold M_bind at 1. rewrite H4.
    unfold M_bind. rewrite (storeAiMessage_error conv c4 w4 Hc4).
    by eexists.
Qed.

Lemma turn_returns_while_its_conversation_lives_example :
  ∃ w',
    generateAiResponseAmid (deletedAt (at_next 1) (Some 1%nat) 10)
      citingProvider 10 askingWorld
    = (Returned tt, w')
    ∧ conversations w' !! 10%nat = None.
Proof.
  destruct (turn_returns_while_its_conversation_lives citingProvider 10
              askingWorld) as [_ Hamid].
  destruct (Hamid (deletedAt (at_next 1) (Some 1%nat) 10)
              (deletedAt_returns _ _ _)) as [w' Hrun].
  - intros pt Hpt w Hc.
    rewrite deletedAt_elsewhere; [done |].
    intros ->. vm_compute in Hpt.
    repeat (apply elem_of_cons in Hpt as [Hpt|Hpt]; [discriminate |]).
    by apply elem_of_nil in Hpt.
  - exists w'. split; [exact Hrun |].
    change w' with (Returned tt, w').2. rewrite <- Hrun. by vm_compute.
Defined.

(** The owner's [deleteConversation] leaves nothing of the
    conversation. *)
Lemma deleteConversation_gone uid u conv c w :
  users w !! uid = Some u →
  conversations w !! conv = Some c →
  userId c = uid →
  ∃ w',
    deleteConversation (Some uid) conv w = (Returned tt, w')
    ∧ conversations w' !! conv = None
    ∧ (∀ k m, messages w' !! k = Some m → conversationId m ≠ conv)
    ∧ console w' = console w.
Proof.
  intros Hu Hc Hown. unfold deleteConversation.
  rewrite (bind_returned _ _ _ _ _ (getLoggedInUser_found uid u w Hu)).
  cbn beta iota.
  rewrite (bind_returned (db.get_conversation conv) _ (Some c) w w)
    by (unfold db.get_conversation, gets; by rewrite Hc).
  rewrite bool_decide_eq_false_2 by (simpl; intros H; apply H; congruence).
  rewrite (bind_returned (gets (db.messagesOf conv)) _ _ w w eq_refl).
  assert (∀ kv, kv ∈ db.messagesOf conv w → is_Some (messages w !! kv.1))
    as Hall.
  { intros [k m] Hin. apply messagesOf_elem in Hin as [Hm _]. by eexists. }
  rewrite (bind_returned _ _ _ _ _
             (forEach_delete_message (db.messagesOf conv w) w
                (messagesOf_NoDup conv w) Hall)).
  unfold db.delete_conversation. simpl. rewrite Hc.
  eexists. split; [done |]. simpl. split; [apply lookup_delete_eq |].
  split; [| done].
  intros k m Hm Hconv. apply map_lookup_filter_Some in Hm as [Hm Hnot].
  apply Hnot. simpl. apply list_elem_of_fmap. exists (k, m).
  split; [done |]. by apply messagesOf_elem.
Qed.

(** The job does throw when its conversation is deleted at the wrong
    moment: the time zone of the last user message is unknown to the
    runtime, and the owner deletes the conversation while the job is on
    its way to store the apology. The insert of the apology fails on the
    missing conversation, outside every [try]: the job ends with that
    error, and nothing of the conversation is left, neither the
    placeholder nor an apology. *)
Theorem turn_throws_when_its_conversation_is_deleted p conv c u k um w :
  conversations w !! conv = Some c →
  users w !! userId c = Some u →
  getLastUserMessage conv w = (Returned (Some (k, um)), w) →
  inputContentOf um ≠ [] →
  toLocaleString p (JS.or_else (timezone um) "UTC") = None →
  ∃ w',
    generateAiResponseAmid
      (deletedAt at_storeError (Some (userId c)) conv) p conv w
    = (Threw "Update on nonexistent document", w')
    ∧ conversations w' !! conv = None
    ∧ (∀ k m, messages w' !! k = Some m → conversationId m ≠ conv).
Proof.
  intros Hc Hu Hlast Hinput Htz.
  unfold generateAiResponseAmid, try_catch.
  rewrite (bind_returned _ _ _ _ _
             (deletedAt_elsewhere at_storeError _ conv at_getConversation w
                ltac:(done))).
  rewrite (bind_returned _ _ _ _ _ (getConversation_any conv w)), Hc.
  rewrite (bind_returned _ _ _ _ _
             (deletedAt_elsewhere at_storeError _ conv at_getLastUserMessage
                w ltac:(done))).
  rewrite (bind_returned _ _ _ _ _ Hlast).
  rewrite bool_decide_eq_false_2 by done.
  destruct (selectedModel_run (JS.or_else (model um) "gpt-4.1") w)
    as (l & sel & Hsel).
  rewrite (bind_returned _ _ _ _ _ Hsel).
  rewrite (bind_returned _ _ _ _ _
             (deletedAt_elsewhere at_storeError _ conv at_storeAiMessage _
                ltac:(done))).
  rewrite (bind_returned _ _ _ _ _ (storeAiMessage_typing conv _)).
  rewrite Htz. unfold throw.
  rewrite (bind_returned (console_write _ _) _ tt _ _ eq_refl).
  cbn beta.
  match goal with
  | |- context [(deletedAt at_storeError ?a conv at_storeError ≫= _) ?w3] =>
      destruct (deleteConversation_gone (userId c) u conv c w3)
        as (w4 & Hdel & Hgone & Hmsgs & _); [done | done | done |];
      assert (deletedAt at_storeError a conv at_storeError w3
              = (Returned tt, w4)) as H4
  end.
  { unfold deletedAt, meanwhile.
    rewrite decide_True by done.
    by rewrite (runMutation_returned _ _ _ _ Hdel). }
  rewrite (bind_returned _ _ _ _ _ H4).
  unfold runMutation, storeAiMessage, db.insert_message,
    db.patch_conversation. unfold_monad. simpl. rewrite Hgone. simpl.
  eexists. split; [done |]. by split.
Qed.

Lemma turn_throws_when_its_conversation_is_deleted_example :
  ∃ w',
    generateAiResponseAmid (deletedAt at_storeError (Some 1%nat) 10)
      lostClockProvider 10 askingWorld
    = (Threw "Update on nonexistent document", w')
    ∧ conversations w' !! 10%nat = None.
Proof.
  destruct (turn_throws_when_its_conversation_is_deleted lostClockProvider
              10 (mkConversation 1 "chat" (Some "resp_1") None (Some 100))
              (mkUser None None) 0 askingMessage askingWorld)
    as (w' & Hrun & Hgone & _);
    [reflexivity | reflexivity | by vm_compute | discriminate | reflexivity |].
  by exists w'.
Defined.
